(** * The Kiro / CodeWhisperer adapter ([src/claude/claude-kiro.js])

    A shallow embedding of the adapter's request shaper, event-stream
    parser, response builder and retry loop, with the properties of the
    specification stated over it.

    JavaScript strings are sequences of UTF-16 code units; they are modelled
    as [list N], so that [length], [substring], the regular-expression
    classes and [trim] count and classify exactly what the engine does. *)

From Stdlib Require Import NArith Lia.
From stdpp Require Import base option list gmap strings.

Set Default Proof Using "Type".
Set Warnings "-register-all".

(** ** JavaScript strings *)

Abbreviation jschar := N (only parsing).
Abbreviation jsstring := (list N) (only parsing).

Module JS.

(** An ASCII literal of the source, as code units. *)
Definition js (s : string) : jsstring :=
  map Ascii.N_of_ascii (String.list_ascii_of_string s).
Arguments js _%_string.

(** [String.prototype.startsWith] at position 0. *)
Fixpoint startsWith (pat s : jsstring) : bool :=
  match pat, s with
  | [], _ => true
  | p :: pat', c :: s' => (p =? c)%N && startsWith pat' s'
  | _ :: _, [] => false
  end.

(** [s.indexOf(pat, from)]; [None] stands for -1.  [i] is the index of the
    head of [s] in the whole string. *)
Fixpoint indexOf_at (pat s : jsstring) (from i : nat) : option nat :=
  if (from <=? i) && startsWith pat s then Some i
  else match s with
       | [] => None
       | _ :: s' => indexOf_at pat s' from (S i)
       end.

Definition indexOf (s pat : jsstring) (from : nat) : option nat :=
  indexOf_at pat s from 0.

Definition includes (s pat : jsstring) : bool :=
  match indexOf s pat 0 with Some _ => true | None => false end.

(** [s.lastIndexOf(pat)]: the greatest index at which [pat] occurs. *)
Fixpoint lastIndexOf_at (pat s : jsstring) (i : nat) : option nat :=
  match s with
  | [] => if startsWith pat [] then Some i else None
  | _ :: s' =>
      match lastIndexOf_at pat s' (S i) with
      | Some j => Some j
      | None => if startsWith pat s then Some i else None
      end
  end.

Definition lastIndexOf (s pat : jsstring) : option nat :=
  lastIndexOf_at pat s 0.

(** [s.substring(a, b)]: both ends are clamped to the length and swapped
    when [a > b]. *)
Definition substring (s : jsstring) (a b : nat) : jsstring :=
  let a' := a `min` length s in
  let b' := b `min` length s in
  take ((a' `max` b') - (a' `min` b')) (drop (a' `min` b') s).

(** [s.split(sep)] for a one-unit separator. *)
Fixpoint split_at (sep : jschar) (cur s : jsstring) : list jsstring :=
  match s with
  | [] => [rev cur]
  | c :: s' => if (c =? sep)%N then rev cur :: split_at sep [] s'
               else split_at sep (c :: cur) s'
  end.

Definition split (s : jsstring) (sep : jschar) : list jsstring :=
  split_at sep [] s.

(** [arr.join('')]. *)
Definition join (l : list jsstring) : jsstring := concat l.

(** WhiteSpace and LineTerminator of ECMAScript: what [trim] strips and what
    the class [\s] accepts. *)
Definition isSpace (c : jschar) : bool :=
  ((9 <=? c) && (c <=? 13) || (c =? 32) || (c =? 160) || (c =? 5760)
   || (8192 <=? c) && (c <=? 8202) || (c =? 8232) || (c =? 8233)
   || (c =? 8239) || (c =? 8287) || (c =? 12288) || (c =? 65279))%N.

(** The class [\w] (without the u flag): [A-Za-z0-9_]. *)
Definition isWord (c : jschar) : bool :=
  ((65 <=? c) && (c <=? 90) || (97 <=? c) && (c <=? 122)
   || (48 <=? c) && (c <=? 57) || (c =? 95))%N.

Fixpoint dropWhile (p : jschar -> bool) (s : jsstring) : jsstring :=
  match s with
  | [] => []
  | c :: s' => if p c then dropWhile p s' else s
  end.

Definition trimStart (s : jsstring) : jsstring := dropWhile isSpace s.
Definition trimEnd (s : jsstring) : jsstring := rev (dropWhile isSpace (rev s)).
Definition trim (s : jsstring) : jsstring := trimEnd (trimStart s).

(** ASCII upper-casing of one code unit.  Under the i flag (no u flag) a
    pattern character below 128 matches exactly the input units with the
    same ASCII upper case: Canonicalize never maps a unit of 128 or more
    to one below 128. *)
Definition upperAscii (c : jschar) : jschar :=
  if ((97 <=? c) && (c <=? 122))%N then (c - 32)%N else c.

Definition lowerAscii (c : jschar) : jschar :=
  if ((65 <=? c) && (c <=? 90))%N then (c + 32)%N else c.

(** [s.toLowerCase()].  Besides the ASCII letters the one mapping that
    changes the length (U+0130 to U+0069 U+0307) is kept, as it shifts
    later indexes; other units of 128 or more are mapped to units of 128 or
    more by the engine and are left in place here, which gives the same
    [indexOf] for an ASCII needle. *)
Definition toLowerCase (s : jsstring) : jsstring :=
  concat (map (fun c => if (c =? 304)%N then [105; 775]%N else [lowerAscii c]) s).

End JS.

(** ** Regular expressions

    The patterns of the source are transcribed into this syntax and run by
    a backtracking matcher in continuation-passing style, with the priorities
    of the ECMAScript algorithm: alternatives left to right, greedy
    quantifiers longest first, lazy ones shortest first. *)

Module Regex.
Import JS.

Inductive regex :=
| RChar (p : jschar -> bool)        (* one unit: literal, class, dot *)
| REps
| RSeq (r1 r2 : regex)
| RAlt (r1 r2 : regex)
| RStar (greedy : bool) (r : regex) (* r* and r*? *)
| RGroup (n : nat) (r : regex)      (* capture group number n *)
| RAhead (r : regex)                (* (?=r) *)
| RNotBehind (p : jschar -> bool)   (* (?<!c) for one unit *)
| REnd.                             (* $ without the m flag *)

Definition caps := list (nat * jsstring).

(** A position in the subject: the units already passed, last first, and
    the units still ahead; with the captures made so far. *)
Definition mstate : Type := jsstring * jsstring * caps.
Definition mcont := jsstring -> jsstring -> caps -> option mstate.

Fixpoint mtch (r : regex) (k : mcont) (pre post : jsstring) (cs : caps)
  {struct r} : option mstate :=
  match r with
  | RChar p =>
      match post with
      | c :: post' => if p c then k (c :: pre) post' cs else None
      | [] => None
      end
  | REps => k pre post cs
  | RSeq r1 r2 => mtch r1 (mtch r2 k) pre post cs
  | RAlt r1 r2 =>
      match mtch r1 k pre post cs with
      | Some x => Some x
      | None => mtch r2 k pre post cs
      end
  | RStar g r' =>
      (fix loop (fuel : nat) (pre post : jsstring) (cs : caps) {struct fuel}
         : option mstate :=
         match fuel with
         | 0 => k pre post cs
         | S f =>
             let again (_ : unit) :=
               mtch r' (fun pre' post' cs' =>
                          (* an iteration that consumes nothing is rejected *)
                          if length post' <? length post
                          then loop f pre' post' cs' else None)
                    pre post cs in
             if g then
               match again () with
               | Some x => Some x
               | None => k pre post cs
               end
             else
               match k pre post cs with
               | Some x => Some x
               | None => again ()
               end
         end) (length post) pre post cs
  | RGroup n r' =>
      mtch r' (fun pre' post' cs' =>
                 k pre' post'
                   ((n, rev (take (length pre' - length pre) pre')) :: cs'))
           pre post cs
  | RAhead r' =>
      match mtch r' (fun a b c => Some (a, b, c)) pre post cs with
      | Some (_, _, cs') => k pre post cs'
      | None => None
      end
  | RNotBehind p =>
      match pre with
      | c :: _ => if p c then None else k pre post cs
      | [] => k pre post cs
      end
  | REnd => match post with [] => k pre post cs | _ :: _ => None end
  end.

(** A match starting exactly at the position [(pre, post)]. *)
Definition matchAt (r : regex) (pre post : jsstring) : option mstate :=
  mtch r (fun a b c => Some (a, b, c)) pre post [].

(** The text of a match that started with [pre] behind and ended in
    state [pre']. *)
Definition matched (pre pre' : jsstring) : jsstring :=
  rev (take (length pre' - length pre) pre').

(** The n-th capture; the innermost, latest binding wins. *)
Fixpoint capture (n : nat) (cs : caps) : jsstring :=
  match cs with
  | [] => []
  | (m, s) :: cs' => if m =? n then s else capture n cs'
  end.

(** The leftmost match at or after the current position ([RegExp exec]
    without the g flag; [String.prototype.match]). *)
Fixpoint search (r : regex) (pre post : jsstring) : option (jsstring * mstate) :=
  match matchAt r pre post with
  | Some st => Some (pre, st)
  | None =>
      match post with
      | [] => None
      | c :: post' => search r (c :: pre) post'
      end
  end.

(** [s.replace(r, f)] with the g flag: matches are found left to right,
    each search resuming where the previous match ended (one unit further
    after an empty match); [skip] counts the units of the current match
    still to pass. *)
Fixpoint replace_loop (r : regex) (f : jsstring -> caps -> jsstring)
    (skip : nat) (pre post : jsstring) {struct post} : jsstring :=
  match skip with
  | S n =>
      match post with
      | [] => []
      | c :: post' => replace_loop r f n (c :: pre) post'
      end
  | 0 =>
      match matchAt r pre post with
      | Some (pre', _, cs) =>
          let m := length pre' - length pre in
          f (matched pre pre') cs ++
          match post with
          | [] => []
          | c :: post' =>
              (if m =? 0 then [c] else []) ++
              replace_loop r f (m - 1) (c :: pre) post'
          end
      | None =>
          match post with
          | [] => []
          | c :: post' => c :: replace_loop r f 0 (c :: pre) post'
          end
      end
  end.

Definition replaceAll (r : regex) (f : jsstring -> caps -> jsstring)
    (s : jsstring) : jsstring :=
  replace_loop r f 0 [] s.

(** [[...s.matchAll(r)]]: the captures of every match, left to right. *)
Fixpoint matchAll_loop (r : regex) (skip : nat) (pre post : jsstring)
    {struct post} : list caps :=
  match skip with
  | S n =>
      match post with
      | [] => []
      | c :: post' => matchAll_loop r n (c :: pre) post'
      end
  | 0 =>
      match matchAt r pre post with
      | Some (pre', _, cs) =>
          let m := length pre' - length pre in
          cs :: match post with
                | [] => []
                | c :: post' => matchAll_loop r (m - 1) (c :: pre) post'
                end
      | None =>
          match post with
          | [] => []
          | c :: post' => matchAll_loop r 0 (c :: pre) post'
          end
      end
  end.

Definition matchAll (r : regex) (s : jsstring) : list caps :=
  matchAll_loop r 0 [] s.

(** Building blocks for transcribing patterns. *)
Definition chr (c : jschar) : regex := RChar (N.eqb c).
Definition chr_i (c : jschar) : regex :=
  RChar (fun x => (upperAscii x =? upperAscii c)%N).
Definition anyChar : regex := RChar (fun _ => true).
Definition notChr (c : jschar) : regex := RChar (fun x => negb (x =? c)%N).
Definition space : regex := RChar isSpace.
Definition word : regex := RChar isWord.

Fixpoint seqs (rs : list regex) : regex :=
  match rs with
  | [] => REps
  | [r] => r
  | r :: rs' => RSeq r (seqs rs')
  end.

Definition lit (s : jsstring) : regex := seqs (map chr s).
Definition lit_i (s : jsstring) : regex := seqs (map chr_i s).
Definition star (r : regex) : regex := RStar true r.
Definition lazyStar (r : regex) : regex := RStar false r.
Definition plus (r : regex) : regex := RSeq r (RStar true r).
Definition lazyPlus (r : regex) : regex := RSeq r (RStar false r).

End Regex.

(** ** JSON values

    What [JSON.parse] returns and [JSON.stringify] prints.  A number is
    carried by its [Number::toString] form, which determines the double
    (minus zero prints as 0, like zero).  The members of
    an object are kept in property order. *)

Module JSON.
Import JS.

Inductive json :=
| JNull
| JBool (b : bool)
| JNum (repr : jsstring)
| JStr (s : jsstring)
| JArr (elems : list json)
| JObj (members : list (jsstring * json)).

(** [v[k]]: [None] is [undefined].  Only the keys read by the adapter are
    ever looked up, none of which a string, number, boolean or array has. *)
Fixpoint lookupMember (k : jsstring) (ms : list (jsstring * json))
  : option json :=
  match ms with
  | [] => None
  | (k', v) :: ms' => if bool_decide (k' = k) then Some v else lookupMember k ms'
  end.

Definition prop (v : json) (k : jsstring) : option json :=
  match v with
  | JObj ms => lookupMember k ms
  | _ => None
  end.

(** ToBoolean. *)
Definition truthy (v : json) : bool :=
  match v with
  | JNull => false
  | JBool b => b
  | JNum r => negb (bool_decide (r = js "0"))
  | JStr s => negb (bool_decide (s = []))
  | JArr _ | JObj _ => true
  end.

Definition truthy_opt (v : option json) : bool :=
  match v with Some x => truthy x | None => false end.

(** [arr.join(sep)] on strings. *)
Fixpoint joinWith (sep : jsstring) (l : list jsstring) : jsstring :=
  match l with
  | [] => []
  | [x] => x
  | x :: l' => x ++ sep ++ joinWith sep l'
  end.

(** ToString, as applied by [+=] on a string and by template literals. *)
Fixpoint toString (v : json) : jsstring :=
  match v with
  | JNull => js "null"
  | JBool true => js "true"
  | JBool false => js "false"
  | JNum r => r
  | JStr s => s
  | JArr l =>
      joinWith (js ",")
        (map (fun x => match x with JNull => [] | _ => toString x end) l)
  | JObj _ => js "[object Object]"
  end.

(** [typeof v === 'object' && v !== null]. *)
Definition isObject (v : json) : bool :=
  match v with JArr _ | JObj _ => true | _ => false end.

End JSON.

(** ** A JSON reader and printer

    [JSON.parse] and [JSON.stringify] are parameters of the adapter's model
    below.  This instance follows the JSON grammar and is used to run the
    model on concrete buffers.  Its numerals are the integers of at most 15
    digits, whose double prints back digit for digit; a numeral with a
    fraction, an exponent or more digits is not read ([None]). *)

Module JsonText.
Import JS JSON.

Definition isWs (c : jschar) : bool :=
  ((c =? 32) || (c =? 9) || (c =? 10) || (c =? 13))%N.

Definition isDigit (c : jschar) : bool := ((48 <=? c) && (c <=? 57))%N.

Definition skipWs (s : jsstring) : jsstring := dropWhile isWs s.

Fixpoint takeWhile (p : jschar -> bool) (s : jsstring) : jsstring :=
  match s with
  | [] => []
  | c :: s' => if p c then c :: takeWhile p s' else []
  end.

Definition hexVal (c : jschar) : option N :=
  if isDigit c then Some (c - 48)%N
  else if ((97 <=? c) && (c <=? 102))%N then Some (c - 87)%N
  else if ((65 <=? c) && (c <=? 70))%N then Some (c - 55)%N
  else None.

Definition hex4 (a b c d : jschar) : option jschar :=
  x ← hexVal a; y ← hexVal b; z ← hexVal c; w ← hexVal d;
  Some (((x * 16 + y) * 16 + z) * 16 + w)%N.

(** The one-character escapes after a backslash. *)
Definition unescape (e : jschar) : option jschar :=
  if (e =? 34)%N then Some 34%N            (* quote *)
  else if (e =? 92)%N then Some 92%N       (* backslash *)
  else if (e =? 47)%N then Some 47%N       (* slash *)
  else if (e =? 98)%N then Some 8%N        (* b *)
  else if (e =? 102)%N then Some 12%N      (* f *)
  else if (e =? 110)%N then Some 10%N      (* n *)
  else if (e =? 114)%N then Some 13%N      (* r *)
  else if (e =? 116)%N then Some 9%N       (* t *)
  else None.

(** The rest of a string after its opening quote: its value and what
    follows the closing quote. *)
Fixpoint readString (acc s : jsstring) : option (jsstring * jsstring) :=
  match s with
  | [] => None
  | c :: s' =>
      if (c =? 34)%N then Some (rev acc, s')
      else if (c =? 92)%N then
        match s' with
        | [] => None
        | e :: s'' =>
            if (e =? 117)%N then
              match s'' with
              | h1 :: h2 :: h3 :: h4 :: s3 =>
                  match hex4 h1 h2 h3 h4 with
                  | Some u => readString (u :: acc) s3
                  | None => None
                  end
              | _ => None
              end
            else
              match unescape e with
              | Some u => readString (u :: acc) s''
              | None => None
              end
        end
      else if (c <? 32)%N then None
      else readString (c :: acc) s'
  end.

Definition readNumber (s : jsstring) : option (json * jsstring) :=
  let '(neg, s1) :=
    match s with
    | c :: s' => if (c =? 45)%N then (true, s') else (false, s)
    | [] => (false, s)
    end in
  let digits := takeWhile isDigit s1 in
  let rest := dropWhile isDigit s1 in
  match digits with
  | [] => None
  | d :: ds =>
      if (d =? 48)%N && negb (bool_decide (ds = [])) then None
      else if 15 <? length digits then None
      else
        match rest with
        | c :: _ =>
            if ((c =? 46) || (c =? 101) || (c =? 69))%N then None
            else Some (JNum (if neg && negb (bool_decide (digits = js "0"))
                             then 45%N :: digits else digits), rest)
        | [] => Some (JNum (if neg && negb (bool_decide (digits = js "0"))
                            then 45%N :: digits else digits), rest)
        end
  end.

(** Is [k] an array index (the keys an object enumerates first, in
    ascending order)? *)
Definition digitsVal (ds : jsstring) : N :=
  foldl (fun a d => (a * 10 + (d - 48))%N) 0%N ds.

Definition isIndexKey (k : jsstring) : bool :=
  match k with
  | [] => false
  | d :: ds =>
      forallb isDigit k
      && ((d =? 48)%N && bool_decide (ds = []) || negb (d =? 48)%N)
      && (length k <=? 10) && (digitsVal k <? 4294967295)%N
  end.

(** Define the property [k] of an object under construction: an existing
    key keeps its place and takes the new value; a new index key goes
    among the index keys in ascending order; any other new key goes last. *)
Fixpoint setMember (k : jsstring) (v : json) (ms : list (jsstring * json))
  : list (jsstring * json) :=
  match ms with
  | [] => [(k, v)]
  | (k', v') :: ms' =>
      if bool_decide (k' = k) then (k, v) :: ms'
      else if isIndexKey k
                && (negb (isIndexKey k') || (digitsVal k <? digitsVal k')%N)
                && negb (existsb (fun m => bool_decide (m.1 = k)) ms')
           then (k, v) :: ms
           else (k', v') :: setMember k v ms'
  end.

Fixpoint readValue (fuel : nat) (s : jsstring) : option (json * jsstring) :=
  match fuel with
  | 0 => None
  | S f =>
      match skipWs s with
      | [] => None
      | c :: s1 =>
          if (c =? 123)%N then                       (* object *)
            match skipWs s1 with
            | d :: s2 =>
                if (d =? 125)%N then Some (JObj [], s2)
                else
                  (fix members (n : nat) (acc : list (jsstring * json))
                       (s : jsstring) {struct n} : option (json * jsstring) :=
                     match n with
                     | 0 => None
                     | S n' =>
                         match skipWs s with
                         | q :: s3 =>
                             if (q =? 34)%N then
                               match readString [] s3 with
                               | Some (k, s4) =>
                                   match skipWs s4 with
                                   | col :: s5 =>
                                       if (col =? 58)%N then
                                         match readValue f s5 with
                                         | Some (v, s6) =>
                                             match skipWs s6 with
                                             | e :: s7 =>
                                                 if (e =? 44)%N then
                                                   members n' (setMember k v acc) s7
                                                 else if (e =? 125)%N then
                                                   Some (JObj (setMember k v acc), s7)
                                                 else None
                                             | [] => None
                                             end
                                         | None => None
                                         end
                                       else None
                                   | [] => None
                                   end
                               | None => None
                               end
                             else None
                         | [] => None
                         end
                     end) (length s1) [] s1
            | [] => None
            end
          else if (c =? 91)%N then                   (* array *)
            match skipWs s1 with
            | d :: s2 =>
                if (d =? 93)%N then Some (JArr [], s2)
                else
                  (fix elems (n : nat) (acc : list json) (s : jsstring)
                       {struct n} : option (json * jsstring) :=
                     match n with
                     | 0 => None
                     | S n' =>
                         match readValue f s with
                         | Some (v, s3) =>
                             match skipWs s3 with
                             | e :: s4 =>
                                 if (e =? 44)%N then elems n' (acc ++ [v]) s4
                                 else if (e =? 93)%N then Some (JArr (acc ++ [v]), s4)
                                 else None
                             | [] => None
                             end
                         | None => None
                         end
                     end) (length s1) [] s1
            | [] => None
            end
          else if (c =? 34)%N then
            match readString [] s1 with
            | Some (x, r) => Some (JStr x, r)
            | None => None
            end
          else if startsWith (js "true") (c :: s1) then Some (JBool true, drop 3 s1)
          else if startsWith (js "false") (c :: s1) then Some (JBool false, drop 4 s1)
          else if startsWith (js "null") (c :: s1) then Some (JNull, drop 3 s1)
          else readNumber (c :: s1)
      end
  end.

(** [JSON.parse(s)]; [None] is a SyntaxError. *)
Definition parse (s : jsstring) : option json :=
  match readValue (S (length s)) s with
  | Some (v, r) => match skipWs r with [] => Some v | _ :: _ => None end
  | None => None
  end.

Definition hexDigit (n : N) : jschar :=
  if (n <? 10)%N then (48 + n)%N else (87 + n)%N.

Definition uEscape (c : jschar) : jsstring :=
  js "\u" ++ [hexDigit (c / 4096); hexDigit ((c / 256) mod 16);
              hexDigit ((c / 16) mod 16); hexDigit (c mod 16)].

Definition isHighSurrogate (c : jschar) : bool := ((55296 <=? c) && (c <=? 56319))%N.
Definition isLowSurrogate (c : jschar) : bool := ((56320 <=? c) && (c <=? 57343))%N.

(** QuoteJSONString, without the enclosing quotes. *)
Fixpoint quoteBody (s : jsstring) : jsstring :=
  match s with
  | [] => []
  | c :: s' =>
      if (c =? 34)%N then [92; 34]%N ++ quoteBody s'
      else if (c =? 92)%N then js "\\" ++ quoteBody s'
      else if (c =? 8)%N then js "\b" ++ quoteBody s'
      else if (c =? 12)%N then js "\f" ++ quoteBody s'
      else if (c =? 10)%N then js "\n" ++ quoteBody s'
      else if (c =? 13)%N then js "\r" ++ quoteBody s'
      else if (c =? 9)%N then js "\t" ++ quoteBody s'
      else if (c <? 32)%N then uEscape c ++ quoteBody s'
      else if isHighSurrogate c then
        match s' with
        | d :: s'' => if isLowSurrogate d then c :: d :: quoteBody s''
                      else uEscape c ++ quoteBody s'
        | [] => uEscape c
        end
      else if isLowSurrogate c then uEscape c ++ quoteBody s'
      else c :: quoteBody s'
  end.

Definition quote (s : jsstring) : jsstring := 34%N :: quoteBody s ++ [34%N].

(** [JSON.stringify(v)] without indentation. *)
Fixpoint stringify (v : json) : jsstring :=
  match v with
  | JNull => js "null"
  | JBool true => js "true"
  | JBool false => js "false"
  | JNum r => if isDigit (List.last r 0%N) then r else js "null"
  | JStr s => quote s
  | JArr l => js "[" ++ joinWith (js ",") (map stringify l) ++ js "]"
  | JObj ms =>
      js "{" ++ joinWith (js ",")
                  (map (fun m => quote m.1 ++ js ":" ++ stringify m.2) ms)
      ++ js "}"
  end.

End JsonText.

(** ** The adapter *)

Import JS Regex JSON.

(** A tool call [{id, type: "function", function: {name, arguments}}].
    [id] and [name] of a structured call are whatever the upstream event
    carried, so they are JSON values; [arguments] is always a string. *)
Record toolFunction := { fn_name : json; fn_arguments : jsstring }.
Record toolCall := { tc_id : json; tc_type : jsstring; tc_function : toolFunction }.

(** [findMatchingBracket], the loop from [startPos + 1]: [i] is the index of
    the head of the remaining text. *)
Fixpoint findMatchingBracket_loop (rest : jsstring) (i bracketCount : nat)
    (inString escapeNext : bool) : option nat :=
  match rest with
  | [] => None
  | char :: rest' =>
      if escapeNext then
        findMatchingBracket_loop rest' (S i) bracketCount inString false
      else if (char =? 92)%N && inString then
        findMatchingBracket_loop rest' (S i) bracketCount inString true
      else if (char =? 34)%N && negb escapeNext then
        findMatchingBracket_loop rest' (S i) bracketCount (negb inString) escapeNext
      else if negb inString then
        if (char =? 91)%N then
          findMatchingBracket_loop rest' (S i) (S bracketCount) inString escapeNext
        else if (char =? 93)%N then
          if bracketCount - 1 =? 0 then Some i
          else findMatchingBracket_loop rest' (S i) (bracketCount - 1) inString escapeNext
        else findMatchingBracket_loop rest' (S i) bracketCount inString escapeNext
      else findMatchingBracket_loop rest' (S i) bracketCount inString escapeNext
  end.

(** [findMatchingBracket(text, startPos)]; [None] is -1. *)
Definition findMatchingBracket (text : jsstring) (startPos : nat) : option nat :=
  if bool_decide (text = []) || (length text <=? startPos)
     || negb (bool_decide (text !! startPos = Some 91%N))
  then None
  else findMatchingBracket_loop (drop (S startPos) text) (S startPos) 1 false false.

(** [/\[Called\s+(\w+)\s+with\s+args:/i] *)
Definition namePattern : regex :=
  seqs [lit_i (js "[Called"); plus space; RGroup 1 (plus word); plus space;
        lit_i (js "with"); plus space; lit_i (js "args:")].

(** [/,\s*([}\]])/g], replaced by [$1]. *)
Definition trailingComma : regex :=
  seqs [chr 44; star space; RGroup 1 (RChar (fun c => (c =? 125) || (c =? 93))%N)].

(** [/([{,]\s{0,})([a-zA-Z0-9_]+?)\s*:/g] (the source writes the first
    [\s{0,}] with a star), the match replaced by group 1, group 2 between
    double quotes, and a colon. *)
Definition unquotedKey : regex :=
  seqs [RGroup 1 (RSeq (RChar (fun c => (c =? 123) || (c =? 44))%N) (star space));
        RGroup 2 (lazyPlus word); star space; chr 58].

(** [/:\s*([a-zA-Z0-9_]+)(?=[,\}\]])/g], the match replaced by a colon
    and group 1 between double quotes. *)
Definition unquotedValue : regex :=
  seqs [chr 58; star space; RGroup 1 (plus word);
        RAhead (RChar (fun c => (c =? 44) || (c =? 125) || (c =? 93))%N)].

Definition repairJson (jsonCandidate : jsstring) : jsstring :=
  let repairedJson := jsonCandidate in
  let repairedJson :=
    replaceAll trailingComma (fun _ cs => capture 1 cs) repairedJson in
  let repairedJson :=
    replaceAll unquotedKey
      (fun _ cs => capture 1 cs ++ [34%N] ++ capture 2 cs ++ [34%N; 58%N])
      repairedJson in
  replaceAll unquotedValue
    (fun _ cs => [58%N; 34%N] ++ capture 1 cs ++ [34%N]) repairedJson.

(** The pattern built with [new RegExp(..., 'gs')] from the template
    [\[Called\s+${escapedName}\s+with\s+args:\s*\{B(?:\{B\}B){0,}\}\]],
    where [B] abbreviates the class of all units but the closing brace,
    starred, and the source writes the last [{0,}] with a star.
    [escapedName] is [funcName] with every syntax character of a pattern
    escaped, so that it stands for [funcName] literally. *)
Definition toolCallPattern (funcName : jsstring) : regex :=
  seqs [lit (js "[Called"); plus space; lit funcName; plus space;
        lit (js "with"); plus space; lit (js "args:"); star space;
        chr 123; star (notChr 125);
        star (seqs [chr 123; star (notChr 125); chr 125; star (notChr 125)]);
        chr 125; chr 93].

(** The cleanup loop shared by [parseEventStreamChunk] and
    [_processApiResponse]: for each call, delete the spans its pattern
    matches.  [None]: [funcName.replace] is not a function (a name that is
    not a string). *)
Fixpoint removeToolCallText (text : jsstring) (tcs : list toolCall)
  : option jsstring :=
  match tcs with
  | [] => Some text
  | tc :: tcs' =>
      match fn_name (tc_function tc) with
      | JStr funcName =>
          removeToolCallText
            (replaceAll (toolCallPattern funcName) (fun _ _ => []) text) tcs'
      | _ => None
      end
  end.

(** [text.replace(/\s+/g, ' ').trim()] *)
Definition collapseWhitespace (text : jsstring) : jsstring :=
  trim (replaceAll (plus space) (fun _ _ => js " ") text).

(** [/:message-typeevent(\{[^]*?(?=:event-type|$))/g] *)
Definition sseEventRegex : regex :=
  seqs [lit (js ":message-typeevent");
        RGroup 1 (seqs [chr 123; lazyStar anyChar;
                        RAhead (RAlt (lit (js ":event-type")) REnd)])].

(** [/event(\{.*?(?=event\{|$))/gs] *)
Definition legacyEventRegex : regex :=
  seqs [lit (js "event");
        RGroup 1 (seqs [chr 123; lazyStar anyChar;
                        RAhead (RAlt (lit (js "event{")) REnd)])].

(** [/(?<!\\)\\n/g], replaced by a line feed. *)
Definition escapedNewline : regex :=
  seqs [RNotBehind (N.eqb 92); chr 92; chr 110].

(** The indexes [searchPos] takes in
    [while ((searchPos = block.indexOf('}', searchPos + 1)) !== -1)],
    starting from 0: the closing braces at index 1 or more, in order. *)
Fixpoint bracePositions (block : jsstring) (i : nat) : list nat :=
  match block with
  | [] => []
  | c :: block' =>
      if (c =? 125)%N && (1 <=? i) then i :: bracePositions block' (S i)
      else bracePositions block' (S i)
  end.

(** The indexes found by the loop
    [pos = responseText.indexOf("[Called", start); start = pos + 1]. *)
Fixpoint occurrences (pat s : jsstring) (i : nat) : list nat :=
  match s with
  | [] => []
  | _ :: s' =>
      if startsWith pat s then i :: occurrences pat s' (S i)
      else occurrences pat s' (S i)
  end.

(** What [parseEventStreamChunk] returns and what [_processApiResponse]
    returns. *)
Record parsedChunk := { content : jsstring; toolCalls : list toolCall }.
Record parsedResponse := { responseText : jsstring; resp_toolCalls : list toolCall }.

(** The variables of the loop over the events. *)
Record chunkState := {
  fullContent : jsstring;
  st_toolCalls : list toolCall;
  currentToolCallDict : option toolCall
}.

Section Adapter.

(** The engine's JSON functions and the UUID generator: [uuidv4 n] is the
    value of the call number [n]. *)
Variable JSON_parse : jsstring -> option json.
Variable JSON_stringify : json -> jsstring.
Variable uuidv4 : nat -> jsstring.

(** [parseSingleToolCall]; [n] counts the UUIDs drawn so far (one more is
    drawn exactly when a call is returned). *)
Definition parseSingleToolCall (n : nat) (toolCallText : jsstring)
  : option toolCall :=
  match search namePattern [] toolCallText with
  | None => None
  | Some (_, (_, _, cs)) =>
      let functionName := trim (capture 1 cs) in
      let argsStartMarker := js "with args:" in
      match indexOf (toLowerCase toolCallText) (toLowerCase argsStartMarker) 0 with
      | None => None
      | Some argsStartPos =>
          let argsStart := argsStartPos + length argsStartMarker in
          match lastIndexOf toolCallText (js "]") with
          | None => None
          | Some argsEnd =>
              if argsEnd <=? argsStart then None
              else
                let jsonCandidate :=
                  trim (substring toolCallText argsStart argsEnd) in
                match JSON_parse (repairJson jsonCandidate) with
                | None => None
                | Some argumentsObj =>
                    if negb (isObject argumentsObj) then None
                    else
                      let toolCallId :=
                        js "call_" ++
                        substring (filter (fun c => c <> 45%N) (uuidv4 n)) 0 8 in
                      Some {| tc_id := JStr toolCallId;
                              tc_type := js "function";
                              tc_function :=
                                {| fn_name := JStr functionName;
                                   fn_arguments := JSON_stringify argumentsObj |} |}
                end
          end
      end
  end.

(** The [for] loop of [parseBracketToolCalls] over [callPositions]. *)
Fixpoint parseBracketToolCalls_loop (responseText : jsstring)
    (callPositions : list nat) (n : nat) (acc : list toolCall)
  : list toolCall * nat :=
  match callPositions with
  | [] => (acc, n)
  | startPos :: later =>
      let endSearchLimit :=
        match later with
        | next :: _ => next
        | [] => length responseText
        end in
      let segment := substring responseText startPos endSearchLimit in
      let toolCallText :=
        match findMatchingBracket segment 0 with
        | Some bracketEnd => Some (substring segment 0 (bracketEnd + 1))
        | None =>
            match lastIndexOf segment (js "]") with
            | Some lastBracket => Some (substring segment 0 (lastBracket + 1))
            | None => None
            end
        end in
      match toolCallText with
      | None => parseBracketToolCalls_loop responseText later n acc
      | Some text =>
          match parseSingleToolCall n text with
          | Some parsedCall =>
              parseBracketToolCalls_loop responseText later (S n) (acc ++ [parsedCall])
          | None => parseBracketToolCalls_loop responseText later n acc
          end
      end
  end.

(** [parseBracketToolCalls]; [None] is [null]. *)
Definition parseBracketToolCalls (n : nat) (responseText : jsstring)
  : option (list toolCall) * nat :=
  if bool_decide (responseText = []) || negb (includes responseText (js "[Called"))
  then (None, n)
  else
    let callPositions := occurrences (js "[Called") responseText 0 in
    let '(found, n') := parseBracketToolCalls_loop responseText callPositions n [] in
    (if 0 <? length found then Some found else None, n').

(** The key of the [seen] set. *)
Definition dedupKey (tc : toolCall) : jsstring :=
  toString (fn_name (tc_function tc)) ++ js "-" ++ fn_arguments (tc_function tc).

Definition deduplicateToolCalls (tcs : list toolCall) : list toolCall :=
  (foldl (fun (st : gset (list N) * list toolCall) tc =>
            let '(seen, uniqueToolCalls) := st in
            let key := dedupKey tc in
            if bool_decide (key ∈ seen) then st
            else ({[ key ]} ∪ seen, uniqueToolCalls ++ [tc]))
         (∅, []) tcs).2.

(** The body of the [try] in [parseEventStreamChunk], after a successful
    [JSON.parse]; [None] when it throws (the [catch] then goes on to the next
    closing brace). *)
Definition handleEvent (eventData : json) (st : chunkState) : option chunkState :=
  match eventData with
  | JNull => None
  | _ =>
      if truthy_opt (prop eventData (js "name"))
         && truthy_opt (prop eventData (js "toolUseId")) then
        let dict :=
          match currentToolCallDict st with
          | Some d => d
          | None =>
              {| tc_id := default JNull (prop eventData (js "toolUseId"));
                 tc_type := js "function";
                 tc_function :=
                   {| fn_name := default JNull (prop eventData (js "name"));
                      fn_arguments := [] |} |}
          end in
        let dict :=
          match prop eventData (js "input") with
          | Some input =>
              if truthy input then
                {| tc_id := tc_id dict; tc_type := tc_type dict;
                   tc_function :=
                     {| fn_name := fn_name (tc_function dict);
                        fn_arguments :=
                          fn_arguments (tc_function dict) ++ toString input |} |}
              else dict
          | None => dict
          end in
        if truthy_opt (prop eventData (js "stop")) then
          let dict :=
            match JSON_parse (fn_arguments (tc_function dict)) with
            | Some args =>
                {| tc_id := tc_id dict; tc_type := tc_type dict;
                   tc_function :=
                     {| fn_name := fn_name (tc_function dict);
                        fn_arguments := JSON_stringify args |} |}
            | None => dict
            end in
          Some {| fullContent := fullContent st;
                  st_toolCalls := st_toolCalls st ++ [dict];
                  currentToolCallDict := None |}
        else
          Some {| fullContent := fullContent st;
                  st_toolCalls := st_toolCalls st;
                  currentToolCallDict := Some dict |}
      else if negb (truthy_opt (prop eventData (js "followupPrompt")))
              && truthy_opt (prop eventData (js "content")) then
        match prop eventData (js "content") with
        | Some (JStr decodedContent) =>
            let decodedContent :=
              replaceAll escapedNewline (fun _ _ => [10%N]) decodedContent in
            Some {| fullContent := fullContent st ++ decodedContent;
                    st_toolCalls := st_toolCalls st;
                    currentToolCallDict := currentToolCallDict st |}
        | _ => None
        end
      else Some st
  end.

(** The [while] loop over the closing braces of one block. *)
Fixpoint tryCandidates (potentialJsonBlock : jsstring) (positions : list nat)
    (st : chunkState) : chunkState :=
  match positions with
  | [] => st
  | searchPos :: later =>
      let jsonCandidate := trim (substring potentialJsonBlock 0 (searchPos + 1)) in
      match JSON_parse jsonCandidate with
      | Some eventData =>
          match handleEvent eventData st with
          | Some st' => st'
          | None => tryCandidates potentialJsonBlock later st
          end
      | None => tryCandidates potentialJsonBlock later st
      end
  end.

(** The [for] loop over the matches. *)
Definition handleMatch (st : chunkState) (m : caps) : chunkState :=
  let potentialJsonBlock := capture 1 m in
  if bool_decide (potentialJsonBlock = [])
     || (length (trim potentialJsonBlock) =? 0)
  then st
  else tryCandidates potentialJsonBlock (bracePositions potentialJsonBlock 0) st.

(** [parseEventStreamChunk] on the decoded buffer.  [None]: a TypeError
    escaped from the cleanup loop. *)
Definition parseEventStreamChunk (n : nat) (rawStr : jsstring)
  : option (parsedChunk * nat) :=
  let matches := matchAll sseEventRegex rawStr in
  let matches :=
    if length matches =? 0 then matchAll legacyEventRegex rawStr else matches in
  let st :=
    foldl handleMatch
      {| fullContent := []; st_toolCalls := []; currentToolCallDict := None |}
      matches in
  let toolCalls :=
    match currentToolCallDict st with
    | Some d => st_toolCalls st ++ [d]
    | None => st_toolCalls st
    end in
  let '(bracketToolCalls, n') := parseBracketToolCalls n (fullContent st) in
  match bracketToolCalls with
  | Some bracket =>
      cleaned ← removeToolCallText (fullContent st) bracket;
      Some ({| content := collapseWhitespace cleaned;
               toolCalls := deduplicateToolCalls (toolCalls ++ bracket) |}, n')
  | None =>
      Some ({| content := fullContent st;
               toolCalls := deduplicateToolCalls toolCalls |}, n')
  end.

(** [_processApiResponse] on the decoded [response.data]. *)
Definition _processApiResponse (n : nat) (rawResponseText : jsstring)
  : option (parsedResponse * nat) :=
  '(parsedFromEvents, n1) ← parseEventStreamChunk n rawResponseText;
  let fullResponseText := content parsedFromEvents in
  let allToolCalls := toolCalls parsedFromEvents in
  let '(rawBracketToolCalls, n2) := parseBracketToolCalls n1 rawResponseText in
  let allToolCalls :=
    match rawBracketToolCalls with
    | Some raw => allToolCalls ++ raw
    | None => allToolCalls
    end in
  let uniqueToolCalls := deduplicateToolCalls allToolCalls in
  if 0 <? length uniqueToolCalls then
    cleaned ← removeToolCallText fullResponseText uniqueToolCalls;
    Some ({| responseText := collapseWhitespace cleaned;
             resp_toolCalls := uniqueToolCalls |}, n2)
  else
    Some ({| responseText := fullResponseText;
             resp_toolCalls := uniqueToolCalls |}, n2).

(** *** Request shaping: the ingress messages *)

(** A content part of a message, by its [type]; the content of a message,
    of a [tool_result] part, or the [system] field: absent, a string, or an
    array of parts. *)
Inductive part :=
| PText (text : jsstring)
| PToolResult (tool_use_id : jsstring) (pcontent : msgContent)
| PToolUse (id : jsstring) (name : jsstring) (input : json)
| PImage (media_type : jsstring) (data : jsstring)
| POther (type : jsstring)
with msgContent :=
| CNone
| CString (s : jsstring)
| CParts (parts : list part).

Record message := { role : jsstring; msg_content : msgContent }.

Record tool := {
  tool_name : jsstring;
  tool_description : option jsstring;
  input_schema : option json
}.

(** [this.config]: a key that is not set is [None]. *)
Record config := {
  KIRO_MAX_TOOLS : option nat;
  KIRO_DISABLE_TOOLS : bool;
  KIRO_MAX_HISTORY : option nat;
  KIRO_MAX_REQUEST_SIZE : option nat;
  KIRO_MAX_MESSAGE_LENGTH : option nat;
  REQUEST_MAX_RETRIES : option nat;
  REQUEST_BASE_DELAY : option nat
}.

(** The fields of the service object read by the request shaper. *)
Record service := {
  svc_config : config;
  modelName : jsstring;
  authMethod : option jsstring;
  svc_profileArn : option jsstring
}.

(** [value || fallback] on a configured number: 0 is falsy. *)
Definition orDefault (value : option nat) (fallback : nat) : nat :=
  match value with
  | Some (S n) => S n
  | _ => fallback
  end.

(** The limits, with their defaults. *)
Definition maxToolsOf (cfg : config) : nat := orDefault (KIRO_MAX_TOOLS cfg) 12.
Definition maxHistoryOf (cfg : config) : nat := orDefault (KIRO_MAX_HISTORY cfg) 15.
Definition maxRequestSizeOf (cfg : config) : nat :=
  orDefault (KIRO_MAX_REQUEST_SIZE cfg) 100000.
Definition maxMessageLengthOf (cfg : config) : nat :=
  orDefault (KIRO_MAX_MESSAGE_LENGTH cfg) 8000.
Definition maxRetriesOf (cfg : config) : nat := orDefault (REQUEST_MAX_RETRIES cfg) 3.
Definition baseDelayOf (cfg : config) : nat := orDefault (REQUEST_BASE_DELAY cfg) 1000.

(** *** Request shaping: the upstream request *)

Record toolResult := {
  tr_content : list jsstring;     (* [{text}] *)
  tr_status : jsstring;
  tr_toolUseId : jsstring
}.

Record image := { img_format : option jsstring; img_bytes : jsstring }.

Record toolSpecification := {
  ts_name : jsstring;
  ts_description : jsstring;
  ts_inputSchema : json           (* {json: ...} *)
}.

(** The [tools] key of a context: not set, set to [null], or a list. *)
Inductive toolsSlot :=
| ToolsAbsent
| ToolsNull
| Tools (l : list toolSpecification).

Record context := {
  toolResults : option (list toolResult);
  ctx_tools : toolsSlot
}.

Record userInputMessage := {
  uim_content : jsstring;
  modelId : option jsstring;
  origin : jsstring;
  userInputMessageContext : option context;
  images : option (list image)
}.

Record toolUse := { tu_input : json; tu_name : jsstring; tu_toolUseId : jsstring }.

Record assistantResponseMessage := {
  arm_content : jsstring;
  toolUses : list toolUse
}.

Inductive historyEntry :=
| HUser (m : userInputMessage)
| HAssistant (m : assistantResponseMessage).

(** [currentMessage] is [{}] or [{userInputMessage}]. *)
Record conversationState := {
  chatTriggerType : jsstring;
  conversationId : jsstring;
  currentMessage : option userInputMessage;
  history : list historyEntry
}.

Record request := {
  req_conversationState : conversationState;
  req_profileArn : option (option jsstring)   (* key absent, or its value *)
}.

Definition KIRO_DEFAULT_MODEL_NAME : jsstring := js "claude-opus-4-5".
Definition AUTH_METHOD_SOCIAL : jsstring := js "social".
Definition CHAT_TRIGGER_TYPE_MANUAL : jsstring := js "MANUAL".
Definition ORIGIN_AI_EDITOR : jsstring := js "AI_EDITOR".

Definition FULL_MODEL_MAPPING : gmap (list N) (list N) :=
  list_to_map
    [(js "claude-opus-4-5", js "claude-opus-4.5");
     (js "claude-sonnet-4-5", js "CLAUDE_SONNET_4_5_20250929_V1_0");
     (js "claude-sonnet-4-5-20250929", js "CLAUDE_SONNET_4_5_20250929_V1_0");
     (js "claude-sonnet-4-20250514", js "CLAUDE_SONNET_4_20250514_V1_0");
     (js "claude-3-7-sonnet-20250219", js "CLAUDE_3_7_SONNET_20250219_V1_0");
     (js "amazonq-claude-sonnet-4-20250514", js "CLAUDE_SONNET_4_20250514_V1_0");
     (js "amazonq-claude-3-7-sonnet-20250219", js "CLAUDE_3_7_SONNET_20250219_V1_0")].

(** The three truncation markers, in code units. *)
Definition contentTruncated : jsstring :=
  [10; 46; 46; 46; 91; 20869; 23481; 24050; 25130; 26029; 93]%N.
Definition toolResultTruncated : jsstring :=
  [10; 46; 46; 46; 91; 24037; 20855; 32467; 26524; 24050; 25130; 26029; 93]%N.
Definition historyTruncated : jsstring :=
  [10; 46; 46; 46; 91; 24050; 25130; 26029; 93]%N.

Definition coreTools : list jsstring :=
  [js "Read"; js "Write"; js "Edit"; js "Glob"; js "Grep"; js "Bash";
   js "WebFetch"; js "WebSearch"; js "AskUserQuestion"].

(** [/<system-reminder>[\s\S]*?<\/system-reminder>/gi] *)
Definition systemReminder : regex :=
  seqs [lit_i (js "<system-reminder>"); lazyStar anyChar;
        lit_i (js "</system-reminder>")].

(** [/\[Request interrupted by user\]/gi] *)
Definition requestInterrupted : regex :=
  lit_i (js "[Request interrupted by user]").

Definition cleanSystemTags (text : jsstring) : jsstring :=
  if bool_decide (text = []) then text
  else
    trim (replaceAll requestInterrupted (fun _ _ => [])
            (replaceAll systemReminder (fun _ _ => []) text)).

(** The text parts with a non-empty text, joined. *)
Definition joinTextParts (parts : list part) : jsstring :=
  join (omap (fun p => match p with
                       | PText t => if bool_decide (t = []) then None else Some t
                       | _ => None
                       end) parts).

(** [getContentText(x)] where [x] is a content itself (the [system] field,
    the content of a [tool_result]): [null] gives the empty string, an array
    its text parts, and a string itself (through [String(x.content || x)]). *)
Definition getContentText_of (x : msgContent) : jsstring :=
  match x with
  | CNone => []
  | CParts parts => joinTextParts parts
  | CString s => s
  end.

(** [getContentText(message)] where [message] is a message object. *)
Definition getContentText (m : message) : jsstring :=
  match msg_content m with
  | CString s => s
  | CParts parts => joinTextParts parts
  | CNone => js "[object Object]"
  end.

Definition truncateText (cleaned : jsstring) (maxLen : nat) (marker : jsstring)
  : jsstring :=
  if maxLen <? length cleaned then substring cleaned 0 maxLen ++ marker
  else cleaned.

Definition truncateContent (c : msgContent) (maxLen : nat) : msgContent :=
  match c with
  | CNone => CNone
  | CString s =>
      if bool_decide (s = []) then c
      else CString (truncateText (cleanSystemTags s) maxLen contentTruncated)
  | CParts parts =>
      CParts (map (fun p =>
                     match p with
                     | PText t =>
                         if bool_decide (t = []) then p
                         else PText (truncateText (cleanSystemTags t) maxLen
                                                  contentTruncated)
                     | _ => p
                     end) parts)
  end.

(** [arr.slice(-n)] for [n > 0]. *)
Definition sliceLast {A} (n : nat) (l : list A) : list A :=
  drop (length l - n) l.

Definition makeToolResult (maxMessageLength : nat) (tool_use_id : jsstring)
    (c : msgContent) : toolResult :=
  let toolResultText := cleanSystemTags (getContentText_of c) in
  let toolResultText :=
    truncateText toolResultText maxMessageLength toolResultTruncated in
  {| tr_content := [toolResultText]; tr_status := js "success";
     tr_toolUseId := tool_use_id |}.

Definition makeImage (media_type data : jsstring) : image :=
  {| img_format := split media_type 47 !! 1; img_bytes := data |}.

(** The accumulators of the loops over the parts of a message. *)
Record partsAcc := {
  acc_content : jsstring;
  acc_toolResults : list toolResult;
  acc_toolUses : list toolUse;
  acc_images : list image
}.

(** One step of the loop over the parts of a user message in the history
    (tool uses are not collected there) and of the current message. *)
Definition historyUserPart (maxMessageLength : nat) (a : partsAcc) (p : part)
  : partsAcc :=
  match p with
  | PText t =>
      {| acc_content := acc_content a ++ cleanSystemTags t;
         acc_toolResults := acc_toolResults a;
         acc_toolUses := acc_toolUses a; acc_images := acc_images a |}
  | PToolResult i c =>
      {| acc_content := acc_content a;
         acc_toolResults := acc_toolResults a ++ [makeToolResult maxMessageLength i c];
         acc_toolUses := acc_toolUses a; acc_images := acc_images a |}
  | PImage mt d =>
      {| acc_content := acc_content a;
         acc_toolResults := acc_toolResults a;
         acc_toolUses := acc_toolUses a;
         acc_images := acc_images a ++ [makeImage mt d] |}
  | _ => a
  end.

Definition currentPart (maxMessageLength : nat) (a : partsAcc) (p : part)
  : partsAcc :=
  match p with
  | PToolUse i n inp =>
      {| acc_content := acc_content a;
         acc_toolResults := acc_toolResults a;
         acc_toolUses := acc_toolUses a ++
                         [{| tu_input := inp; tu_name := n; tu_toolUseId := i |}];
         acc_images := acc_images a |}
  | _ => historyUserPart maxMessageLength a p
  end.

(** One step of the loop over the parts of an assistant message in the
    history: the text is not sanitized. *)
Definition historyAssistantPart (a : partsAcc) (p : part) : partsAcc :=
  match p with
  | PText t =>
      {| acc_content := acc_content a ++ t;
         acc_toolResults := acc_toolResults a;
         acc_toolUses := acc_toolUses a; acc_images := acc_images a |}
  | PToolUse i n inp =>
      {| acc_content := acc_content a;
         acc_toolResults := acc_toolResults a;
         acc_toolUses := acc_toolUses a ++
                         [{| tu_input := inp; tu_name := n; tu_toolUseId := i |}];
         acc_images := acc_images a |}
  | _ => a
  end.

Definition emptyAcc : partsAcc :=
  {| acc_content := []; acc_toolResults := []; acc_toolUses := [];
     acc_images := [] |}.

(** The entry pushed for one message of the history loop, if any. *)
Definition historyEntryOf (maxMessageLength : nat) (codewhispererModel : option jsstring)
    (m : message) : option historyEntry :=
  if bool_decide (role m = js "user") then
    match msg_content m with
    | CParts parts =>
        let a := foldl (historyUserPart maxMessageLength) emptyAcc parts in
        Some (HUser {| uim_content := acc_content a;
                       modelId := codewhispererModel;
                       origin := ORIGIN_AI_EDITOR;
                       userInputMessageContext :=
                         Some {| toolResults :=
                                   if bool_decide (acc_toolResults a = []) then None
                                   else Some (acc_toolResults a);
                                 ctx_tools := ToolsAbsent |};
                       images := Some (acc_images a) |})
    | _ =>
        Some (HUser {| uim_content := cleanSystemTags (getContentText m);
                       modelId := codewhispererModel;
                       origin := ORIGIN_AI_EDITOR;
                       userInputMessageContext :=
                         Some {| toolResults := None; ctx_tools := ToolsAbsent |};
                       images := None |})
    end
  else if bool_decide (role m = js "assistant") then
    match msg_content m with
    | CParts parts =>
        let a := foldl historyAssistantPart emptyAcc parts in
        Some (HAssistant {| arm_content := acc_content a;
                            toolUses := acc_toolUses a |})
    | _ =>
        Some (HAssistant {| arm_content := getContentText m; toolUses := [] |})
    end
  else None.

(** The models of the provider ([getProviderModels('claude-kiro-oauth')],
    from a module outside this file). *)
Variable KIRO_MODELS : list (list N).

Definition MODEL_MAPPING : gmap (list N) (list N) :=
  filter (fun kv => kv.1 ∈ KIRO_MODELS) FULL_MODEL_MAPPING.

(** [MODEL_MAPPING[model] || MODEL_MAPPING[this.modelName]] *)
Definition codewhispererModelOf (svc : service) (model : jsstring) : option jsstring :=
  match MODEL_MAPPING !! model with
  | Some m => Some m
  | None => MODEL_MAPPING !! modelName svc
  end.

(** [toolsContext.tools], when [toolsContext] is not [{}]. *)
Definition toolsContextOf (cfg : config) (tools : list tool)
  : option (list toolSpecification) :=
  let maxTools := maxToolsOf cfg in
  let disableTools := KIRO_DISABLE_TOOLS cfg in
  if negb disableTools && (0 <? length tools) then
    let filteredTools :=
      take maxTools
        (filter (fun t =>
                   bool_decide (tool_name t ∈ coreTools)
                   || negb (1000 <? length (default [] (tool_description t))))
                tools) in
    if 0 <? length filteredTools then
      Some (map (fun t =>
                   {| ts_name := tool_name t;
                      ts_description :=
                        substring (default [] (tool_description t)) 0 300;
                      ts_inputSchema :=
                        match input_schema t with
                        | Some sch => if truthy sch then sch else JObj []
                        | None => JObj []
                        end |}) filteredTools)
    else None
  else None.

(** The messages kept by the history cap. *)
Definition retainedMessages (cfg : config) (messages : list message)
  : list message :=
  let maxHistory := maxHistoryOf cfg in
  if maxHistory <? length messages then sliceLast maxHistory messages
  else messages.

Definition truncateMessage (maxMessageLength : nat) (msg : message) : message :=
  {| role := role msg;
     msg_content := truncateContent (msg_content msg) maxMessageLength |}.

(** [currentContent], [currentToolResults], [currentToolUses] and
    [currentImages] after the loop over the last message. *)
Definition currentAccOf (maxMessageLength : nat) (currentMessage : message)
  : partsAcc :=
  match msg_content currentMessage with
  | CParts parts => foldl (currentPart maxMessageLength) emptyAcc parts
  | _ =>
      {| acc_content := getContentText currentMessage;
         acc_toolResults := []; acc_toolUses := []; acc_images := [] |}
  end.

(** [currentContent] after the substitution of [Continue]. *)
Definition currentContentOf (a : partsAcc) : jsstring :=
  if bool_decide (acc_content a = [])
     && (length (acc_toolResults a) =? 0)
     && (length (acc_toolUses a) =? 0)
  then js "Continue" else acc_content a.

(** The entry holding the system prompt, and the index at which the history
    loop starts. *)
Definition systemPromptEntries (codewhispererModel : option jsstring)
    (systemPrompt : jsstring) (processedMessages : list message)
  : list historyEntry * nat :=
  if bool_decide (systemPrompt = []) then ([], 0)
  else
    match processedMessages with
    | first :: _ =>
        if bool_decide (role first = js "user") then
          ([HUser {| uim_content :=
                       systemPrompt ++ [10; 10]%N ++ getContentText first;
                     modelId := codewhispererModel;
                     origin := ORIGIN_AI_EDITOR;
                     userInputMessageContext := None;
                     images := None |}], 1)
        else
          ([HUser {| uim_content := systemPrompt;
                     modelId := codewhispererModel;
                     origin := ORIGIN_AI_EDITOR;
                     userInputMessageContext := None;
                     images := None |}], 0)
    | [] => ([], 0)
    end.

(** [buildCodewhispererRequest] up to the size check (the request as it is
    serialized the first time). *)
Definition shapeRequest (svc : service) (n : nat) (messages : list message)
    (model : jsstring) (tools : list tool) (inSystemPrompt : msgContent)
  : option request :=
  let conversationId := uuidv4 n in
  let systemPrompt := getContentText_of inSystemPrompt in
  if length messages =? 0 then None      (* throw: No user messages found *)
  else
    let cfg := svc_config svc in
    let codewhispererModel := codewhispererModelOf svc model in
    let maxMessageLength := maxMessageLengthOf cfg in
    let processedMessages := retainedMessages cfg messages in
    let processedMessages :=
      map (truncateMessage maxMessageLength) processedMessages in
    let toolsContext := toolsContextOf cfg tools in
    let '(history, startIndex) :=
      systemPromptEntries codewhispererModel systemPrompt processedMessages in
    let history :=
      history ++
      omap (historyEntryOf maxMessageLength codewhispererModel)
           (drop startIndex
                 (take (length processedMessages - 1) processedMessages)) in
    match last processedMessages with
    | None => None
    | Some currentMessage =>
        let a := currentAccOf maxMessageLength currentMessage in
        let currentToolResults := acc_toolResults a in
        let currentToolUses := acc_toolUses a in
        let currentImages := acc_images a in
        let currentContent := currentContentOf a in
        let toolsSlotOf :=
          match toolsContext with Some l => Tools l | None => ToolsAbsent end in
        let '(current, history) :=
          if bool_decide (role currentMessage = js "user") then
            (Some {| uim_content := currentContent;
                     modelId := codewhispererModel;
                     origin := ORIGIN_AI_EDITOR;
                     userInputMessageContext :=
                       if (length currentToolResults =? 0)
                          && bool_decide (toolsContext = None)
                       then None
                       else Some {| toolResults :=
                                      if 0 <? length currentToolResults
                                      then Some currentToolResults else None;
                                    ctx_tools := toolsSlotOf |};
                     images :=
                       if 0 <? length currentImages then Some currentImages
                       else None |},
             history)
          else if bool_decide (role currentMessage = js "assistant") then
            (Some {| uim_content := js "Continue";
                     modelId := codewhispererModel;
                     origin := ORIGIN_AI_EDITOR;
                     userInputMessageContext :=
                       match toolsContext with
                       | Some l => Some {| toolResults := None; ctx_tools := Tools l |}
                       | None => None
                       end;
                     images := None |},
             history ++ [HAssistant {| arm_content := currentContent;
                                       toolUses := currentToolUses |}])
          else (None, history) in
        Some {| req_conversationState :=
                  {| chatTriggerType := CHAT_TRIGGER_TYPE_MANUAL;
                     conversationId := conversationId;
                     currentMessage := current;
                     history := history |};
                req_profileArn :=
                  if bool_decide (authMethod svc = Some AUTH_METHOD_SOCIAL)
                  then Some (svc_profileArn svc) else None |}
    end.

(** *** Serialization of the request, as [JSON.stringify] sees it *)

Definition member (k : string) (v : json) : list (jsstring * json) := [(js k, v)].

Definition optMember (k : string) (v : option json) : list (jsstring * json) :=
  match v with Some x => [(js k, x)] | None => [] end.

Definition toolResultToJson (tr : toolResult) : json :=
  JObj (member "content" (JArr (map (fun t => JObj (member "text" (JStr t)))
                                    (tr_content tr)))
        ++ member "status" (JStr (tr_status tr))
        ++ member "toolUseId" (JStr (tr_toolUseId tr))).

Definition imageToJson (i : image) : json :=
  JObj (optMember "format" (JStr <$> img_format i)
        ++ member "source" (JObj (member "bytes" (JStr (img_bytes i))))).

Definition toolSpecificationToJson (ts : toolSpecification) : json :=
  JObj (member "toolSpecification"
          (JObj (member "name" (JStr (ts_name ts))
                 ++ member "description" (JStr (ts_description ts))
                 ++ member "inputSchema" (JObj (member "json" (ts_inputSchema ts)))))).

Definition contextToJson (c : context) : json :=
  JObj (optMember "toolResults"
          ((fun l => JArr (map toolResultToJson l)) <$> toolResults c)
        ++ match ctx_tools c with
           | ToolsAbsent => []
           | ToolsNull => member "tools" JNull
           | Tools l => member "tools" (JArr (map toolSpecificationToJson l))
           end).

Definition userInputMessageToJson (m : userInputMessage) : json :=
  JObj (member "content" (JStr (uim_content m))
        ++ optMember "modelId" (JStr <$> modelId m)
        ++ member "origin" (JStr (origin m))
        ++ optMember "userInputMessageContext"
             (contextToJson <$> userInputMessageContext m)
        ++ optMember "images" ((fun l => JArr (map imageToJson l)) <$> images m)).

Definition toolUseToJson (u : toolUse) : json :=
  JObj (member "input" (tu_input u) ++ member "name" (JStr (tu_name u))
        ++ member "toolUseId" (JStr (tu_toolUseId u))).

Definition historyEntryToJson (e : historyEntry) : json :=
  match e with
  | HUser m => JObj (member "userInputMessage" (userInputMessageToJson m))
  | HAssistant m =>
      JObj (member "assistantResponseMessage"
              (JObj (member "content" (JStr (arm_content m))
                     ++ member "toolUses" (JArr (map toolUseToJson (toolUses m))))))
  end.

Definition requestToJson (r : request) : json :=
  let cs := req_conversationState r in
  JObj (member "conversationState"
          (JObj (member "chatTriggerType" (JStr (chatTriggerType cs))
                 ++ member "conversationId" (JStr (conversationId cs))
                 ++ member "currentMessage"
                      (JObj (optMember "userInputMessage"
                               (userInputMessageToJson <$> currentMessage cs)))
                 ++ member "history" (JArr (map historyEntryToJson (history cs)))))
        ++ match req_profileArn r with
           | Some (Some arn) => member "profileArn" (JStr arn)
           | _ => []
           end).

(** [JSON.stringify(request).length] *)
Definition requestSize (r : request) : nat :=
  length (JSON_stringify (requestToJson r)).

(** *** Size enforcement *)

Definition withHistory (r : request) (h : list historyEntry) : request :=
  {| req_conversationState :=
       {| chatTriggerType := chatTriggerType (req_conversationState r);
          conversationId := conversationId (req_conversationState r);
          currentMessage := currentMessage (req_conversationState r);
          history := h |};
     req_profileArn := req_profileArn r |}.

Definition historyOf (r : request) : list historyEntry :=
  history (req_conversationState r).

(** Strategy 1: [while (history.length > 5 && requestJson.length >
    maxRequestSize) history.shift()], the request being serialized again
    after each shift. *)
Fixpoint shiftHistory (maxRequestSize : nat) (r : request)
    (h : list historyEntry) : list historyEntry :=
  match h with
  | [] => []
  | _ :: h' =>
      if (5 <? length h) && (maxRequestSize <? requestSize (withHistory r h))
      then shiftHistory maxRequestSize r h'
      else h
  end.

Definition shorterMaxLen : nat := 2000.

(** Strategy 2, on one entry. *)
Definition shortenEntry (item : historyEntry) : historyEntry :=
  match item with
  | HUser m =>
      if negb (bool_decide (uim_content m = []))
         && (shorterMaxLen <? length (uim_content m))
      then HUser {| uim_content :=
                      substring (uim_content m) 0 shorterMaxLen ++ historyTruncated;
                    modelId := modelId m; origin := origin m;
                    userInputMessageContext := userInputMessageContext m;
                    images := images m |}
      else item
  | HAssistant m =>
      if negb (bool_decide (arm_content m = []))
         && (shorterMaxLen <? length (arm_content m))
      then HAssistant {| arm_content :=
                           substring (arm_content m) 0 shorterMaxLen
                           ++ historyTruncated;
                         toolUses := toolUses m |}
      else item
  end.

(** [currentMessage?.userInputMessage?.userInputMessageContext?.tools] is
    truthy. *)
Definition hasTools (r : request) : bool :=
  match currentMessage (req_conversationState r) with
  | Some m =>
      match userInputMessageContext m with
      | Some c => match ctx_tools c with Tools _ => true | _ => false end
      | None => false
      end
  | None => false
  end.

(** Strategy 3: [...userInputMessageContext.tools = null]. *)
Definition nullTools (r : request) : request :=
  let cs := req_conversationState r in
  {| req_conversationState :=
       {| chatTriggerType := chatTriggerType cs;
          conversationId := conversationId cs;
          currentMessage :=
            (fun m =>
               {| uim_content := uim_content m; modelId := modelId m;
                  origin := origin m;
                  userInputMessageContext :=
                    (fun c => {| toolResults := toolResults c;
                                 ctx_tools := ToolsNull |})
                    <$> userInputMessageContext m;
                  images := images m |}) <$> currentMessage cs;
          history := history cs |};
     req_profileArn := req_profileArn r |}.

(** The size check at the end of [buildCodewhispererRequest]. *)
Definition enforceRequestSize (cfg : config) (request0 : request) : request :=
  let maxRequestSize := maxRequestSizeOf cfg in
  if maxRequestSize <? requestSize request0 then
    (* strategy 1 *)
    let request1 :=
      withHistory request0 (shiftHistory maxRequestSize request0 (historyOf request0)) in
    (* strategy 2 *)
    let request2 :=
      if maxRequestSize <? requestSize request1
      then withHistory request1 (map shortenEntry (historyOf request1))
      else request1 in
    (* strategy 3 *)
    let request3 :=
      if (maxRequestSize <? requestSize request2) && hasTools request2
      then nullTools request2 else request2 in
    (* strategy 4 *)
    if (maxRequestSize <? requestSize request3) && (3 <? length (historyOf request3))
    then withHistory request3 (sliceLast 3 (historyOf request3))
    else request3
  else request0.

Definition buildCodewhispererRequest (svc : service) (n : nat)
    (messages : list message) (model : jsstring) (tools : list tool)
    (inSystemPrompt : msgContent) : option request :=
  enforceRequestSize (svc_config svc)
    <$> shapeRequest svc n messages model tools inSystemPrompt.

(** *** The response builder *)

(** An entry of the [content] array of a message. *)
Inductive contentEntry :=
| CEText (text : jsstring)
| CEToolUse (id name : json) (input : jsstring).

Record claudeMessage := {
  cm_id : jsstring;
  cm_type : jsstring;
  cm_role : jsstring;
  cm_model : jsstring;
  cm_stop_reason : jsstring;
  cm_stop_sequence : option jsstring;
  cm_input_tokens : nat;
  cm_output_tokens : nat;
  cm_content : list contentEntry
}.

(** The [content_block] of a start event and the [delta] of a delta event. *)
Inductive blockStart :=
| BSText (text : jsstring)
| BSToolUse (id name : json) (input : json).

Inductive blockDelta :=
| text_delta (text : jsstring)
| input_json_delta (partial_json : jsstring).

(** The [message] of the first event: no stop reason yet, zero tokens, an
    empty [content]. *)
Record startMessage := {
  sm_id : jsstring;
  sm_type : jsstring;
  sm_role : jsstring;
  sm_model : jsstring;
  sm_input_tokens : nat;
  sm_output_tokens : nat;
  sm_content : list contentEntry
}.

Inductive streamEvent :=
| message_start (m : startMessage)
| content_block_start (index : nat) (content_block : blockStart)
| content_block_delta (index : nat) (delta : blockDelta)
| content_block_stop (index : nat)
| message_delta (stop_reason : jsstring) (stop_sequence : option jsstring)
                (output_tokens : nat)
| message_stop.

(** [Math.ceil((text || '').length / 4)] *)
Definition estimateTokens (text : jsstring) : nat := (length text + 3) / 4.

(** [toolCalls.forEach((tc, index) => ...)] of the stream branch, from
    [index] on: the events pushed and the tokens added. *)
Fixpoint pushToolCallEvents (tcs : list toolCall) (index : nat)
    (events : list streamEvent) (totalOutputTokens : nat)
  : list streamEvent * nat :=
  match tcs with
  | [] => (events, totalOutputTokens)
  | tc :: tcs' =>
      let inputObject := fn_arguments (tc_function tc) in
      let events :=
        events ++ [content_block_start index
                     (BSToolUse (tc_id tc) (fn_name (tc_function tc)) (JObj []))] in
      let events :=
        events ++ [content_block_delta index (input_json_delta inputObject)] in
      let events := events ++ [content_block_stop index] in
      pushToolCallEvents tcs' (S index) events
        (totalOutputTokens + estimateTokens (JSON_stringify (JStr inputObject)))
  end.

(** The [for (const tc of toolCalls)] of the other branch. *)
Fixpoint pushToolUses (tcs : list toolCall) (contentArray : list contentEntry)
    (outputTokens : nat) : list contentEntry * nat :=
  match tcs with
  | [] => (contentArray, outputTokens)
  | tc :: tcs' =>
      let inputObject := fn_arguments (tc_function tc) in
      pushToolUses tcs'
        (contentArray ++ [CEToolUse (tc_id tc) (fn_name (tc_function tc)) inputObject])
        (outputTokens + estimateTokens (fn_arguments (tc_function tc)))
  end.

Inductive claudeResponse :=
| Events (events : list streamEvent)
| Message (m : claudeMessage).

(** [buildClaudeResponse(content, isStream, role, model, toolCalls)];
    [messageId] is the UUID drawn on entry, [toolCalls = None] is [null]. *)
Definition buildClaudeResponse (messageId : jsstring) (content : jsstring)
    (isStream : bool) (role model : jsstring) (toolCalls : option (list toolCall))
  : claudeResponse :=
  let nonEmpty :=
    match toolCalls with Some l => 0 <? length l | None => false end in
  let calls := default [] toolCalls in
  if isStream then
    let events :=
      [message_start
         {| sm_id := messageId; sm_type := js "message"; sm_role := role;
            sm_model := model; sm_input_tokens := 0; sm_output_tokens := 0;
            sm_content := [] |}] in
    let totalOutputTokens := 0 in
    let stopReason := js "end_turn" in
    let '(events, totalOutputTokens) :=
      if negb (bool_decide (content = [])) then
        let contentBlockIndex := if nonEmpty then length calls else 0 in
        (events ++ [content_block_start contentBlockIndex (BSText [])]
                ++ [content_block_delta contentBlockIndex (text_delta content)]
                ++ [content_block_stop contentBlockIndex],
         totalOutputTokens + estimateTokens content)
      else (events, totalOutputTokens) in
    let '(events, totalOutputTokens, stopReason) :=
      if nonEmpty then
        let '(events, totalOutputTokens) :=
          pushToolCallEvents calls 0 events totalOutputTokens in
        (events, totalOutputTokens, js "tool_use")
      else (events, totalOutputTokens, stopReason) in
    let events := events ++ [message_delta stopReason None totalOutputTokens] in
    let events := events ++ [message_stop] in
    Events events
  else
    let '(contentArray, outputTokens, stopReason) :=
      if nonEmpty then
        let '(contentArray, outputTokens) := pushToolUses calls [] 0 in
        (contentArray, outputTokens, js "tool_use")
      else if negb (bool_decide (content = [])) then
        ([CEText content], estimateTokens content, js "end_turn")
      else ([], 0, js "end_turn") in
    Message {| cm_id := messageId; cm_type := js "message"; cm_role := role;
               cm_model := model; cm_stop_reason := stopReason;
               cm_stop_sequence := None; cm_input_tokens := 0;
               cm_output_tokens := outputTokens; cm_content := contentArray |}.

(** *** Transport and retry *)

(** What the [catch] of [callApi] reads of an error:
    [error.response?.status], [error.code], [error.message]. *)
Record apiError := {
  err_status : option nat;
  err_code : option jsstring;
  err_message : option jsstring
}.

Inductive outcome (A : Type) :=
| Resolved (response : A)
| Rejected (error : apiError).
#[global] Arguments Resolved {A} _.
#[global] Arguments Rejected {A} _.

(** The effects of a call, in order. *)
Inductive effect :=
| EPost (isRetry : bool) (retryCount : nat)   (* axiosInstance.post *)
| ERefresh                                    (* initializeAuth(true) *)
| ESleep (ms : nat).                          (* setTimeout(resolve, delay) *)

Definition isNetworkError (error : apiError) : bool :=
  bool_decide (err_code error = Some (js "ECONNRESET"))
  || bool_decide (err_code error = Some (js "ETIMEDOUT"))
  || bool_decide (err_code error = Some (js "ECONNABORTED"))
  || match err_message error with
     | Some m => includes m (js "stream has been aborted")
     | None => false
     end
  || match err_message error with
     | Some m => includes m (js "socket hang up")
     | None => false
     end.

Section Transport.

Context {response : Type}.

(** The world: the outcome of the POST number [k] and of the forced
    refresh number [k] ([None]: the refresh succeeded). *)
Variable post : nat -> outcome response.
Variable refresh : nat -> option apiError.

(** The POSTs and refreshes made so far and the effects so far. *)
Record world := { posts : nat; refreshes : nat; trace : list effect }.

(** [callApi(method, model, body, isRetry, retryCount)] on an initialized
    service whose request builds; each recursive call takes one unit of
    [fuel]. *)
Fixpoint callApi_fuel (fuel : nat) (cfg : config) (isRetry : bool)
    (retryCount : nat) (w : world) : option (world * outcome response) :=
  match fuel with
  | 0 => None
  | S fuel' =>
      let maxRetries := maxRetriesOf cfg in
      let baseDelay := baseDelayOf cfg in
      let w1 := {| posts := S (posts w); refreshes := refreshes w;
                   trace := trace w ++ [EPost isRetry retryCount] |} in
      match post (posts w) with
      | Resolved r => Some (w1, Resolved r)
      | Rejected error =>
          let backoff (_ : unit) :=
            let delay := baseDelay * 2 ^ retryCount in
            callApi_fuel fuel' cfg isRetry (retryCount + 1)
              {| posts := posts w1; refreshes := refreshes w1;
                 trace := trace w1 ++ [ESleep delay] |} in
          if bool_decide (err_status error = Some 403) && negb isRetry then
            let w2 := {| posts := posts w1; refreshes := S (refreshes w1);
                         trace := trace w1 ++ [ERefresh] |} in
            match refresh (refreshes w1) with
            | Some refreshError => Some (w2, Rejected refreshError)
            | None => callApi_fuel fuel' cfg true retryCount w2
            end
          else if bool_decide (err_status error = Some 429)
                  && (retryCount <? maxRetries) then backoff ()
          else if match err_status error with
                  | Some st => (500 <=? st) && (st <? 600)
                  | None => false
                  end && (retryCount <? maxRetries) then backoff ()
          else if isNetworkError error && (retryCount <? maxRetries) then backoff ()
          else Some (w1, Rejected error)
      end
  end.

(** A call from outside: [isRetry = false], [retryCount = 0].  There are at
    most [maxRetries] backoff retries and one retry after a refresh. *)
Definition callApi (cfg : config) (w : world) : option (world * outcome response) :=
  callApi_fuel (maxRetriesOf cfg + 2) cfg false 0 w.

End Transport.

(** *** The staged remediation, as the specification words it

    Serialize; while over the budget take the next step, in the order (a),
    (b), (c), (d), serializing again after each; stop as soon as the size
    is within the budget. *)

Definition overBudget (maxRequestSize : nat) (r : request) : bool :=
  maxRequestSize <? requestSize r.


(** (a) The oldest entries are shifted off while more than 5 remain.  After
    [k] shifts the step is over when 5 or fewer entries remain or the
    request is within the budget; the number of entries shifted off is the
    least such [k]. *)
Definition shiftStops (maxRequestSize : nat) (r : request)
    (h : list historyEntry) (k : nat) : bool :=
  (length h - k <=? 5)
  || negb (overBudget maxRequestSize (withHistory r (drop k h))).










(** *** Notions used to state the properties *)

(** The invariant of the current message: [userInputMessage] exists and
    has a non-empty [content] or non-empty [toolResults]. *)
Definition hasToolResults (m : userInputMessage) : bool :=
  match userInputMessageContext m with
  | Some c =>
      match toolResults c with
      | Some l => 0 <? length l
      | None => false
      end
  | None => false
  end.

Definition currentMessageOk (r : request) : bool :=
  match currentMessage (req_conversationState r) with
  | Some m => negb (bool_decide (uim_content m = [])) || hasToolResults m
  | None => false
  end.

(** Does the message carry a [tool_use] part? *)
Definition isToolUsePart (p : part) : bool :=
  match p with PToolUse _ _ _ => true | _ => false end.

Definition carriesToolUse (m : message) : bool :=
  match msg_content m with
  | CParts parts => existsb isToolUsePart parts
  | _ => false
  end.

(** [request.conversationState.currentMessage.userInputMessage] *)
Definition cur (r : request) : option userInputMessage :=
  currentMessage (req_conversationState r).

(** The three events of a tool call and of the text, at a block index. *)
Definition toolUseEvents (index : nat) (tc : toolCall) : list streamEvent :=
  [content_block_start index
     (BSToolUse (tc_id tc) (fn_name (tc_function tc)) (JObj []));
   content_block_delta index (input_json_delta (fn_arguments (tc_function tc)));
   content_block_stop index].

Definition textEvents (index : nat) (content : jsstring) : list streamEvent :=
  if bool_decide (content = []) then []
  else [content_block_start index (BSText []);
        content_block_delta index (text_delta content);
        content_block_stop index].

Definition streamTokens (content : jsstring) (calls : list toolCall) : nat :=
  (if bool_decide (content = []) then 0 else estimateTokens content)
  + sum_list (map (fun tc => estimateTokens
                               (JSON_stringify (JStr (fn_arguments (tc_function tc)))))
                  calls).

(** A pseudo-stream with its blocks in one of two orders: the text block
    before the tool blocks, or after them as the specification lists them.
    The text block has index [length calls] in both. *)
Definition streamInOrder (textFirst : bool) (messageId content role model : jsstring)
    (calls : list toolCall) : list streamEvent :=
  [message_start
     {| sm_id := messageId; sm_type := js "message"; sm_role := role;
        sm_model := model; sm_input_tokens := 0; sm_output_tokens := 0;
        sm_content := [] |}]
  ++ (if textFirst
      then textEvents (length calls) content ++ concat (imap toolUseEvents calls)
      else concat (imap toolUseEvents calls) ++ textEvents (length calls) content)
  ++ [message_delta (if 0 <? length calls then js "tool_use" else js "end_turn")
                    None (streamTokens content calls);
      message_stop].

(** What a client reads off a stream: the text deltas concatenated, and for
    each [tool_use] block the deltas of its index concatenated. *)
Definition streamText (events : list streamEvent) : jsstring :=
  concat (omap (fun e => match e with
                         | content_block_delta _ (text_delta t) => Some t
                         | _ => None
                         end) events).

Definition partialJsonAt (events : list streamEvent) (i : nat) : jsstring :=
  concat (omap (fun e => match e with
                         | content_block_delta j (input_json_delta pj) =>
                             if j =? i then Some pj else None
                         | _ => None
                         end) events).

Definition streamToolUses (events : list streamEvent) : list contentEntry :=
  omap (fun e => match e with
                 | content_block_start i (BSToolUse id name _) =>
                     Some (CEToolUse id name (partialJsonAt events i))
                 | _ => None
                 end) events.

Definition messageText (entries : list contentEntry) : jsstring :=
  concat (omap (fun c => match c with CEText t => Some t | _ => None end) entries).

Definition messageToolUses (entries : list contentEntry) : list contentEntry :=
  List.filter (fun c => match c with CEToolUse _ _ _ => true | _ => false end)
              entries.

(** The [content] entry of a tool call. *)
Definition entryOf (tc : toolCall) : contentEntry :=
  CEToolUse (tc_id tc) (fn_name (tc_function tc)) (fn_arguments (tc_function tc)).

Definition eventsOf (r : claudeResponse) : list streamEvent :=
  match r with Events l => l | Message _ => [] end.

Definition contentOf (r : claudeResponse) : list contentEntry :=
  match r with Message m => cm_content m | Events _ => [] end.

(** A structured tool-use event [{name, toolUseId, input?, stop?}]. *)
Definition toolUseEvent (name toolUseId : json) (input : option jsstring)
    (stop : bool) : json :=
  JObj (member "name" name ++ member "toolUseId" toolUseId
        ++ optMember "input" (JStr <$> input)
        ++ (if stop then member "stop" (JBool true) else [])).

(** The events handled one after the other (none of them throwing). *)
Fixpoint handleEvents (events : list json) (st : chunkState) : option chunkState :=
  match events with
  | [] => Some st
  | e :: events' =>
      match handleEvent e st with
      | Some st' => handleEvents events' st'
      | None => None
      end
  end.

(** The arguments as emitted on [stop]: printed back when they parse, kept
    as they are otherwise. *)
Definition validatedArguments (arguments : jsstring) : jsstring :=
  match JSON_parse arguments with
  | Some args => JSON_stringify args
  | None => arguments
  end.

Definition structuredCall (name toolUseId : json) (arguments : jsstring) : toolCall :=
  {| tc_id := toolUseId; tc_type := js "function";
     tc_function := {| fn_name := name; fn_arguments := arguments |} |}.

Definition appendArguments (d : toolCall) (chunk : jsstring) : toolCall :=
  {| tc_id := tc_id d; tc_type := tc_type d;
     tc_function := {| fn_name := fn_name (tc_function d);
                       fn_arguments := fn_arguments (tc_function d) ++ chunk |} |}.

(** The builder a tool-use event works on: the open one, with whatever
    [toolUseId] it was opened, or a new one for this event. *)
Definition builderFor (st : chunkState) (name toolUseId : json) : toolCall :=
  default (structuredCall name toolUseId []) (currentToolCallDict st).

(** The builder as it is emitted. *)
Definition validated (d : toolCall) : toolCall :=
  {| tc_id := tc_id d; tc_type := tc_type d;
     tc_function := {| fn_name := fn_name (tc_function d);
                       fn_arguments :=
                         validatedArguments (fn_arguments (tc_function d)) |} |}.

Definition refreshCount (t : list effect) : nat :=
  length (List.filter (fun e => match e with ERefresh => true | _ => false end) t).

End Adapter.

(** ** Further notions

    Notions used to state properties of the functions above, and the two
    entry points built on them. *)

(** The number of occurrences of a unit. *)
Definition countUnit (c : jschar) (s : jsstring) : nat :=
  length (List.filter (N.eqb c) s).

(** The loop of [deduplicateToolCalls] as a recursive function: the calls
    kept, given the keys seen so far. *)
Fixpoint keepUnseen (seen : gset (list N)) (tcs : list toolCall) : list toolCall :=
  match tcs with
  | [] => []
  | tc :: tcs' =>
      if bool_decide (dedupKey tc ∈ seen) then keepUnseen seen tcs'
      else tc :: keepUnseen ({[ dedupKey tc ]} ∪ seen) tcs'
  end.

(** The form of a call made by [parseSingleToolCall]. *)
Definition bracketCallShape (JSON_stringify : json -> jsstring) (tc : toolCall)
  : Prop :=
  tc_type tc = js "function"
  /\ (exists hex, tc_id tc = JStr (js "call_" ++ hex) /\ length hex <= 8)
  /\ (exists name, fn_name (tc_function tc) = JStr name)
  /\ (exists v, isObject v = true
                /\ fn_arguments (tc_function tc) = JSON_stringify v).

(** A call whose name is a non-empty string of units of the class [\w]. *)
Definition wordName (tc : toolCall) : Prop :=
  exists name, fn_name (tc_function tc) = JStr name
               /\ name <> [] /\ Forall (fun c => isWord c = true) name.

(** A pattern without capture groups. *)
Fixpoint noGroup (r : regex) : bool :=
  match r with
  | RChar _ | REps | RNotBehind _ | REnd => true
  | RSeq r1 r2 | RAlt r1 r2 => noGroup r1 && noGroup r2
  | RStar _ r' | RAhead r' => noGroup r'
  | RGroup _ _ => false
  end.

(** A text event [{content}], and the decoding applied to its text. *)
Definition contentEvent (text : jsstring) : json :=
  JObj (member "content" (JStr text)).

Definition decodeNewlines (text : jsstring) : jsstring :=
  replaceAll escapedNewline (fun _ _ => [10%N]) text.

(** The texts of a content: the string, or the texts of the text parts. *)
Definition textsOf (c : msgContent) : list jsstring :=
  match c with
  | CNone => []
  | CString s => [s]
  | CParts parts =>
      omap (fun p => match p with PText t => Some t | _ => None end) parts
  end.


(** The block indexes of the start, delta and stop events of a stream, and
    the stop reason, stop sequence and tokens of its [message_delta]
    events. *)
Definition startIndexes (events : list streamEvent) : list nat :=
  omap (fun e => match e with content_block_start i _ => Some i | _ => None end)
       events.

Definition deltaIndexes (events : list streamEvent) : list nat :=
  omap (fun e => match e with content_block_delta i _ => Some i | _ => None end)
       events.

Definition stopIndexes (events : list streamEvent) : list nat :=
  omap (fun e => match e with content_block_stop i => Some i | _ => None end) events.

Definition stopsOf (events : list streamEvent)
  : list (jsstring * option jsstring * nat) :=
  omap (fun e => match e with
                 | message_delta reason sequence tokens =>
                     Some (reason, sequence, tokens)
                 | _ => None
                 end) events.

(** The errors retried with a pause by [callApi]: 429, the 5xx statuses and
    the network errors. *)
Definition retryable (error : apiError) : bool :=
  bool_decide (err_status error = Some 429)
  || match err_status error with
     | Some st => (500 <=? st) && (st <? 600)
     | None => false
     end
  || isNetworkError error.

(** The effects of a call that is answered by a retryable error each time,
    from the attempt number [retryCount] on. *)
Definition backoffSchedule (cfg : config) (isRetry : bool) (retryCount : nat)
  : list effect :=
  concat (map (fun k => [EPost isRetry k; ESleep (baseDelayOf cfg * 2 ^ k)])
              (seq retryCount (maxRetriesOf cfg - retryCount)))
  ++ [EPost isRetry (maxRetriesOf cfg)].

(** ** Generation: [generateContent] and [generateContentStream] *)

(** [requestBody]: the [messages], [tools] and [system] read by [callApi]. *)
Record requestBody := {
  body_messages : list message;
  body_tools : list tool;
  body_system : msgContent
}.

(** What [isExpiryDateNear] reads: [new Date(this.expiresAt).getTime()]
    ([None]: NaN, the date is not valid), [new Date().getTime()] and
    [this.config.CRON_NEAR_MINUTES], a whole number of minutes; the times
    are whole numbers of milliseconds. *)
Record clock := {
  expirationTime : option Z;
  currentTime : Z;
  CRON_NEAR_MINUTES : option Z
}.

(** [new Date(t)] keeps a time of at most 8.64e15 ms in absolute value. *)
Definition timeClip (t : Z) : option Z :=
  if (Z.abs t <=? 8640000000000000)%Z then Some t else None.

Definition isExpiryDateNear (c : clock) : bool :=
  let cronNearMinutesInMillis :=
    (match CRON_NEAR_MINUTES c with
     | Some 0%Z | None => 10
     | Some minutes => minutes
     end * 60 * 1000)%Z in
  let thresholdTime := timeClip (currentTime c + cronNearMinutesInMillis) in
  match expirationTime c, thresholdTime with
  | Some expiration, Some threshold => (expiration <=? threshold)%Z
  | _, _ => false        (* a comparison with NaN *)
  end.

(** [new Error('No user messages found')] and
    [new Error(`Error processing response: ${error.message}`)]. *)
Definition noUserMessages : apiError :=
  {| err_status := None; err_code := None;
     err_message := Some (js "No user messages found") |}.

Definition processingError (error : apiError) : apiError :=
  {| err_status := None; err_code := None;
     err_message :=
       Some (js "Error processing response: "
             ++ default (js "undefined") (err_message error)) |}.

Section Generation.

Variable JSON_parse : jsstring -> option json.
Variable JSON_stringify : json -> jsstring.
Variable uuidv4 : nat -> jsstring.
Variable KIRO_MODELS : list (list N).

(** The upstream: the decoded [response.data] of the POST number [k], and
    the outcome of the forced refresh number [k]. *)
Variable post : nat -> outcome jsstring.
Variable refresh : nat -> option apiError.

(** The TypeError raised when [funcName.replace] is not a function. *)
Variable typeError : apiError.


(** [MODEL_MAPPING[model] ? model : this.modelName] *)
Definition finalModelOf (svc : service) (model : jsstring) : jsstring :=
  match MODEL_MAPPING KIRO_MODELS !! model with
  | Some _ => model
  | None => modelName svc
  end.

(** [callApi(method, model, body)] from outside: the request is built
    before the [try]; when that throws nothing is posted. *)
Definition callApiOf (svc : service) (n : nat) (model : jsstring) (body : requestBody)
    (w : world) : option (world * outcome jsstring) :=
  match buildCodewhispererRequest JSON_stringify uuidv4 KIRO_MODELS svc n
          (body_messages body) model (body_tools body) (body_system body) with
  | None => Some (w, Rejected noUserMessages)
  | Some _ => callApi post refresh (svc_config svc) w
  end.

(** [streamApi]: the error of [callApi] is logged and thrown again. *)
Definition streamApi (svc : service) (n : nat) (model : jsstring) (body : requestBody)
    (w : world) : option (world * outcome jsstring) :=
  match callApiOf svc n model body w with
  | Some (w', Rejected error) => Some (w', Rejected error)
  | Some (w', Resolved response) => Some (w', Resolved response)
  | None => None
  end.

(** [if (this.isExpiryDateNear()) await this.initializeAuth(true)]: the
    world after it, and the error thrown if the refresh fails. *)
Definition refreshIfNear (c : clock) (w : world) : world * option apiError :=
  if isExpiryDateNear c then
    ({| posts := posts w; refreshes := S (refreshes w);
        trace := trace w ++ [ERefresh] |},
     refresh (refreshes w))
  else (w, None).

(** The [try] block of the two entry points once the response arrived.
    [n] UUIDs were drawn before the call, and each POST drew two, for the
    conversation and for the invocation header. *)
Definition renderResponse (isStream : bool) (n : nat) (model : jsstring)
    (w1 w2 : world) (response : jsstring) : outcome claudeResponse :=
  match _processApiResponse JSON_parse JSON_stringify uuidv4
          (n + 2 * (posts w2 - posts w1)) response with
  | Some (parsed, n') =>
      Resolved (buildClaudeResponse JSON_stringify (uuidv4 n') (responseText parsed)
                  isStream (js "assistant") model (Some (resp_toolCalls parsed)))
  | None => Rejected (processingError typeError)
  end.

(** [generateContent(model, requestBody)] on an initialized service. *)
Definition generateContent (svc : service) (c : clock) (n : nat) (model : jsstring)
    (body : requestBody) (w : world) : option (world * outcome claudeResponse) :=
  match refreshIfNear c w with
  | (w1, Some refreshError) => Some (w1, Rejected refreshError)
  | (w1, None) =>
      let finalModel := finalModelOf svc model in
      match callApiOf svc n finalModel body w1 with
      | None => None
      | Some (w2, Rejected error) => Some (w2, Rejected error)
      | Some (w2, Resolved response) =>
          Some (w2, renderResponse false n model w1 w2 response)
      end
  end.

(** [generateContentStream(model, requestBody)], run to its end: the events
    yielded, or the error thrown. *)
Definition generateContentStream (svc : service) (c : clock) (n : nat)
    (model : jsstring) (body : requestBody) (w : world)
  : option (world * outcome claudeResponse) :=
  match refreshIfNear c w with
  | (w1, Some refreshError) => Some (w1, Rejected refreshError)
  | (w1, None) =>
      let finalModel := finalModelOf svc model in
      match streamApi svc n finalModel body w1 with
      | None => None
      | Some (w2, Rejected error) => Some (w2, Rejected (processingError error))
      | Some (w2, Resolved response) =>
          Some (w2, renderResponse true n model w1 w2 response)
      end
  end.

End Generation.

(** ** Credentials: [initialize] and [initializeAuth] *)

(** [s.endsWith(suffix)] *)
Definition endsWith (s suffix : list N) : bool :=
  bool_decide (drop (length s - length suffix) s = suffix).

(** [s.replace(pattern, replacement)] for a string pattern: the first
    occurrence is replaced, and in the replacement [$$] stands for a
    dollar, [$&] for the match, [$`] for what precedes it and [$'] for
    what follows it (there is no capture, so the other forms stand for
    themselves). *)
Fixpoint getSubstitution (matched before after replacement : list N) : list N :=
  match replacement with
  | 36 :: 36 :: r => 36 :: getSubstitution matched before after r
  | 36 :: 38 :: r => matched ++ getSubstitution matched before after r
  | 36 :: 96 :: r => before ++ getSubstitution matched before after r
  | 36 :: 39 :: r => after ++ getSubstitution matched before after r
  | c :: r => c :: getSubstitution matched before after r
  | [] => []
  end%N.

Definition replaceString (s pattern replacement : list N) : list N :=
  match indexOf s pattern 0 with
  | None => s
  | Some position =>
      let before := take position s in
      let after := drop (position + length pattern) s in
      before ++ getSubstitution pattern before after replacement ++ after
  end.

(** The credentials a file or the Base64 setting holds: the eight fields
    the adapter reads ([None]: the field is not there).  A file that does
    not hold a JSON object, or one with a [__proto__] member, is outside
    this model. *)
Record credentials := {
  cred_accessToken : option json;
  cred_refreshToken : option json;
  cred_clientId : option json;
  cred_clientSecret : option json;
  cred_authMethod : option json;
  cred_expiresAt : option json;
  cred_profileArn : option json;
  cred_region : option json
}.

(** [{}] *)
Definition noCredentials : credentials :=
  {| cred_accessToken := None; cred_refreshToken := None; cred_clientId := None;
     cred_clientSecret := None; cred_authMethod := None; cred_expiresAt := None;
     cred_profileArn := None; cred_region := None |}.

(** [Object.assign(target, source)] *)
Definition assign (target source : credentials) : credentials :=
  let pick (s t : option json) := match s with Some v => Some v | None => t end in
  {| cred_accessToken := pick (cred_accessToken source) (cred_accessToken target);
     cred_refreshToken := pick (cred_refreshToken source) (cred_refreshToken target);
     cred_clientId := pick (cred_clientId source) (cred_clientId target);
     cred_clientSecret := pick (cred_clientSecret source) (cred_clientSecret target);
     cred_authMethod := pick (cred_authMethod source) (cred_authMethod target);
     cred_expiresAt := pick (cred_expiresAt source) (cred_expiresAt target);
     cred_profileArn := pick (cred_profileArn source) (cred_profileArn target);
     cred_region := pick (cred_region source) (cred_region target) |}.

(** [credentials.expiresAt = value] (a field set to [undefined] reads as a
    field that is not there). *)
Definition withExpiresAt (c : credentials) (value : option json) : credentials :=
  {| cred_accessToken := cred_accessToken c; cred_refreshToken := cred_refreshToken c;
     cred_clientId := cred_clientId c; cred_clientSecret := cred_clientSecret c;
     cred_authMethod := cred_authMethod c; cred_expiresAt := value;
     cred_profileArn := cred_profileArn c; cred_region := cred_region c |}.

(** The fields of the service read and written by [initialize] and
    [initializeAuth]. *)
Record authState := {
  isInitialized : bool;
  axiosInstance : bool;              (* created, or still [null] *)
  this_accessToken : option json;
  this_refreshToken : option json;
  this_clientId : option json;
  this_clientSecret : option json;
  this_authMethod : option json;
  this_expiresAt : option json;
  this_profileArn : option json;
  this_region : option json;
  base64Creds : option credentials;
  credsFilePath : option (list N);
  credPath : list N;
  refreshUrl : option (list N);
  refreshIDCUrl : option (list N);
  baseUrl : option (list N);
  amazonQUrl : option (list N)
}.

(** What is done outside the service, in order. *)
Inductive authEffect :=
| ARead (filePath : list N)                       (* loadCredentialsFromFile *)
| AReaddir (dirPath : list N)                     (* fs.readdir *)
| APost (url : option (list N)) (body : json)     (* axiosInstance.post *)
| ASave (filePath : list N) (newData : json).     (* saveCredentialsToFile *)

Definition REFRESH_URL : list N :=
  js "https://prod.{{region}}.auth.desktop.kiro.dev/refreshToken".
Definition REFRESH_IDC_URL : list N :=
  js "https://oidc.{{region}}.amazonaws.com/token".
Definition BASE_URL : list N :=
  js "https://codewhisperer.{{region}}.amazonaws.com/generateAssistantResponse".
Definition AMAZON_Q_URL : list N :=
  js "https://codewhisperer.{{region}}.amazonaws.com/SendMessageStreaming".
Definition KIRO_AUTH_TOKEN_FILE : list N := js "kiro-auth-token.json".

(** [a || b] *)
Definition orElse (a b : option json) : option json :=
  if truthy_opt a then a else b.

Section Credentials.

(** Node's [path] functions, the file system as the helpers see it
    ([loadCredentialsFromFile] gives [null] for a file that cannot be read
    or parsed; [readdir] throws for some directories), the token endpoint,
    and [new Date(Date.now() + expiresIn * 1000).toISOString()], which
    throws a RangeError when the time is not valid. *)
Variable path_join : list N -> list N -> list N.
Variable path_dirname : list N -> list N.
Variable path_basename : list N -> list N.
Variable loadCredentialsFromFile : list N -> option credentials.
Variable readdir : list N -> option (list (list N)).
Variable refreshPost : option (list N) -> json -> outcome json.
Variable toISOString : option json -> option (list N).

(** The messages of the TypeError for [null.post] and of the RangeError. *)
Variable nullPostMessage : list N.
Variable invalidTimeMessage : list N.

(** [this.credsFilePath || path.join(this.credPath, KIRO_AUTH_TOKEN_FILE)] *)
Definition tokenFilePathOf (st : authState) : list N :=
  match credsFilePath st with
  | Some p => if bool_decide (p = []) then path_join (credPath st) KIRO_AUTH_TOKEN_FILE
              else p
  | None => path_join (credPath st) KIRO_AUTH_TOKEN_FILE
  end.

(** The loop over the files of the directory. *)
Fixpoint loadOtherFiles (dirPath targetFileName : list N) (files : list (list N))
    (mergedCredentials : credentials) : credentials * list authEffect :=
  match files with
  | [] => (mergedCredentials, [])
  | file :: files' =>
      if endsWith file (js ".json") && negb (bool_decide (file = targetFileName)) then
        let filePath := path_join dirPath file in
        let mergedCredentials :=
          match loadCredentialsFromFile filePath with
          | Some credentials =>
              assign mergedCredentials
                     (withExpiresAt credentials (cred_expiresAt mergedCredentials))
          | None => mergedCredentials
          end in
        let '(m, t) := loadOtherFiles dirPath targetFileName files' mergedCredentials in
        (m, ARead filePath :: t)
      else loadOtherFiles dirPath targetFileName files' mergedCredentials
  end.

(** [mergedCredentials] once the files are read. *)
Definition mergeCredentials (st : authState) : credentials * list authEffect :=
  let mergedCredentials :=
    match base64Creds st with
    | Some c => assign noCredentials c
    | None => noCredentials
    end in
  let targetFilePath := tokenFilePathOf st in
  let dirPath := path_dirname targetFilePath in
  let targetFileName := path_basename targetFilePath in
  let mergedCredentials :=
    match loadCredentialsFromFile targetFilePath with
    | Some targetCredentials => assign mergedCredentials targetCredentials
    | None => mergedCredentials
    end in
  match readdir dirPath with
  | Some files =>
      let '(m, t) := loadOtherFiles dirPath targetFileName files mergedCredentials in
      (m, [ARead targetFilePath; AReaddir dirPath] ++ t)
  | None => (mergedCredentials, [ARead targetFilePath; AReaddir dirPath])
  end.

(** The first [try] of [initializeAuth]: the credentials are loaded and
    applied, the region and the URLs set. *)
Definition loadCredentials (st : authState) : authState * list authEffect :=
  let '(mergedCredentials, t) := mergeCredentials st in
  let region := orElse (this_region st) (cred_region mergedCredentials) in
  let region := if truthy_opt region then region else Some (JStr (js "us-east-1")) in
  let regionText := match region with Some v => toString v | None => [] end in
  ({| isInitialized := isInitialized st;
      axiosInstance := axiosInstance st;
      this_accessToken := orElse (this_accessToken st) (cred_accessToken mergedCredentials);
      this_refreshToken :=
        orElse (this_refreshToken st) (cred_refreshToken mergedCredentials);
      this_clientId := orElse (this_clientId st) (cred_clientId mergedCredentials);
      this_clientSecret :=
        orElse (this_clientSecret st) (cred_clientSecret mergedCredentials);
      this_authMethod := orElse (this_authMethod st) (cred_authMethod mergedCredentials);
      this_expiresAt := orElse (this_expiresAt st) (cred_expiresAt mergedCredentials);
      this_profileArn := orElse (this_profileArn st) (cred_profileArn mergedCredentials);
      this_region := region;
      base64Creds := None;
      credsFilePath := credsFilePath st;
      credPath := credPath st;
      refreshUrl := Some (replaceString REFRESH_URL (js "{{region}}") regionText);
      refreshIDCUrl := Some (replaceString REFRESH_IDC_URL (js "{{region}}") regionText);
      baseUrl := Some (replaceString BASE_URL (js "{{region}}") regionText);
      amazonQUrl := Some (replaceString AMAZON_Q_URL (js "{{region}}") regionText) |},
   t).

(** The tokens of a refresh response applied to the service. *)
Definition withTokens (st : authState) (accessToken refreshToken profileArn : option json)
    (expiresAt : option json) : authState :=
  {| isInitialized := isInitialized st; axiosInstance := axiosInstance st;
     this_accessToken := accessToken; this_refreshToken := refreshToken;
     this_clientId := this_clientId st; this_clientSecret := this_clientSecret st;
     this_authMethod := this_authMethod st; this_expiresAt := expiresAt;
     this_profileArn := profileArn; this_region := this_region st;
     base64Creds := base64Creds st; credsFilePath := credsFilePath st;
     credPath := credPath st; refreshUrl := refreshUrl st;
     refreshIDCUrl := refreshIDCUrl st; baseUrl := baseUrl st;
     amazonQUrl := amazonQUrl st |}.

Definition refreshFailed (message : list N) : list N :=
  js "Token refresh failed: " ++ message.

(** The [try] around the refresh; the error, if any, is the one thrown by
    its [catch]. *)
Definition refreshAccessToken (st : authState)
  : authState * list authEffect * option (list N) :=
  let social :=
    match this_authMethod st with
    | Some (JStr method) => bool_decide (method = AUTH_METHOD_SOCIAL)
    | _ => false
    end in
  let requestBody :=
    JObj (optMember "refreshToken" (this_refreshToken st)
          ++ (if social then []
              else optMember "clientId" (this_clientId st)
                   ++ optMember "clientSecret" (this_clientSecret st)
                   ++ member "grantType" (JStr (js "refresh_token")))) in
  let url := if social then refreshUrl st else refreshIDCUrl st in
  if negb (axiosInstance st) then (st, [], Some (refreshFailed nullPostMessage))
  else
    match refreshPost url requestBody with
    | Rejected error =>
        (st, [APost url requestBody],
         Some (refreshFailed (default (js "undefined") (err_message error))))
    | Resolved data =>
        if truthy data && truthy_opt (prop data (js "accessToken")) then
          let accessToken := prop data (js "accessToken") in
          let refreshToken := prop data (js "refreshToken") in
          let profileArn := prop data (js "profileArn") in
          let expiresIn := prop data (js "expiresIn") in
          match toISOString expiresIn with
          | None =>
              (withTokens st accessToken refreshToken profileArn (this_expiresAt st),
               [APost url requestBody], Some (refreshFailed invalidTimeMessage))
          | Some expiresAt =>
              let tokenFilePath := tokenFilePathOf st in
              let updatedTokenData :=
                JObj (optMember "accessToken" accessToken
                      ++ optMember "refreshToken" refreshToken
                      ++ member "expiresAt" (JStr expiresAt)
                      ++ (if truthy_opt profileArn then optMember "profileArn" profileArn
                          else [])) in
              (withTokens st accessToken refreshToken profileArn (Some (JStr expiresAt)),
               [APost url requestBody; ASave tokenFilePath updatedTokenData], None)
          end
        else
          (st, [APost url requestBody],
           Some (refreshFailed (js "Invalid refresh response: Missing accessToken")))
    end.

(** [initializeAuth(forceRefresh)]: the service after it, what was done,
    and the message of the error thrown, if any. *)
Definition initializeAuth (forceRefresh : bool) (st : authState)
  : authState * list authEffect * option (list N) :=
  if truthy_opt (this_accessToken st) && negb forceRefresh then (st, [], None)
  else
    let '(st1, t1) := loadCredentials st in
    let '(st2, t2, thrown) :=
      if forceRefresh
         || (negb (truthy_opt (this_accessToken st1)) && truthy_opt (this_refreshToken st1))
      then
        if negb (truthy_opt (this_refreshToken st1)) then
          (st1, [], Some (js "No refresh token available to refresh access token."))
        else refreshAccessToken st1
      else (st1, [], None) in
    match thrown with
    | Some message => (st2, t1 ++ t2, Some message)
    | None =>
        if negb (truthy_opt (this_accessToken st2)) then
          (st2, t1 ++ t2,
           Some (js "No access token available after initialization and refresh attempts."))
        else (st2, t1 ++ t2, None)
    end.

(** [initialize()]: the HTTP client is created once [initializeAuth] has
    returned. *)
Definition initialize (st : authState)
  : authState * list authEffect * option (list N) :=
  if isInitialized st then (st, [], None)
  else
    let '(st1, t, thrown) := initializeAuth false st in
    match thrown with
    | Some message => (st1, t, Some message)
    | None =>
        ({| isInitialized := true; axiosInstance := true;
            this_accessToken := this_accessToken st1;
            this_refreshToken := this_refreshToken st1;
            this_clientId := this_clientId st1;
            this_clientSecret := this_clientSecret st1;
            this_authMethod := this_authMethod st1;
            this_expiresAt := this_expiresAt st1;
            this_profileArn := this_profileArn st1;
            this_region := this_region st1;
            base64Creds := base64Creds st1; credsFilePath := credsFilePath st1;
            credPath := credPath st1; refreshUrl := refreshUrl st1;
            refreshIDCUrl := refreshIDCUrl st1; baseUrl := baseUrl st1;
            amazonQUrl := amazonQUrl st1 |}, t, None)
    end.

End Credentials.

(** The three kinds of error thrown by [initializeAuth]. *)
Definition authError (message : list N) : Prop :=
  message = js "No refresh token available to refresh access token."
  \/ message = js "No access token available after initialization and refresh attempts."
  \/ exists reason, message = refreshFailed reason.

Definition isPost (e : authEffect) : bool :=
  match e with APost _ _ => true | _ => false end.

Definition isSave (e : authEffect) : bool :=
  match e with ASave _ _ => true | _ => false end.

(** ** Sample inputs *)

Module Samples.

(** A literal in which the double quotes are written as apostrophes. *)
Definition jq (s : string) : jsstring :=
  map (fun c => if (c =? 39)%N then 34%N else c) (js s).
Arguments jq _%_string.

(** A UUID generator (any would do). *)
Definition uuid (n : nat) : jsstring := js "3f2a91c4-7b1e-4d0a-9c55-0e6f2b8d1a77".

Definition models : list (list N) :=
  [js "claude-opus-4-5"; js "claude-sonnet-4-5"].

Definition defaults : config :=
  {| KIRO_MAX_TOOLS := None; KIRO_DISABLE_TOOLS := false;
     KIRO_MAX_HISTORY := None; KIRO_MAX_REQUEST_SIZE := None;
     KIRO_MAX_MESSAGE_LENGTH := None; REQUEST_MAX_RETRIES := None;
     REQUEST_BASE_DELAY := None |}.

Definition kiro : service :=
  {| svc_config := defaults; modelName := KIRO_DEFAULT_MODEL_NAME;
     authMethod := Some AUTH_METHOD_SOCIAL; svc_profileArn := Some (js "arn:aws:p") |}.

Definition user (s : string) : message :=
  {| role := js "user"; msg_content := CString (js s) |}.
Definition assistant (s : string) : message :=
  {| role := js "assistant"; msg_content := CString (js s) |}.

(** A last user message made of one [tool_use] part. *)
Definition toolUseOnly : list message :=
  [{| role := js "user";
      msg_content := CParts [PToolUse (js "toolu_1") (js "Read") (JObj [])] |}].

(** Sixteen messages, user and assistant in turn, the last one from the
    assistant. *)
Definition sixteenTurns : list message :=
  concat (replicate 8 [user "question"; assistant "answer"]).

Definition readCall : toolCall :=
  {| tc_id := JStr (js "toolu_1"); tc_type := js "function";
     tc_function := {| fn_name := JStr (js "Read");
                       fn_arguments := jq "{'path':'/tmp'}" |} |}.

(** One event whose text is a bracket call with objects nested three
    deep. *)
Definition nestedCallBuffer : jsstring :=
  jq "event{'content':'[Called foo with args: {\'a\':{\'b\':{\'c\':\'d\'}}}]'}".

Definition nestedCallText : jsstring :=
  jq "[Called foo with args: {'a':{'b':{'c':'d'}}}]".

(** The events of two tool uses, interleaved. *)
Definition interleavedBuffer : jsstring :=
  jq "event{'name':'A','toolUseId':'t1','input':'[1'}"
  ++ jq "event{'name':'B','toolUseId':'t2','input':'[2]'}"
  ++ jq "event{'name':'A','toolUseId':'t1','input':',3]','stop':true}"
  ++ jq "event{'name':'B','toolUseId':'t2','stop':true}".

(** The events of two tool uses, one after the other. *)
Definition sequentialBuffer : jsstring :=
  jq "event{'name':'A','toolUseId':'t1','input':'[1'}"
  ++ jq "event{'name':'A','toolUseId':'t1','input':',3]','stop':true}"
  ++ jq "event{'name':'B','toolUseId':'t2','input':'[2]'}"
  ++ jq "event{'name':'B','toolUseId':'t2','stop':true}".

(** The same with a closing brace inside a string value. *)
Definition braceInStringBuffer : jsstring :=
  jq "event{'content':'[Called foo with args: {\'a\':\'}\'}]'}".

(** A text event followed, outside of any event, by a bracket call with an
    unquoted key (the apostrophe of the text is unit 39). *)
Definition bracketCallBuffer : jsstring :=
  jq "event{'content':'I" ++ [39%N]
  ++ jq "ll run '} ... [Called Bash with args: {command: 'ls'}]".

(** A tool use in three events, of which only the first has a [name]. *)
Definition unnamedChunksBuffer : jsstring :=
  jq "event{'name':'Read','toolUseId':'t1','input':'{\'path\':'}"
  ++ jq "event{'toolUseId':'t1','input':'\'/tmp\'}'}"
  ++ jq "event{'toolUseId':'t1','stop':true}".


Definition forbidden : apiError :=
  {| err_status := Some 403; err_code := Some (js "ERR_BAD_REQUEST");
     err_message := Some (js "Request failed with status code 403") |}.

(** An upstream that answers 403 to every POST, and a refresh that
    succeeds. *)
Definition alwaysForbidden (k : nat) : outcome jsstring := Rejected forbidden.
Definition refreshOk (k : nat) : option apiError := None.

Definition freshWorld : world := {| posts := 0; refreshes := 0; trace := [] |}.

(** An upstream that answers 429 to every POST. *)
Definition tooManyRequests : apiError :=
  {| err_status := Some 429; err_code := Some (js "ERR_BAD_REQUEST");
     err_message := Some (js "Request failed with status code 429") |}.

Definition alwaysTooMany (k : nat) : outcome jsstring := Rejected tooManyRequests.




Definition emptyState : chunkState :=
  {| fullContent := []; st_toolCalls := []; currentToolCallDict := None |}.

(** A credentials directory whose token file holds a refresh token only,
    and a service that is not initialized yet. *)
Definition credsDir : list N := js "/creds".

Definition joinPath (dir file : list N) : list N := dir ++ js "/" ++ file.

Definition dirnameOf (p : list N) : list N := credsDir.

Definition basenameOf (p : list N) : list N := drop (S (length credsDir)) p.

Definition refreshTokenOnly : credentials :=
  {| cred_accessToken := None; cred_refreshToken := Some (JStr (js "r-1"));
     cred_clientId := None; cred_clientSecret := None; cred_authMethod := None;
     cred_expiresAt := None; cred_profileArn := None; cred_region := None |}.

Definition tokenFileOnly (p : list N) : option credentials :=
  if bool_decide (p = joinPath credsDir KIRO_AUTH_TOKEN_FILE) then Some refreshTokenOnly
  else None.

Definition listing (dir : list N) : option (list (list N)) :=
  Some [KIRO_AUTH_TOKEN_FILE].

Definition unreachable (url : option (list N)) (body : json) : outcome json :=
  Rejected tooManyRequests.

Definition isoOf (expiresIn : option json) : option (list N) :=
  match expiresIn with
  | Some (JNum _) => Some (js "2030-01-01T00:00:00.000Z")
  | _ => None
  end.

Definition nullPost : list N :=
  js "Cannot read properties of null (reading 'post')".

Definition invalidTime : list N := js "Invalid time value".

Definition freshService : authState :=
  {| isInitialized := false; axiosInstance := false;
     this_accessToken := None; this_refreshToken := None; this_clientId := None;
     this_clientSecret := None; this_authMethod := None; this_expiresAt := None;
     this_profileArn := None; this_region := None; base64Creds := None;
     credsFilePath := None; credPath := credsDir; refreshUrl := None;
     refreshIDCUrl := None; baseUrl := None; amazonQUrl := None |}.

End Samples.

(** * Properties *)

(** ** Strings and replacement *)

Section StringFacts.
Import JS Regex.

Lemma dropWhile_idem (p : N -> bool) (s : list N) :
  dropWhile p (dropWhile p s) = dropWhile p s.
Proof.
  induction s as [|c s IH]; simpl; [done|].
  destruct (p c) eqn:Hc; [done|]. simpl. by rewrite Hc.
Qed.

Lemma dropWhile_snoc_keep (p : N -> bool) (s : list N) (c : N) :
  p c = false -> dropWhile p (s ++ [c]) = dropWhile p s ++ [c].
Proof.
  intros Hc. induction s as [|d s IH]; simpl.
  - by rewrite Hc.
  - destruct (p d); [exact IH|done].
Qed.

Lemma trimEnd_cons_keep (c : N) (s : list N) :
  isSpace c = false -> trimEnd (c :: s) = c :: trimEnd s.
Proof.
  intros Hc. unfold trimEnd. simpl.
  rewrite dropWhile_snoc_keep by exact Hc. apply rev_unit.
Qed.

Lemma trimEnd_idem (s : list N) : trimEnd (trimEnd s) = trimEnd s.
Proof.
  unfold trimEnd. by rewrite rev_involutive, dropWhile_idem.
Qed.

Lemma trimStart_trimEnd_fixed (s : list N) :
  trimStart s = s -> trimStart (trimEnd s) = trimEnd s.
Proof.
  destruct s as [|c s]; [done|]. unfold trimStart. simpl.
  destruct (isSpace c) eqn:Hc.
  - intros H. exfalso.
    assert (Hlen : length (dropWhile isSpace s) <= length s).
    { clear. induction s as [|d s IH]; simpl; [lia|].
      destruct (isSpace d); simpl; lia. }
    rewrite H in Hlen. simpl in Hlen. lia.
  - intros _. rewrite trimEnd_cons_keep by exact Hc. simpl. by rewrite Hc.
Qed.

(** [trim] is idempotent. *)
Lemma trim_idem (s : list N) : trim (trim s) = trim s.
Proof.
  unfold trim.
  rewrite (trimStart_trimEnd_fixed (trimStart s)).
  - apply trimEnd_idem.
  - apply dropWhile_idem.
Qed.

(** Where the pattern matches nowhere, a global replace changes nothing. *)
Lemma replace_loop_no_match (r : regex) (f : list N -> caps -> list N)
    (pre post : list N) :
  search r pre post = None -> replace_loop r f 0 pre post = post.
Proof.
  revert pre. induction post as [|c post IH]; intros pre; simpl.
  - by destruct (matchAt r pre []).
  - destruct (matchAt r pre (c :: post)); [done|].
    intros H. by rewrite IH.
Qed.

Lemma replaceAll_no_match (r : regex) (f : list N -> caps -> list N) (s : list N) :
  search r [] s = None -> replaceAll r f s = s.
Proof. apply replace_loop_no_match. Qed.

End StringFacts.

(** ** The sanitizer *)

Section Sanitizer.
Import JS Regex Samples.




End Sanitizer.

(** ** Deduplication *)

Section Deduplication.
Import JS JSON.

Lemma deduplicateToolCalls_pair (a b : toolCall) :
  dedupKey a = dedupKey b -> deduplicateToolCalls [a; b] = [a].
Proof.
  intros Hkey. unfold deduplicateToolCalls. simpl.
  rewrite bool_decide_eq_false_2 by set_solver.
  rewrite bool_decide_eq_true_2 by (rewrite Hkey; set_solver).
  done.
Qed.

(** C10: the key of the [seen] set is the concatenation
    [name + "-" + arguments], not the pair: the calls [("X-", "{}")] and
    [("X", "-{}")] differ in name and in arguments, have the same key, and
    the second is dropped as a duplicate of the first. *)
Theorem C10_dedup_key_collision :
  let a := {| tc_id := JStr (js "call_1"); tc_type := js "function";
              tc_function := {| fn_name := JStr (js "X-");
                                fn_arguments := js "{}" |} |} in
  let b := {| tc_id := JStr (js "call_2"); tc_type := js "function";
              tc_function := {| fn_name := JStr (js "X");
                                fn_arguments := js "-{}" |} |} in
  (fn_name (tc_function a), fn_arguments (tc_function a))
    <> (fn_name (tc_function b), fn_arguments (tc_function b))
  /\ dedupKey a = js "X--{}"
  /\ dedupKey b = js "X--{}"
  /\ deduplicateToolCalls [a; b] = [a].
Proof.
  intros a b. split; [by intros [=]|].
  split; [by vm_compute|]. split; [by vm_compute|].
  by apply deduplicateToolCalls_pair.
Qed.

End Deduplication.

(** ** The response builder *)

Section ResponseBuilder.
Import JS JSON Samples.

Variable JSON_stringify : json -> list N.

Lemma pushToolCallEvents_spec (tcs : list toolCall) (index : nat)
    (events : list streamEvent) (total : nat) :
  pushToolCallEvents JSON_stringify tcs index events total
  = (events ++ concat (imap (fun i => toolUseEvents (index + i)) tcs),
     total + sum_list (map (fun tc => estimateTokens
                              (JSON_stringify (JStr (fn_arguments (tc_function tc)))))
                           tcs)).
Proof.
  revert index events total.
  induction tcs as [|tc tcs IH]; intros index events total.
  - simpl. by rewrite app_nil_r, Nat.add_0_r.
  - cbn [pushToolCallEvents]. rewrite IH. f_equal; [|simpl; lia].
    assert (Himap : imap ((fun i => toolUseEvents (index + i)) ∘ S) tcs
                    = imap (fun i => toolUseEvents (S index + i)) tcs).
    { apply imap_ext. intros i x _. simpl. f_equal. lia. }
    rewrite imap_cons, Himap, Nat.add_0_r. unfold toolUseEvents at 2.
    simpl. by rewrite <- !app_assoc.
Qed.

Lemma pushToolUses_spec (tcs : list toolCall) (acc : list contentEntry) (tok : nat) :
  pushToolUses tcs acc tok
  = (acc ++ map entryOf tcs,
     tok + sum_list (map (fun tc => estimateTokens (fn_arguments (tc_function tc))) tcs)).
Proof.
  revert acc tok. induction tcs as [|tc tcs IH]; intros acc tok; simpl.
  - by rewrite app_nil_r, Nat.add_0_r.
  - rewrite IH. rewrite <- app_assoc. simpl. f_equal. lia.
Qed.

(** The stream as built: the text block is pushed before the tool blocks. *)
Lemma buildClaudeResponse_stream (messageId content role model : list N)
    (toolCalls : option (list toolCall)) :
  buildClaudeResponse JSON_stringify messageId content true role model toolCalls
  = Events (streamInOrder JSON_stringify true messageId content role model
                          (default [] toolCalls)).
Proof.
  unfold buildClaudeResponse, streamInOrder.
  assert (Hne : match toolCalls with Some l => 0 <? length l | None => false end
                = (0 <? length (default [] toolCalls))) by (by destruct toolCalls).
  rewrite Hne. clear Hne. generalize (default [] toolCalls). intros calls.
  cbv zeta. unfold textEvents, streamTokens.
  destruct calls as [|tc tcs].
  - simpl. case_bool_decide; simpl; by rewrite ?Nat.add_0_r.
  - change (0 <? length (tc :: tcs)) with true. cbv iota.
    case_bool_decide; cbn [negb]; cbv iota; rewrite pushToolCallEvents_spec;
      rewrite ?Nat.add_0_l, <- !app_assoc; reflexivity.
Qed.

Lemma buildClaudeResponse_message (messageId content role model : list N)
    (toolCalls : option (list toolCall)) :
  contentOf (buildClaudeResponse JSON_stringify messageId content false role
                                 model toolCalls)
  = match default [] toolCalls with
    | [] => if bool_decide (content = []) then [] else [CEText content]
    | calls => map entryOf calls
    end.
Proof.
  unfold buildClaudeResponse.
  destruct toolCalls as [[|tc tcs]|]; try (simpl; case_bool_decide; done).
  change (0 <? length (tc :: tcs)) with true. cbv iota zeta.
  rewrite pushToolUses_spec. done.
Qed.

(* stream reading lemmas *)
Lemma streamText_app (l k : list streamEvent) :
  streamText (l ++ k) = streamText l ++ streamText k.
Proof. unfold streamText. by rewrite omap_app, concat_app. Qed.

Lemma streamText_toolUseEvents (calls : list toolCall) (b : nat) :
  streamText (concat (imap (fun i => toolUseEvents (b + i)) calls)) = [].
Proof.
  revert b. induction calls as [|tc calls IH]; intros b; [done|].
  rewrite imap_cons, concat_cons, streamText_app.
  rewrite (imap_ext _ (fun i => toolUseEvents (S b + i))).
  - by rewrite IH.
  - intros i x _. simpl. f_equal. lia.
Qed.

Lemma partialJsonAt_app (l k : list streamEvent) (i : nat) :
  partialJsonAt (l ++ k) i = partialJsonAt l i ++ partialJsonAt k i.
Proof. unfold partialJsonAt. by rewrite omap_app, concat_app. Qed.

Lemma partialJsonAt_triple (tc : toolCall) (b i : nat) :
  partialJsonAt (toolUseEvents b tc) i
  = if b =? i then fn_arguments (tc_function tc) else [].
Proof.
  unfold partialJsonAt, toolUseEvents. simpl.
  destruct (b =? i); simpl; by rewrite ?app_nil_r.
Qed.

Lemma partialJsonAt_toolUseEvents (calls : list toolCall) (b i : nat) :
  partialJsonAt (concat (imap (fun j => toolUseEvents (b + j)) calls)) i
  = if b <=? i
    then match calls !! (i - b) with
         | Some tc => fn_arguments (tc_function tc)
         | None => []
         end
    else [].
Proof.
  revert b. induction calls as [|tc calls IH]; intros b.
  - simpl. by destruct (b <=? i).
  - rewrite imap_cons, concat_cons, partialJsonAt_app.
    rewrite (imap_ext _ (fun j => toolUseEvents (S b + j)))
      by (intros j x _; simpl; f_equal; lia).
    rewrite IH, Nat.add_0_r, partialJsonAt_triple.
    destruct (decide (b = i)) as [->|Hbi].
    + assert (HS : (S i <=? i) = false) by (apply Nat.leb_gt; lia).
      rewrite HS, Nat.eqb_refl, Nat.leb_refl, Nat.sub_diag. simpl.
      by rewrite !app_nil_r.
    + assert (Hne : (b =? i) = false) by (by apply Nat.eqb_neq).
      rewrite Hne. cbn [app].
      destruct (b <=? i) eqn:Hle.
      * apply Nat.leb_le in Hle.
        assert (HS : (S b <=? i) = true) by (apply Nat.leb_le; lia).
        rewrite HS. replace (i - b) with (S (i - S b)) by lia. done.
      * apply Nat.leb_gt in Hle.
        assert (HS : (S b <=? i) = false) by (apply Nat.leb_gt; lia).
        by rewrite HS.
Qed.

Lemma streamToolUses_toolUseEvents (g : nat -> list N) (calls : list toolCall) (b : nat) :
  omap (fun e => match e with
                 | content_block_start i (BSToolUse id name _) =>
                     Some (CEToolUse id name (g i))
                 | _ => None
                 end)
       (concat (imap (fun j => toolUseEvents (b + j)) calls))
  = imap (fun j tc => CEToolUse (tc_id tc) (fn_name (tc_function tc)) (g (b + j)))
         calls.
Proof.
  revert b. induction calls as [|tc calls IH]; intros b; [done|].
  rewrite !imap_cons, concat_cons, omap_app.
  rewrite (imap_ext _ (fun j => toolUseEvents (S b + j)))
    by (intros j x _; simpl; f_equal; lia).
  rewrite IH. simpl. f_equal. apply imap_ext. intros j x _. simpl.
  do 2 f_equal. lia.
Qed.

Lemma messageText_entries (calls : list toolCall) :
  messageText (map entryOf calls) = [].
Proof. unfold messageText. by induction calls. Qed.

Lemma messageToolUses_entries (calls : list toolCall) :
  messageToolUses (map entryOf calls) = map entryOf calls.
Proof.
  unfold messageToolUses. induction calls as [|tc calls IH]; [done|].
  simpl. by rewrite IH.
Qed.

Lemma streamText_textEvents (k : nat) (content : list N) :
  streamText (textEvents k content) = content.
Proof.
  unfold textEvents. case_bool_decide as H; [by rewrite H|].
  unfold streamText. simpl. by rewrite app_nil_r.
Qed.

Lemma partialJsonAt_textEvents (k i : nat) (content : list N) :
  partialJsonAt (textEvents k content) i = [].
Proof. unfold textEvents. by case_bool_decide. Qed.

Lemma streamText_streamInOrder (textFirst : bool)
    (messageId content role model : list N) (calls : list toolCall) :
  streamText (streamInOrder JSON_stringify textFirst messageId content role model calls)
  = content.
Proof.
  unfold streamInOrder.
  change (imap toolUseEvents calls) with (imap (fun j => toolUseEvents (0 + j)) calls).
  destruct textFirst;
    rewrite !streamText_app, streamText_textEvents, streamText_toolUseEvents;
    unfold streamText; simpl; by rewrite ?app_nil_r.
Qed.

Lemma partialJsonAt_streamInOrder (messageId content role model : list N)
    (calls : list toolCall) (j : nat) (tc : toolCall) :
  calls !! j = Some tc ->
  partialJsonAt
    (streamInOrder JSON_stringify true messageId content role model calls) j
  = fn_arguments (tc_function tc).
Proof.
  intros Hj. unfold streamInOrder.
  change (imap toolUseEvents calls) with (imap (fun j => toolUseEvents (0 + j)) calls).
  rewrite !partialJsonAt_app, partialJsonAt_textEvents, partialJsonAt_toolUseEvents.
  rewrite Nat.sub_0_r, Hj. unfold partialJsonAt. simpl. by rewrite app_nil_r.
Qed.

Lemma omap_starts_streamInOrder (g : nat -> list N)
    (messageId content role model : list N) (calls : list toolCall) :
  omap (fun e => match e with
                 | content_block_start i (BSToolUse id name _) =>
                     Some (CEToolUse id name (g i))
                 | _ => None
                 end)
       (streamInOrder JSON_stringify true messageId content role model calls)
  = imap (fun j tc => CEToolUse (tc_id tc) (fn_name (tc_function tc)) (g j)) calls.
Proof.
  unfold streamInOrder.
  change (imap toolUseEvents calls) with (imap (fun j => toolUseEvents (0 + j)) calls).
  rewrite !omap_app, streamToolUses_toolUseEvents.
  unfold textEvents. case_bool_decide; simpl; by rewrite app_nil_r.
Qed.

Lemma streamToolUses_streamInOrder (messageId content role model : list N)
    (calls : list toolCall) :
  streamToolUses
    (streamInOrder JSON_stringify true messageId content role model calls)
  = map entryOf calls.
Proof.
  unfold streamToolUses. rewrite omap_starts_streamInOrder.
  rewrite (imap_ext _ (fun _ => entryOf)).
  - generalize calls. clear. intros l. induction l as [|x l IH]; [done|].
    rewrite imap_cons. simpl. by rewrite <- IH.
  - intros j tc Hj. simpl. unfold entryOf. f_equal.
    by apply partialJsonAt_streamInOrder.
Qed.

(** C2 (amended): the events of the pseudo-stream are, in this order,
    [message_start] with an empty content; if the text is not empty, the
    three events of the text block, at index [k], the number of tool calls;
    for each tool call, at index 0 to [k - 1], its three events; then
    [message_delta] with stop reason [tool_use] if there is a call and
    [end_turn] otherwise, and a null stop sequence; then [message_stop]. *)
Theorem C2_stream_order (messageId content role model : list N)
    (toolCalls : option (list toolCall)) :
  buildClaudeResponse JSON_stringify messageId content true role model toolCalls
  = Events (streamInOrder JSON_stringify true messageId content role model
                          (default [] toolCalls)).
Proof. apply buildClaudeResponse_stream. Qed.

(** C3 (amended): the [tool_use] blocks read off the stream are the
    [tool_use] entries of the message, with the same ids, names and
    arguments; the text deltas of the stream add up to the response text;
    the text of the message is that text when there is no tool call, and
    empty when there is one. *)
Theorem C3_stream_and_message_agree (messageId content role model : list N)
    (toolCalls : option (list toolCall)) :
  let stream :=
    eventsOf (buildClaudeResponse JSON_stringify messageId content true role
                                  model toolCalls) in
  let entries :=
    contentOf (buildClaudeResponse JSON_stringify messageId content false role
                                   model toolCalls) in
  streamToolUses stream = messageToolUses entries
  /\ streamText stream = content
  /\ messageText entries
     = if 0 <? length (default [] toolCalls) then [] else content.
Proof.
  intros stream entries. subst stream entries.
  rewrite buildClaudeResponse_stream, buildClaudeResponse_message. simpl eventsOf.
  rewrite streamToolUses_streamInOrder, streamText_streamInOrder.
  destruct (default [] toolCalls) as [|tc calls] eqn:Hcalls.
  - simpl. case_bool_decide as H; [by rewrite H|].
    unfold messageText. simpl. by rewrite app_nil_r.
  - rewrite messageToolUses_entries, messageText_entries. done.
Qed.
End ResponseBuilder.

Section ResponseExamples.
Import JS JSON Samples.

(** C2, as stated, fails on a response with a text and one tool call: the
    text block (index 1) is emitted before the tool block (index 0). *)
Lemma C2_text_block_precedes_tool_blocks :
  eventsOf (buildClaudeResponse JsonText.stringify (uuid 0) (js "Reading.") true
              (js "assistant") (js "claude-sonnet-4-5") (Some [readCall]))
  = [message_start
       {| sm_id := uuid 0; sm_type := js "message"; sm_role := js "assistant";
          sm_model := js "claude-sonnet-4-5"; sm_input_tokens := 0;
          sm_output_tokens := 0; sm_content := [] |};
     content_block_start 1 (BSText []);
     content_block_delta 1 (text_delta (js "Reading."));
     content_block_stop 1;
     content_block_start 0 (BSToolUse (JStr (js "toolu_1")) (JStr (js "Read")) (JObj []));
     content_block_delta 0 (input_json_delta (jq "{'path':'/tmp'}"));
     content_block_stop 0;
     message_delta (js "tool_use") None 8;
     message_stop]
  /\ buildClaudeResponse JsonText.stringify (uuid 0) (js "Reading.") true
       (js "assistant") (js "claude-sonnet-4-5") (Some [readCall])
     <> Events (streamInOrder JsonText.stringify false (uuid 0) (js "Reading.")
                  (js "assistant") (js "claude-sonnet-4-5") [readCall]).
Proof. split; [by vm_compute|]. vm_compute. intros [=]. Qed.

(** C3, as stated, fails on the same response: the stream carries the
    text, the message does not. *)
Lemma C3_message_drops_text_beside_tool_calls :
  let stream :=
    eventsOf (buildClaudeResponse JsonText.stringify (uuid 0) (js "Reading.") true
                (js "assistant") (js "claude-sonnet-4-5") (Some [readCall])) in
  let entries :=
    contentOf (buildClaudeResponse JsonText.stringify (uuid 0) (js "Reading.") false
                 (js "assistant") (js "claude-sonnet-4-5") (Some [readCall])) in
  streamText stream = js "Reading."
  /\ messageText entries = []
  /\ streamText stream <> messageText entries.
Proof. vm_compute. by repeat split. Qed.

End ResponseExamples.

(** ** Size enforcement *)

Section SizeEnforcement.
Variable JSON_stringify : json -> list N.

Local Abbreviation over := (overBudget JSON_stringify).

Lemma shiftHistory_least (maxRequestSize : nat) (r : request) (h : list historyEntry) :
  exists k, k <= length h
    /\ shiftHistory JSON_stringify maxRequestSize r h = drop k h
    /\ shiftStops JSON_stringify maxRequestSize r h k = true
    /\ forall j, j < k -> shiftStops JSON_stringify maxRequestSize r h j = false.
Proof.
  induction h as [|x h IH].
  - exists 0. repeat split; [done|]. intros j Hj. lia.
  - cbn [shiftHistory]. fold (over maxRequestSize (withHistory r (x :: h))).
    destruct ((5 <? length (x :: h)) && over maxRequestSize (withHistory r (x :: h)))
      eqn:Hcond.
    + destruct IH as (k & Hk & Hdrop & Hstop & Hleast).
      exists (S k). split; [simpl; lia|]. split; [done|]. split; [exact Hstop|].
      intros [|j] Hj.
      * unfold shiftStops. simpl drop. rewrite Nat.sub_0_r.
        apply andb_true_iff in Hcond as [H5 Hover]. rewrite Hover. simpl negb.
        apply Nat.ltb_lt in H5. rewrite orb_false_r. apply Nat.leb_gt. lia.
      * apply (Hleast j). lia.
    + exists 0. split; [lia|]. split; [done|]. split; [|intros j Hj; lia].
      unfold shiftStops. simpl drop. rewrite Nat.sub_0_r.
      apply andb_false_iff in Hcond as [H5|Hover].
      * apply Nat.ltb_ge in H5. apply orb_true_iff. left. by apply Nat.leb_le.
      * rewrite Hover. apply orb_true_r.
Qed.


Lemma withHistory_same (r : request) : withHistory r (historyOf r) = r.
Proof. by destruct r as [[] ?]. Qed.








Variable uuidv4 : nat -> list N.
Variable KIRO_MODELS : list (list N).


End SizeEnforcement.

(** ** The request shaper *)

Section RequestShaper.
Variable JSON_stringify : json -> list N.
Variable uuidv4 : nat -> list N.
Variable KIRO_MODELS : list (list N).

Lemma orDefault_pos (v : option nat) (d : nat) : 0 < d -> 0 < orDefault v d.
Proof. destruct v as [[|k]|]; simpl; lia. Qed.

Lemma last_drop {A} (k : nat) (l : list A) :
  k < length l -> last (drop k l) = last l.
Proof.
  intros Hk. rewrite !last_lookup, lookup_drop, length_drop. f_equal. lia.
Qed.

Lemma last_map {A B} (f : A -> B) (l : list A) : last (map f l) = f <$> last l.
Proof. apply (fmap_last f l). Qed.

Lemma length_retainedMessages (cfg : config) (messages : list message) :
  length (retainedMessages cfg messages) <= maxHistoryOf cfg
  /\ (messages <> [] -> retainedMessages cfg messages <> []).
Proof.
  unfold retainedMessages.
  assert (Hpos : 0 < maxHistoryOf cfg) by (apply orDefault_pos; lia).
  destruct (maxHistoryOf cfg <? length messages) eqn:Hlt.
  - apply Nat.ltb_lt in Hlt. unfold sliceLast. split.
    + rewrite length_drop. lia.
    + intros _ Hnil. apply (f_equal length) in Hnil.
      rewrite length_drop in Hnil. simpl in Hnil. lia.
  - apply Nat.ltb_ge in Hlt. by split.
Qed.

Lemma last_retainedMessages (cfg : config) (messages : list message) :
  last (retainedMessages cfg messages) = last messages.
Proof.
  unfold retainedMessages.
  assert (Hpos : 0 < maxHistoryOf cfg) by (apply orDefault_pos; lia).
  destruct (maxHistoryOf cfg <? length messages) eqn:Hlt; [|done].
  apply Nat.ltb_lt in Hlt. unfold sliceLast. apply last_drop. lia.
Qed.

Lemma length_omap_le {A B} (f : A -> option B) (l : list A) :
  length (omap f l) <= length l.
Proof.
  induction l as [|x l IH]; [done|].
  change (omap f (x :: l))
    with (match f x with Some y => y :: omap f l | None => omap f l end).
  destruct (f x); simpl; lia.
Qed.

Lemma systemPromptEntries_cases (cw : option (list N)) (systemPrompt : list N)
    (processed : list message) :
  let '(entries, startIndex) := systemPromptEntries cw systemPrompt processed in
  (entries = [] /\ startIndex = 0
   /\ (systemPrompt = [] \/ processed = []))
  \/ (length entries = 1 /\ startIndex = 1 /\ systemPrompt <> []
      /\ (role <$> head processed) = Some (js "user"))
  \/ (length entries = 1 /\ startIndex = 0 /\ systemPrompt <> []
      /\ processed <> []
      /\ (role <$> head processed) <> Some (js "user")).
Proof.
  unfold systemPromptEntries. case_bool_decide as Hsys.
  - left. auto.
  - destruct processed as [|first rest].
    + left. auto.
    + case_bool_decide as Hrole.
      * right. left. simpl. by rewrite Hrole.
      * right. right. simpl. repeat split; try done. by intros [=].
Qed.


Lemma head_map {A B} (f : A -> B) (l : list A) : head (map f l) = f <$> head l.
Proof. by destruct l. Qed.

(** The processed messages: their number, their first and their last. *)
Lemma processed_facts (cfg : config) (maxLen : nat) (messages : list message)
    (cm : message) :
  last (map (truncateMessage maxLen) (retainedMessages cfg messages)) = Some cm ->
  exists lm, last messages = Some lm /\ cm = truncateMessage maxLen lm.
Proof.
  rewrite last_map, last_retainedMessages.
  destruct (last messages) as [lm|]; [|done]. intros [= <-]. by exists lm.
Qed.

Lemma single_head_last {A} (l : list A) (x y : A) :
  length l <= 1 -> head l = Some x -> last l = Some y -> x = y.
Proof.
  destruct l as [|a [|b l]]; simpl; intros Hlen; try lia; congruence.
Qed.

Lemma user_not_assistant : js "user" <> js "assistant".
Proof. by intros [=]. Qed.

(** C5 (amended): before size remediation the history has at most
    [KIRO_MAX_HISTORY + 1] entries; it has at most [KIRO_MAX_HISTORY] unless
    there is a system prompt, the first retained message is not a user
    message and the last message is an assistant message. *)
Theorem C5_history_bound (svc : service) (n : nat) (messages : list message)
    (model : list N) (tools : list tool) (inSystemPrompt : msgContent)
    (r : request) :
  shapeRequest uuidv4 KIRO_MODELS svc n messages model tools inSystemPrompt
    = Some r ->
  length (historyOf r) <= S (maxHistoryOf (svc_config svc))
  /\ (getContentText_of inSystemPrompt = []
      \/ (role <$> head (retainedMessages (svc_config svc) messages))
         = Some (js "user")
      \/ (role <$> last messages) <> Some (js "assistant") ->
      length (historyOf r) <= maxHistoryOf (svc_config svc)).
Proof.
  unfold shapeRequest. destruct (length messages =? 0) eqn:Hlen; [done|].
  apply Nat.eqb_neq in Hlen. cbv zeta.
  generalize (maxMessageLengthOf (svc_config svc)).
  intros maxLen.
  destruct (length_retainedMessages (svc_config svc) messages) as [Hle Hne].
  assert (Hmsgs : messages <> []) by (by destruct messages).
  specialize (Hne Hmsgs).
  set (retained := retainedMessages (svc_config svc) messages) in *.
  set (maxHistory := maxHistoryOf (svc_config svc)) in *.
  set (processed := map (truncateMessage maxLen) retained).
  assert (HL : length processed = length retained) by apply length_map.
  assert (Hhead : (role <$> head processed) = (role <$> head retained)).
  { unfold processed. rewrite head_map. by destruct (head retained). }
  pose proof (systemPromptEntries_cases
                (codewhispererModelOf KIRO_MODELS svc model)
                (getContentText_of inSystemPrompt) processed) as Hsys.
  destruct (systemPromptEntries (codewhispererModelOf KIRO_MODELS svc model)
              (getContentText_of inSystemPrompt) processed) as [entries start].
  destruct (last processed) as [cm|] eqn:Hlast; [|done].
  destruct (processed_facts _ _ _ _ Hlast) as (lm & Hlm & Hcm).
  assert (Hrole : role cm = role lm) by (by rewrite Hcm).
  pose proof (length_omap_le
                (historyEntryOf maxLen (codewhispererModelOf KIRO_MODELS svc model))
                (drop start (take (length processed - 1) processed))) as Homap.
  rewrite length_drop, length_take in Homap.
  assert (Hpos : 0 < length retained) by (destruct retained; [done|simpl; lia]).
  rewrite Hlm. simpl fmap.
  case_bool_decide as Huser; [|case_bool_decide as Hassistant];
    intros [= <-]; unfold historyOf; simpl; rewrite ?length_app; simpl.
  - (* the last message is from the user *)
    destruct Hsys as [(-> & -> & _)|[(He & -> & _)|(He & -> & _)]];
      simpl; rewrite ?He; split; intros; lia.
  - (* from the assistant: one more entry *)
    destruct Hsys as [(-> & -> & _)|[(He & -> & _ & Hfirst)|(He & -> & Hs & _ & Hfirst)]];
      simpl; rewrite ?He.
    + split; intros; lia.
    + assert (2 <= length processed).
      { destruct (decide (length processed <= 1)) as [Hone|]; [|lia].
        destruct (head processed) as [x|] eqn:Hx; [|done].
        pose proof (single_head_last processed x cm Hone Hx Hlast) as ->.
        simpl in Hfirst. injection Hfirst as Hfirst.
        rewrite Hassistant in Hfirst. by destruct user_not_assistant. }
      split; intros; lia.
    + split; [lia|]. intros [Hempty|[Hu|Hnot]].
      * done.
      * rewrite Hhead in Hfirst. done.
      * rewrite <- Hrole in Hnot. by rewrite Hassistant in Hnot.
  - destruct Hsys as [(-> & -> & _)|[(He & -> & _)|(He & -> & _)]];
      simpl; rewrite ?He; split; intros; lia.
Qed.


(** *** What size enforcement leaves in place *)

Lemma cur_withHistory (r : request) (h : list historyEntry) :
  cur (withHistory r h) = cur r.
Proof. done. Qed.

Lemma historyOf_withHistory (r : request) (h : list historyEntry) :
  historyOf (withHistory r h) = h.
Proof. done. Qed.

Lemma historyOf_nullTools (r : request) : historyOf (nullTools r) = historyOf r.
Proof. done. Qed.

Lemma content_nullTools (r : request) :
  (uim_content <$> cur (nullTools r)) = (uim_content <$> cur r).
Proof. unfold cur, nullTools. simpl. by destruct (currentMessage _). Qed.

Lemma toolResults_nullTools (r : request) :
  (hasToolResults <$> cur (nullTools r)) = (hasToolResults <$> cur r).
Proof.
  unfold cur, nullTools. simpl. destruct (currentMessage _) as [m|]; [|done].
  simpl. unfold hasToolResults. simpl. by destruct (userInputMessageContext m).
Qed.

Lemma last_shiftHistory (maxRequestSize : nat) (r : request) (h : list historyEntry) :
  last (shiftHistory JSON_stringify maxRequestSize r h) = last h.
Proof.
  induction h as [|x h IH]; [done|]. cbn [shiftHistory].
  destruct (5 <? length (x :: h)) eqn:H5; [|done].
  destruct (maxRequestSize <? requestSize JSON_stringify (withHistory r (x :: h)));
    [|done].
  simpl. rewrite IH. apply Nat.ltb_lt in H5. destruct h; [simpl in H5; lia|done].
Qed.

Lemma enforceRequestSize_preserves (cfg : config) (r : request) :
  (uim_content <$> cur (enforceRequestSize JSON_stringify cfg r))
    = (uim_content <$> cur r)
  /\ (hasToolResults <$> cur (enforceRequestSize JSON_stringify cfg r))
     = (hasToolResults <$> cur r)
  /\ (last (historyOf (enforceRequestSize JSON_stringify cfg r))
       = last (historyOf r)
      \/ last (historyOf (enforceRequestSize JSON_stringify cfg r))
         = (shortenEntry <$> last (historyOf r))).
Proof.
  unfold enforceRequestSize.
  generalize (maxRequestSizeOf cfg). intros maxRequestSize.
  cbv zeta.
  destruct (maxRequestSize <? requestSize JSON_stringify r); [|by auto].
  set (r1 := withHistory r (shiftHistory JSON_stringify maxRequestSize r (historyOf r))).
  assert (H1 : (uim_content <$> cur r1) = (uim_content <$> cur r)
               /\ (hasToolResults <$> cur r1) = (hasToolResults <$> cur r)
               /\ last (historyOf r1) = last (historyOf r)).
  { repeat split. apply last_shiftHistory. }
  clearbody r1. destruct H1 as (Hc1 & Ht1 & Hl1).
  set (r2 := if maxRequestSize <? requestSize JSON_stringify r1
             then withHistory r1 (map shortenEntry (historyOf r1)) else r1).
  assert (H2 : (uim_content <$> cur r2) = (uim_content <$> cur r)
               /\ (hasToolResults <$> cur r2) = (hasToolResults <$> cur r)
               /\ (last (historyOf r2) = last (historyOf r)
                   \/ last (historyOf r2) = (shortenEntry <$> last (historyOf r)))).
  { subst r2. destruct (maxRequestSize <? requestSize JSON_stringify r1).
    - rewrite cur_withHistory, historyOf_withHistory, last_map, Hl1. auto.
    - auto. }
  clearbody r2. clear r1 Hc1 Ht1 Hl1. destruct H2 as (Hc2 & Ht2 & Hl2).
  set (r3 := if (maxRequestSize <? requestSize JSON_stringify r2) && hasTools r2
             then nullTools r2 else r2).
  assert (H3 : (uim_content <$> cur r3) = (uim_content <$> cur r)
               /\ (hasToolResults <$> cur r3) = (hasToolResults <$> cur r)
               /\ (last (historyOf r3) = last (historyOf r)
                   \/ last (historyOf r3) = (shortenEntry <$> last (historyOf r)))).
  { subst r3.
    destruct ((maxRequestSize <? requestSize JSON_stringify r2) && hasTools r2).
    - by rewrite content_nullTools, toolResults_nullTools, historyOf_nullTools.
    - auto. }
  clearbody r3. clear r2 Hc2 Ht2 Hl2. destruct H3 as (Hc3 & Ht3 & Hl3).
  destruct (maxRequestSize <? requestSize JSON_stringify r3); simpl; [|by auto].
  destruct (3 <? length (historyOf r3)) eqn:Hlen; [|by auto].
  apply Nat.ltb_lt in Hlen.
  rewrite cur_withHistory, historyOf_withHistory. unfold sliceLast.
  rewrite last_drop by lia. auto.
Qed.


(** *** The current message *)

Lemma toolUses_foldl_currentPart (maxLen : nat) (parts : list part) (a : partsAcc) :
  existsb isToolUsePart parts = false ->
  acc_toolUses (foldl (currentPart maxLen) a parts) = acc_toolUses a.
Proof.
  revert a. induction parts as [|p parts IH]; intros a; [done|].
  simpl. intros H. apply orb_false_iff in H as [Hp Hparts].
  rewrite IH by exact Hparts. by destruct p.
Qed.

Lemma carriesToolUse_truncateMessage (maxLen : nat) (m : message) :
  carriesToolUse (truncateMessage maxLen m) = carriesToolUse m.
Proof.
  unfold carriesToolUse, truncateMessage. simpl.
  destruct (msg_content m) as [|s|parts]; simpl; [done| |].
  - by case_bool_decide.
  - induction parts as [|p parts IH]; [done|]. simpl. rewrite IH. f_equal.
    destruct p; try done. by case_bool_decide.
Qed.

Lemma toolUses_currentAccOf (maxLen : nat) (cm : message) :
  acc_toolUses (currentAccOf maxLen cm) <> [] -> carriesToolUse cm = true.
Proof.
  unfold currentAccOf, carriesToolUse.
  destruct (msg_content cm) as [|s|parts]; simpl; [done|done|].
  intros Hne.
  destruct (existsb isToolUsePart parts) eqn:Hex; [done|].
  by rewrite (toolUses_foldl_currentPart maxLen parts emptyAcc Hex) in Hne.
Qed.

Lemma currentContentOf_empty (a : partsAcc) :
  currentContentOf a = [] ->
  0 < length (acc_toolResults a) \/ acc_toolUses a <> [].
Proof.
  unfold currentContentOf. case_bool_decide as Hc; simpl.
  - destruct (length (acc_toolResults a)) eqn:Hr; simpl; [|intros; left; lia].
    destruct (acc_toolUses a) eqn:Hu; simpl; [done|]. intros _. by right.
  - done.
Qed.

Lemma shapeRequest_current (svc : service) (n : nat) (messages : list message)
    (model : list N) (tools : list tool) (inSystemPrompt : msgContent)
    (r0 : request) (lm : message) :
  shapeRequest uuidv4 KIRO_MODELS svc n messages model tools inSystemPrompt
    = Some r0 ->
  last messages = Some lm ->
  let maxLen := maxMessageLengthOf (svc_config svc) in
  let a := currentAccOf maxLen (truncateMessage maxLen lm) in
  (role lm = js "user" ->
     (uim_content <$> cur r0) = Some (currentContentOf a)
     /\ (hasToolResults <$> cur r0) = Some (0 <? length (acc_toolResults a)))
  /\ (role lm = js "assistant" ->
       (uim_content <$> cur r0) = Some (js "Continue")
       /\ last (historyOf r0)
          = Some (HAssistant {| arm_content := currentContentOf a;
                                toolUses := acc_toolUses a |})).
Proof.
  unfold shapeRequest. destruct (length messages =? 0) eqn:Hlen; [done|].
  cbv zeta.
  generalize (maxMessageLengthOf (svc_config svc)).
  intros maxLen.
  set (processed := map (truncateMessage maxLen)
                        (retainedMessages (svc_config svc) messages)).
  destruct (systemPromptEntries (codewhispererModelOf KIRO_MODELS svc model)
              (getContentText_of inSystemPrompt) processed) as [entries start].
  destruct (last processed) as [cm|] eqn:Hlast; [|done].
  destruct (processed_facts _ _ _ _ Hlast) as (lm' & Hlm' & Hcm).
  intros Hr Hlm. rewrite Hlm in Hlm'. injection Hlm' as <-. subst cm.
  change (role (truncateMessage maxLen lm)) with (role lm) in Hr.
  case_bool_decide as Huser; [|case_bool_decide as Hassistant];
    injection Hr as <-; unfold cur, historyOf; simpl.
  - split; [intros _|intros Ha; rewrite Ha in Huser; by destruct user_not_assistant].
    split; [done|]. unfold hasToolResults. simpl. f_equal.
    destruct (length (acc_toolResults (currentAccOf maxLen (truncateMessage maxLen lm))))
      eqn:Hres; simpl.
    + by case_bool_decide.
    + by rewrite Hres.
  - split; [done|]. intros _. split; [done|]. apply last_snoc.
  - split; intros; done.
Qed.

(** C1 (amended): for every request built from a messages list whose last
    message has the user or the assistant role,
    [currentMessage.userInputMessage] exists.  After a user message it has a
    non-empty content or non-empty tool results, unless that message carries
    a [tool_use] part.  After an assistant message it is the synthetic
    [Continue] message, and the assistant message is the last entry of the
    history (its content cut to 2000 characters when the size remediation
    got that far). *)
Theorem C1_current_message (svc : service) (n : nat) (messages : list message)
    (model : list N) (tools : list tool) (inSystemPrompt : msgContent)
    (r : request) (lm : message) :
  buildCodewhispererRequest JSON_stringify uuidv4 KIRO_MODELS svc n messages
                            model tools inSystemPrompt = Some r ->
  last messages = Some lm ->
  role lm = js "user" \/ role lm = js "assistant" ->
  is_Some (currentMessage (req_conversationState r))
  /\ (currentMessageOk r = true
      \/ (role lm = js "user" /\ carriesToolUse lm = true))
  /\ (role lm = js "assistant" ->
       (uim_content <$> currentMessage (req_conversationState r))
         = Some (js "Continue")
       /\ let maxLen := maxMessageLengthOf (svc_config svc) in
          let a := currentAccOf maxLen (truncateMessage maxLen lm) in
          let pushed := HAssistant {| arm_content := currentContentOf a;
                                      toolUses := acc_toolUses a |} in
          last (historyOf r) = Some pushed
          \/ last (historyOf r) = Some (shortenEntry pushed)).
Proof.
  unfold buildCodewhispererRequest.
  destruct (shapeRequest uuidv4 KIRO_MODELS svc n messages model tools
                         inSystemPrompt) as [r0|] eqn:Hshape; [|done].
  simpl. intros [= <-] Hlm Hrole.
  destruct (enforceRequestSize_preserves (svc_config svc) r0) as (Hc & Ht & Hl).
  destruct (shapeRequest_current _ _ _ _ _ _ _ _ Hshape Hlm) as [Huser Hassistant].
  revert Huser Hassistant Hc Ht Hl.
  generalize (maxMessageLengthOf (svc_config svc)).
  intros maxLen. cbv zeta.
  set (a := currentAccOf maxLen (truncateMessage maxLen lm)).
  fold (cur (enforceRequestSize JSON_stringify (svc_config svc) r0)).
  intros Huser Hassistant Hc Ht Hl. unfold currentMessageOk.
  fold (cur (enforceRequestSize JSON_stringify (svc_config svc) r0)).
  destruct Hrole as [Hu|Ha].
  - destruct (Huser Hu) as [Hcontent Hresults].
    rewrite <- Hc in Hcontent. rewrite <- Ht in Hresults.
    destruct (cur (enforceRequestSize JSON_stringify (svc_config svc) r0))
      as [m|]; [|done].
    simpl in Hcontent, Hresults. injection Hcontent as Hcontent.
    injection Hresults as Hresults.
    split; [by eexists|]. split.
    + rewrite Hcontent, Hresults. case_bool_decide as Hempty; simpl; [|by left].
      destruct (currentContentOf_empty a Hempty) as [Hres|Huses].
      * left. by apply Nat.ltb_lt.
      * right. split; [done|].
        rewrite <- (carriesToolUse_truncateMessage maxLen lm).
        by apply (toolUses_currentAccOf maxLen).
    + intros Ha. rewrite Ha in Hu. by destruct user_not_assistant.
  - destruct (Hassistant Ha) as [Hcontent Hlast].
    rewrite <- Hc in Hcontent.
    destruct (cur (enforceRequestSize JSON_stringify (svc_config svc) r0))
      as [m|]; [|done].
    simpl in Hcontent. injection Hcontent as Hcontent.
    split; [by eexists|]. split.
    + left. by rewrite Hcontent.
    + intros _. split; [simpl; by rewrite Hcontent|].
      rewrite Hlast in Hl. exact Hl.
Qed.

End RequestShaper.

Section ShaperExamples.
Import JS JSON Samples.

(** C1, as stated, fails on a last user message made of one [tool_use]
    part: the current message exists, with an empty content and no tool
    results. *)
Lemma C1_tool_use_only_message :
  (fun r => (uim_content <$> cur r, hasToolResults <$> cur r, currentMessageOk r))
    <$> buildCodewhispererRequest JsonText.stringify uuid models kiro 0
          toolUseOnly (js "claude-sonnet-4-5") [] CNone
  = Some (Some [], Some false, false).
Proof. vm_compute. reflexivity. Qed.

(** C1 (amended), on a conversation ending with an assistant message. *)
Lemma C1_current_message_witness :
  exists r,
    buildCodewhispererRequest JsonText.stringify uuid models kiro 0
      [user "hi"; assistant "partial"] (js "claude-sonnet-4-5") [] CNone = Some r
    /\ is_Some (currentMessage (req_conversationState r))
    /\ (currentMessageOk r = true
        \/ (role (assistant "partial") = js "user"
            /\ carriesToolUse (assistant "partial") = true)).
Proof.
  eexists. split; [vm_compute; reflexivity|].
  pose proof (C1_current_message JsonText.stringify uuid models kiro 0
                [user "hi"; assistant "partial"] (js "claude-sonnet-4-5") []
                CNone _ (assistant "partial")
                ltac:(vm_compute; reflexivity) ltac:(reflexivity)
                ltac:(right; reflexivity)) as (H1 & H2 & _).
  split; [exact H1|exact H2].
Defined.

(** C5, as stated, fails on sixteen alternating messages ending with the
    assistant, with a system prompt and the default cap of 15: the history
    holds the system prompt, fourteen messages and the last assistant
    message, 16 entries. *)
Lemma C5_history_exceeds_cap :
  (fun r => length (historyOf r))
    <$> shapeRequest uuid models kiro 0 sixteenTurns (js "claude-sonnet-4-5") []
          (CString (js "Be brief."))
  = Some 16
  /\ maxHistoryOf (svc_config kiro) = 15
  /\ ~ 16 <= maxHistoryOf (svc_config kiro).
Proof.
  split; [vm_compute; reflexivity|]. split; [reflexivity|].
  change (maxHistoryOf (svc_config kiro)) with 15. lia.
Qed.

(** C5 (amended), on two messages and a system prompt. *)
Lemma C5_history_bound_witness :
  exists r,
    shapeRequest uuid models kiro 0 [user "hi"; assistant "partial"]
      (js "claude-sonnet-4-5") [] (CString (js "Be brief.")) = Some r
    /\ length (historyOf r) <= S (maxHistoryOf (svc_config kiro)).
Proof.
  eexists. split; [vm_compute; reflexivity|].
  exact (proj1 (C5_history_bound uuid models kiro 0
                  [user "hi"; assistant "partial"] (js "claude-sonnet-4-5") []
                  (CString (js "Be brief.")) _ ltac:(vm_compute; reflexivity))).
Defined.
End ShaperExamples.

(** ** The event-stream parser *)

Section EventStream.
Import JS JSON.
Variable JSON_parse : list N -> option json.
Variable JSON_stringify : json -> list N.

Lemma prop_name (name toolUseId : json) (input : option (list N)) (stop : bool) :
  prop (toolUseEvent name toolUseId input stop) (js "name") = Some name.
Proof. reflexivity. Qed.

Lemma prop_toolUseId (name toolUseId : json) (input : option (list N)) (stop : bool) :
  prop (toolUseEvent name toolUseId input stop) (js "toolUseId") = Some toolUseId.
Proof. reflexivity. Qed.

Lemma prop_input (name toolUseId : json) (input : option (list N)) (stop : bool) :
  prop (toolUseEvent name toolUseId input stop) (js "input") = JStr <$> input.
Proof. by destruct input, stop. Qed.

Lemma prop_stop (name toolUseId : json) (input : option (list N)) (stop : bool) :
  truthy_opt (prop (toolUseEvent name toolUseId input stop) (js "stop")) = stop.
Proof. by destruct input, stop. Qed.

Lemma appendArguments_nil (d : toolCall) : appendArguments d [] = d.
Proof. destruct d as [i t [nm args]]. unfold appendArguments. simpl. by rewrite app_nil_r. Qed.

Lemma handleEvent_toolUse (name toolUseId : json) (input : option (list N))
    (stop : bool) (st : chunkState) :
  truthy name = true -> truthy toolUseId = true ->
  handleEvent JSON_parse JSON_stringify (toolUseEvent name toolUseId input stop) st
  = let d := appendArguments (builderFor st name toolUseId) (default [] input) in
    Some (if stop
          then {| fullContent := fullContent st;
                  st_toolCalls := st_toolCalls st ++ [validated JSON_parse JSON_stringify d];
                  currentToolCallDict := None |}
          else {| fullContent := fullContent st;
                  st_toolCalls := st_toolCalls st;
                  currentToolCallDict := Some d |}).
Proof.
  intros Hname Hid. unfold handleEvent.
  change (toolUseEvent name toolUseId input stop) with
    (JObj (member "name" name ++ member "toolUseId" toolUseId
           ++ optMember "input" (JStr <$> input)
           ++ (if stop then member "stop" (JBool true) else []))) at 1.
  cbv iota beta.
  rewrite prop_name, prop_toolUseId, prop_input, prop_stop.
  simpl truthy_opt. rewrite Hname, Hid. simpl andb. cbv iota zeta.
  unfold builderFor, validated, validatedArguments, structuredCall, appendArguments.
  destruct input as [chunk|]; simpl.
  - case_bool_decide as Hchunk; simpl.
    + subst chunk.
      destruct stop, (currentToolCallDict st) as [[i ty [nm args]]|]; simpl;
        rewrite ?app_nil_r; try destruct (JSON_parse _); reflexivity.
    + destruct stop, (currentToolCallDict st) as [[i ty [nm args]]|]; simpl;
        try destruct (JSON_parse _); reflexivity.
  - destruct stop, (currentToolCallDict st) as [[i ty [nm args]]|]; simpl;
      rewrite ?app_nil_r; try destruct (JSON_parse _); reflexivity.
Qed.

Lemma handleEvents_snoc (evs : list json) (e : json) (st : chunkState) :
  handleEvents JSON_parse JSON_stringify (evs ++ [e]) st
  = match handleEvents JSON_parse JSON_stringify evs st with
    | Some st' => handleEvent JSON_parse JSON_stringify e st'
    | None => None
    end.
Proof.
  revert st. induction evs as [|e' evs IH]; intros st.
  - cbn [app handleEvents]. by destruct (handleEvent _ _ e st).
  - cbn [app handleEvents].
    destruct (handleEvent JSON_parse JSON_stringify e' st); [apply IH|done].
Qed.

(** The chunks of one tool use, none of them stopping: they all go to the
    builder. *)
Lemma handleEvents_chunks (name toolUseId : json) (chunks : list (list N))
    (st : chunkState) :
  truthy name = true -> truthy toolUseId = true ->
  chunks <> [] ->
  handleEvents JSON_parse JSON_stringify
    (map (fun c => toolUseEvent name toolUseId (Some c) false) chunks) st
  = Some {| fullContent := fullContent st;
            st_toolCalls := st_toolCalls st;
            currentToolCallDict :=
              Some (appendArguments (builderFor st name toolUseId)
                                    (concat chunks)) |}.
Proof.
  intros Hname Hid. revert st.
  induction chunks as [|c chunks IH]; intros st Hne; [done|].
  cbn [map handleEvents]. rewrite handleEvent_toolUse by done. cbv zeta iota.
  destruct chunks as [|c' chunks].
  - simpl. by rewrite app_nil_r.
  - rewrite IH by done. simpl. unfold appendArguments, builderFor. simpl.
    by rewrite <- !app_assoc.
Qed.

(** C7 (amended): [parseEventStreamChunk] keeps one builder at a time, not
    one per [toolUseId].  A structured tool-use event works on the open
    builder, with whatever [toolUseId] it was opened, or opens one with its
    own [toolUseId] and [name] when none is open; its [input] is appended
    to the arguments of that builder; on [stop] the arguments are printed
    back when they parse as JSON and kept as they are otherwise, the call is
    emitted and the builder closed.  So the events of one tool use that
    arrive in a row, the last one stopping, give one call with the chunks of
    that tool use. *)
Theorem C7_single_builder (name toolUseId : json) :
  truthy name = true -> truthy toolUseId = true ->
  (forall (input : option (list N)) (stop : bool) (st : chunkState),
     handleEvent JSON_parse JSON_stringify
                 (toolUseEvent name toolUseId input stop) st
     = let d := appendArguments (builderFor st name toolUseId)
                                (default [] input) in
       Some (if stop
             then {| fullContent := fullContent st;
                     st_toolCalls := st_toolCalls st ++ [validated JSON_parse JSON_stringify d];
                     currentToolCallDict := None |}
             else {| fullContent := fullContent st;
                     st_toolCalls := st_toolCalls st;
                     currentToolCallDict := Some d |}))
  /\ (forall (chunks : list (list N)) (st : chunkState),
        currentToolCallDict st = None ->
        handleEvents JSON_parse JSON_stringify
          (map (fun c => toolUseEvent name toolUseId (Some c) false) chunks
           ++ [toolUseEvent name toolUseId None true]) st
        = Some {| fullContent := fullContent st;
                  st_toolCalls :=
                    st_toolCalls st
                    ++ [structuredCall name toolUseId
                          (validatedArguments JSON_parse JSON_stringify
                                              (concat chunks))];
                  currentToolCallDict := None |}).
Proof.
  intros Hname Hid. split.
  - intros input stop st. by apply handleEvent_toolUse.
  - intros chunks st Hnone. rewrite handleEvents_snoc.
    destruct chunks as [|c chunks].
    + cbn [map handleEvents]. rewrite handleEvent_toolUse by done.
      unfold builderFor. rewrite Hnone. reflexivity.
    + rewrite handleEvents_chunks by done.
      rewrite handleEvent_toolUse by done.
      unfold builderFor. rewrite Hnone. cbn.
      unfold validated, structuredCall. cbn. by rewrite app_nil_r.
Qed.

End EventStream.

(** ** Transport and retry *)

Section Retry.
Import JS.
Context {response : Type}.
Variable post : nat -> outcome response.
Variable refresh : nat -> option apiError.
Variable cfg : config.

(** A retried call never refreshes. *)
Lemma callApi_retry_no_refresh (fuel retryCount : nat) (w w' : world)
    (out : outcome response) :
  callApi_fuel post refresh fuel cfg true retryCount w = Some (w', out) ->
  refreshes w' = refreshes w
  /\ refreshCount (trace w') = refreshCount (trace w).
Proof.
  revert retryCount w. induction fuel as [|fuel IH]; intros retryCount w; [done|].
  cbn [callApi_fuel]. cbv zeta.
  destruct (post (posts w)) as [r|error].
  - intros [= <- <-]. simpl. unfold refreshCount.
    rewrite List.filter_app, length_app. simpl. split; [done|lia].
  - rewrite andb_false_r.
    assert (Hback :
      callApi_fuel post refresh fuel cfg true (retryCount + 1)
        {| posts := S (posts w); refreshes := refreshes w;
           trace := (trace w ++ [EPost true retryCount])
                    ++ [ESleep (baseDelayOf cfg * 2 ^ retryCount)] |}
      = Some (w', out) ->
      refreshes w' = refreshes w
      /\ refreshCount (trace w') = refreshCount (trace w)).
    { intros H. apply IH in H as [H1 H2]. simpl in H1, H2. split; [done|].
      rewrite H2. unfold refreshCount.
      rewrite !List.filter_app, !length_app. simpl. lia. }
    repeat (match goal with |- context [if ?b then _ else _] => destruct b end;
            [by apply Hback|]).
    intros [= <- <-]. simpl. unfold refreshCount.
    rewrite List.filter_app, length_app. simpl. split; [done|lia].
Qed.

(** Enough fuel: a call always returns. *)
Lemma callApi_fuel_total (fuel : nat) (isRetry : bool) (retryCount : nat) (w : world) :
  (maxRetriesOf cfg - retryCount) + (if isRetry then 1 else 2) <= fuel ->
  is_Some (callApi_fuel post refresh fuel cfg isRetry retryCount w).
Proof.
  revert isRetry retryCount w.
  induction fuel as [|fuel IH]; intros isRetry retryCount w Hfuel.
  - destruct isRetry; lia.
  - cbn [callApi_fuel]. cbv zeta.
    destruct (post (posts w)) as [r|error]; [by eexists|].
    assert (Hback : forall w1, (retryCount <? maxRetriesOf cfg) = true ->
      is_Some (callApi_fuel post refresh fuel cfg isRetry (retryCount + 1) w1)).
    { intros w1 Hlt. apply Nat.ltb_lt in Hlt. apply IH. destruct isRetry; lia. }
    cbn [posts refreshes trace].
    destruct (bool_decide (err_status error = Some 403) && negb isRetry) eqn:H403.
    + apply andb_true_iff in H403 as [_ Hretry]. destruct isRetry; [done|].
      destruct (refresh (refreshes w)); [by eexists|].
      apply IH. lia.
    + destruct (retryCount <? maxRetriesOf cfg) eqn:Hlt.
      * rewrite !andb_true_r.
        repeat (match goal with |- context [if ?b then _ else _] => destruct b end;
                try (by apply Hback)). by eexists.
      * rewrite !andb_false_r. by eexists.
Qed.

Lemma callApi_total (w : world) : is_Some (callApi post refresh cfg w).
Proof. apply callApi_fuel_total. lia. Qed.


Lemma refreshCount_app (t t' : list effect) :
  refreshCount (t ++ t') = refreshCount t + refreshCount t'.
Proof. unfold refreshCount. by rewrite List.filter_app, length_app. Qed.

(** The first attempt of a call, when it is answered 403. *)
Lemma callApi_forbidden_first (w : world) (e0 : apiError) :
  post (posts w) = Rejected e0 -> err_status e0 = Some 403 ->
  callApi post refresh cfg w
  = match refresh (refreshes w) with
    | Some refreshError =>
        Some ({| posts := S (posts w); refreshes := S (refreshes w);
                 trace := (trace w ++ [EPost false 0]) ++ [ERefresh] |},
              Rejected refreshError)
    | None =>
        callApi_fuel post refresh (S (maxRetriesOf cfg)) cfg true 0
          {| posts := S (posts w); refreshes := S (refreshes w);
             trace := (trace w ++ [EPost false 0]) ++ [ERefresh] |}
    end.
Proof.
  intros Hpost Hstatus. unfold callApi.
  replace (maxRetriesOf cfg + 2) with (S (S (maxRetriesOf cfg))) by lia.
  cbn [callApi_fuel]. cbv zeta. rewrite Hpost, Hstatus.
  rewrite bool_decide_eq_true_2 by done. reflexivity.
Qed.

(** The retried attempt, when it is answered 403 again. *)
Lemma callApi_forbidden_retry (fuel retryCount : nat) (w : world) (e1 : apiError) :
  post (posts w) = Rejected e1 -> err_status e1 = Some 403 ->
  isNetworkError e1 = false ->
  callApi_fuel post refresh (S fuel) cfg true retryCount w
  = Some ({| posts := S (posts w); refreshes := refreshes w;
             trace := trace w ++ [EPost true retryCount] |}, Rejected e1).
Proof.
  intros Hpost Hstatus Hnet. cbn [callApi_fuel]. cbv zeta.
  rewrite Hpost, Hstatus, Hnet.
  rewrite andb_false_r, (bool_decide_eq_false_2 (Some 403 = Some 429)) by done.
  reflexivity.
Qed.

(** C8: when the first attempt of a call is answered 403, the refresh is
    forced and, whatever follows, it is forced once only; if the refresh
    fails its error is thrown; if it succeeds the request is posted again
    with [isRetry] set, a success of that attempt is returned, and a second
    403 is thrown to the caller after these two POSTs and that one
    refresh. *)
Theorem C8_forbidden_refresh_once (w : world) (e0 : apiError) :
  post (posts w) = Rejected e0 -> err_status e0 = Some 403 ->
  let refreshed :=
    {| posts := S (posts w); refreshes := S (refreshes w);
       trace := trace w ++ [EPost false 0; ERefresh] |} in
  let retried :=
    {| posts := S (S (posts w)); refreshes := S (refreshes w);
       trace := trace w ++ [EPost false 0; ERefresh; EPost true 0] |} in
  (exists res, callApi post refresh cfg w = Some res
               /\ refreshes res.1 = S (refreshes w)
               /\ refreshCount (trace res.1) = S (refreshCount (trace w)))
  /\ (forall refreshError, refresh (refreshes w) = Some refreshError ->
        callApi post refresh cfg w = Some (refreshed, Rejected refreshError))
  /\ (refresh (refreshes w) = None ->
        (forall r, post (S (posts w)) = Resolved r ->
           callApi post refresh cfg w = Some (retried, Resolved r))
        /\ (forall e1, post (S (posts w)) = Rejected e1 ->
              err_status e1 = Some 403 -> isNetworkError e1 = false ->
              callApi post refresh cfg w = Some (retried, Rejected e1))).
Proof.
  intros Hpost Hstatus refreshed retried.
  pose proof (callApi_forbidden_first w e0 Hpost Hstatus) as Hfirst.
  split; [|split].
  - destruct (callApi_total w) as [res Hres]. exists res. split; [done|].
    rewrite Hres in Hfirst.
    destruct (refresh (refreshes w)) as [refreshError|].
    + injection Hfirst as ->. simpl. rewrite !refreshCount_app. simpl.
      split; [done|]. unfold refreshCount at 2 3. simpl. lia.
    + symmetry in Hfirst. destruct res as [w' out].
      apply callApi_retry_no_refresh in Hfirst as [H1 H2]. simpl in *.
      split; [done|]. rewrite H2, !refreshCount_app.
      unfold refreshCount at 2 3. simpl. lia.
  - intros refreshError Hrefresh. rewrite Hfirst, Hrefresh.
    subst refreshed. by rewrite <- app_assoc.
  - intros Hrefresh. rewrite Hfirst, Hrefresh. subst retried. split.
    + intros r Hr. cbn [callApi_fuel]. cbv zeta. cbn [posts]. rewrite Hr.
      cbn [posts refreshes trace]. by rewrite <- !app_assoc.
    + intros e1 He1 Hs1 Hn1. rewrite (callApi_forbidden_retry _ _ _ e1) by done.
      cbn [posts refreshes trace]. by rewrite <- !app_assoc.
Qed.

End Retry.

Section RetryExamples.
Import JS Samples.

(** C8, on an upstream that answers 403 to every POST: two POSTs, one
    refresh, and the second 403 thrown. *)
Lemma C8_forbidden_refresh_once_witness :
  callApi alwaysForbidden refreshOk defaults freshWorld
  = Some ({| posts := 2; refreshes := 1;
             trace := [EPost false 0; ERefresh; EPost true 0] |},
          Rejected forbidden).
Proof.
  exact (proj2 (proj2 (proj2
           (C8_forbidden_refresh_once alwaysForbidden refreshOk defaults
              freshWorld forbidden ltac:(reflexivity) ltac:(reflexivity)))
           ltac:(reflexivity))
         forbidden ltac:(reflexivity) ltac:(reflexivity)
         ltac:(vm_compute; reflexivity)).
Defined.

End RetryExamples.

(** ** The parser on concrete buffers *)

Section ParserExamples.
Import JS Regex JSON Samples.

(** C4 on a buffer whose text is one bracket call with objects nested
    three deep: the call is returned, and the response text still is that
    bracket call, which the bracket parser accepts again.  The cleanup
    pattern covers two levels of braces, not three. *)
Lemma C4_nested_call_stays_in_text :
  (fun p => (responseText p.1,
             map (fun tc => (fn_name (tc_function tc), fn_arguments (tc_function tc)))
                 (resp_toolCalls p.1)))
    <$> _processApiResponse JsonText.parse JsonText.stringify uuid 0 nestedCallBuffer
  = Some (nestedCallText, [(JStr (js "foo"), jq "{'a':{'b':{'c':'d'}}}")])
  /\ (fun p => map (fun tc => (fn_name (tc_function tc), fn_arguments (tc_function tc)))
                   <$> p.1)
       (parseBracketToolCalls JsonText.parse JsonText.stringify uuid 1 nestedCallText)
     = Some [(JStr (js "foo"), jq "{'a':{'b':{'c':'d'}}}")]
  /\ is_Some (search (toolCallPattern (js "foo")) [] (jq "[Called foo with args: {'a':{'b':'c'}}]"))
  /\ search (toolCallPattern (js "foo")) [] nestedCallText = None.
Proof. vm_compute. repeat split; try reflexivity. by eexists. Qed.

(** C7, as stated, fails on the events of two tool uses interleaved: the
    chunk of [t2] lands in the arguments of [t1], and the call of [t2] has
    no arguments. *)
Lemma C7_interleaved_chunks_are_merged :
  (fun p => toolCalls p.1)
    <$> parseEventStreamChunk JsonText.parse JsonText.stringify uuid 0 interleavedBuffer
  = Some [structuredCall (JStr (js "A")) (JStr (js "t1")) (js "[1[2],3]");
          structuredCall (JStr (js "B")) (JStr (js "t2")) []]
  /\ [structuredCall (JStr (js "A")) (JStr (js "t1")) (js "[1[2],3]");
      structuredCall (JStr (js "B")) (JStr (js "t2")) []]
     <> [structuredCall (JStr (js "A")) (JStr (js "t1")) (js "[1,3]");
         structuredCall (JStr (js "B")) (JStr (js "t2")) (js "[2]")].
Proof. split; [vm_compute; reflexivity|]. intros [=]. Qed.

(** The same events, one tool use after the other. *)
Lemma sequential_tool_uses :
  (fun p => toolCalls p.1)
    <$> parseEventStreamChunk JsonText.parse JsonText.stringify uuid 0 sequentialBuffer
  = Some [structuredCall (JStr (js "A")) (JStr (js "t1")) (js "[1,3]");
          structuredCall (JStr (js "B")) (JStr (js "t2")) (js "[2]")].
Proof. vm_compute. reflexivity. Qed.

(** C7 (amended), on the two chunks of one tool use. *)
Lemma C7_single_builder_witness :
  handleEvents JsonText.parse JsonText.stringify
    (map (fun c => toolUseEvent (JStr (js "A")) (JStr (js "t1")) (Some c) false)
         [js "[1"; js ",3]"]
     ++ [toolUseEvent (JStr (js "A")) (JStr (js "t1")) None true])
    {| fullContent := []; st_toolCalls := []; currentToolCallDict := None |}
  = Some {| fullContent := [];
            st_toolCalls :=
              [] ++ [structuredCall (JStr (js "A")) (JStr (js "t1"))
                       (validatedArguments JsonText.parse JsonText.stringify
                          (concat [js "[1"; js ",3]"]))];
            currentToolCallDict := None |}.
Proof.
  exact (proj2 (C7_single_builder JsonText.parse JsonText.stringify
                  (JStr (js "A")) (JStr (js "t1"))
                  ltac:(reflexivity) ltac:(reflexivity))
               [js "[1"; js ",3]"]
               {| fullContent := []; st_toolCalls := [];
                  currentToolCallDict := None |}
               ltac:(reflexivity)).
Defined.

End ParserExamples.

(** ** The scenarios of the specification *)

Section Scenarios.
Import JS Regex JSON Samples.

(** One text event. *)
Lemma scenario_simple_text :
  (fun p => (responseText p.1, resp_toolCalls p.1))
    <$> _processApiResponse JsonText.parse JsonText.stringify uuid 0
          (jq "event{'content':'hello'}")
  = Some (js "hello", [])
  /\ contentOf (buildClaudeResponse JsonText.stringify (uuid 0) (js "hello") false
                  (js "assistant") (js "claude-sonnet-4-5") (Some []))
     = [CEText (js "hello")].
Proof. vm_compute. by split. Qed.

(** A bracket call outside the event frames: it is found in the raw
    buffer, its arguments repaired, and the text trimmed. *)
Lemma scenario_bracket_call :
  (fun p => (responseText p.1,
             map (fun tc => (fn_name (tc_function tc), fn_arguments (tc_function tc)))
                 (resp_toolCalls p.1)))
    <$> _processApiResponse JsonText.parse JsonText.stringify uuid 0
          bracketCallBuffer
  = Some (js "I" ++ [39%N] ++ js "ll run",
          [(JStr (js "Bash"), jq "{'command':'ls'}")]).
Proof. vm_compute. reflexivity. Qed.

(** Chunks that do not repeat the [name] are not tool-use events for the
    parser: the builder keeps the first chunk and is emitted unfinished. *)
Lemma scenario_chunks_without_name :
  (fun p => toolCalls p.1)
    <$> parseEventStreamChunk JsonText.parse JsonText.stringify uuid 0
          unnamedChunksBuffer
  = Some [structuredCall (JStr (js "Read")) (JStr (js "t1")) (jq "{'path':")].
Proof. vm_compute. reflexivity. Qed.

(** A conversation ending with an assistant message. *)
Lemma scenario_assistant_last :
  (fun r => (last (historyOf r), uim_content <$> cur r))
    <$> buildCodewhispererRequest JsonText.stringify uuid models kiro 0
          [user "hi"; assistant "partial"] (js "claude-sonnet-4-5") [] CNone
  = Some (Some (HAssistant {| arm_content := js "partial"; toolUses := [] |}),
          Some (js "Continue")).
Proof. vm_compute. reflexivity. Qed.

(** A closing brace inside a string value also defeats the cleanup
    pattern. *)
Lemma brace_in_string_stays_in_text :
  (fun p => (responseText p.1,
             map (fun tc => (fn_name (tc_function tc), fn_arguments (tc_function tc)))
                 (resp_toolCalls p.1)))
    <$> _processApiResponse JsonText.parse JsonText.stringify uuid 0
          braceInStringBuffer
  = Some (jq "[Called foo with args: {'a':'}'}]",
          [(JStr (js "foo"), jq "{'a':'}'}")]).
Proof. vm_compute. reflexivity. Qed.

End Scenarios.

(** * Further properties

    Properties of the same functions that the code shows beyond the ones
    above, and of the two entry points built on them. *)

(** ** The bracket matcher *)

Section Brackets.

Lemma findMatchingBracket_loop_bounds (rest : list N) (i c : nat) (inS esc : bool) (j : nat) :
  findMatchingBracket_loop rest i c inS esc = Some j ->
  i <= j < i + length rest /\ rest !! (j - i) = Some 93%N.
Proof.
  revert i c inS esc. induction rest as [|char rest IH]; intros i c inS esc; [done|].
  cbn [findMatchingBracket_loop].
  assert (Hrec : forall c' s' e',
    findMatchingBracket_loop rest (S i) c' s' e' = Some j ->
    i <= j < i + length (char :: rest) /\ (char :: rest) !! (j - i) = Some 93%N).
  { intros c' s' e' H. apply IH in H as [Hb Hl]. simpl. split; [lia|].
    replace (j - i) with (S (j - S i)) by lia. exact Hl. }
  destruct esc; [apply Hrec|].
  destruct ((char =? 92)%N && inS); [apply Hrec|].
  destruct ((char =? 34)%N && negb false); [apply Hrec|].
  destruct (negb inS); [|apply Hrec].
  destruct (char =? 91)%N; [apply Hrec|].
  destruct (char =? 93)%N eqn:H93; [|apply Hrec].
  destruct (c - 1 =? 0); [|apply Hrec].
  intros [= <-]. apply N.eqb_eq in H93 as ->. simpl. split; [lia|].
  by rewrite Nat.sub_diag.
Qed.

(** X1: when [findMatchingBracket] returns an index, the unit at
    [startPos] is an opening bracket, the index lies after [startPos] and
    within the text, and the unit at the index is a closing bracket. *)
Theorem findMatchingBracket_closes (text : list N) (startPos i : nat) :
  findMatchingBracket text startPos = Some i ->
  text !! startPos = Some 91%N
  /\ startPos < i < length text
  /\ text !! i = Some 93%N.
Proof.
  unfold findMatchingBracket.
  case_bool_decide as Hnil; [done|]. simpl.
  destruct (length text <=? startPos) eqn:Hlen; [done|]. simpl.
  case_bool_decide as Hopen; [|done]. simpl.
  apply Nat.leb_gt in Hlen.
  intros H. apply findMatchingBracket_loop_bounds in H as [Hb Hl].
  rewrite length_drop in Hb. rewrite lookup_drop in Hl.
  split; [done|]. split; [lia|].
  replace (S startPos + (i - S startPos)) with i in Hl by lia. done.
Qed.

Lemma countUnit_cons (c d : N) (s : list N) :
  countUnit c (d :: s) = (if (c =? d)%N then 1 else 0) + countUnit c s.
Proof. unfold countUnit. simpl. by destruct (c =? d)%N. Qed.

Lemma findMatchingBracket_loop_balance (rest : list N) (i c : nat) :
  Forall (fun u => u <> 34%N) rest -> 0 < c ->
  match findMatchingBracket_loop rest i c false false with
  | Some j =>
      exists m, j = i + m /\ m < length rest
        /\ countUnit 93 (take (S m) rest) = c + countUnit 91 (take (S m) rest)
        /\ forall k, k <= m ->
             countUnit 93 (take k rest) < c + countUnit 91 (take k rest)
  | None =>
      forall k, countUnit 93 (take k rest) < c + countUnit 91 (take k rest)
  end.
Proof.
  intros Hq. revert i c. induction Hq as [|char rest Hchar Hq IH]; intros i c Hc.
  - simpl. intros k. rewrite take_nil. unfold countUnit. simpl. lia.
  - cbn [findMatchingBracket_loop]. rewrite andb_false_r.
    assert (H34 : (char =? 34)%N = false) by (by apply N.eqb_neq).
    rewrite H34. cbn [andb negb].
    destruct (char =? 91)%N eqn:H91; [|destruct (char =? 93)%N eqn:H93].
    + apply N.eqb_eq in H91 as ->.
      specialize (IH (S i) (S c) ltac:(lia)).
      destruct (findMatchingBracket_loop rest (S i) (S c) false false) as [j|].
      * destruct IH as (m & -> & Hm & Hbal & Hlt).
        exists (S m). split; [lia|]. split; [simpl; lia|]. split.
        -- rewrite firstn_cons, !countUnit_cons. simpl. lia.
        -- intros [|k] Hk; [unfold countUnit; simpl; lia|].
           rewrite firstn_cons, !countUnit_cons. simpl.
           specialize (Hlt k ltac:(lia)). lia.
      * intros [|k]; [unfold countUnit; simpl; lia|].
        rewrite firstn_cons, !countUnit_cons. simpl. specialize (IH k). lia.
    + apply N.eqb_eq in H93 as ->.
      destruct (c - 1 =? 0) eqn:Hone.
      * apply Nat.eqb_eq in Hone. exists 0. split; [lia|]. split; [simpl; lia|]. split.
        -- unfold countUnit. simpl. lia.
        -- intros k Hk. replace k with 0 by lia. unfold countUnit. simpl. lia.
      * apply Nat.eqb_neq in Hone.
        specialize (IH (S i) (c - 1) ltac:(lia)).
        destruct (findMatchingBracket_loop rest (S i) (c - 1) false false) as [j|].
        -- destruct IH as (m & -> & Hm & Hbal & Hlt).
           exists (S m). split; [lia|]. split; [simpl; lia|]. split.
           ++ rewrite firstn_cons, !countUnit_cons. simpl. lia.
           ++ intros [|k] Hk; [unfold countUnit; simpl; lia|].
              rewrite firstn_cons, !countUnit_cons. simpl.
              specialize (Hlt k ltac:(lia)). lia.
        -- intros [|k]; [unfold countUnit; simpl; lia|].
           rewrite firstn_cons, !countUnit_cons. simpl. specialize (IH k). lia.
    + specialize (IH (S i) c Hc).
      assert (E91 : (91 =? char)%N = false) by (by rewrite N.eqb_sym).
      assert (E93 : (93 =? char)%N = false) by (by rewrite N.eqb_sym).
      destruct (findMatchingBracket_loop rest (S i) c false false) as [j|].
      * destruct IH as (m & -> & Hm & Hbal & Hlt).
        exists (S m). split; [lia|]. split; [simpl; lia|]. split.
        -- rewrite firstn_cons, !countUnit_cons, E91, E93. simpl. lia.
        -- intros [|k] Hk; [unfold countUnit; simpl; lia|].
           rewrite firstn_cons, !countUnit_cons, E91, E93. simpl.
           specialize (Hlt k ltac:(lia)). lia.
      * intros [|k]; [unfold countUnit; simpl; lia|].
        rewrite firstn_cons, !countUnit_cons, E91, E93. simpl. specialize (IH k). lia.
Qed.

Lemma substring_from (s : list N) (a b : nat) :
  a <= length s -> a <= b -> substring s a b = take (b - a) (drop a s).
Proof.
  intros Ha Hab. unfold substring.
  rewrite (Nat.min_l a) by lia.
  destruct (decide (b <= length s)) as [Hb|Hb].
  - rewrite (Nat.min_l b) by lia. by rewrite Nat.max_r, Nat.min_l by lia.
  - rewrite (Nat.min_r b) by lia. rewrite Nat.max_r, Nat.min_l by lia.
    rewrite !take_ge; [done| |]; rewrite length_drop; lia.
Qed.

(** X2: on a text without double quotes after [startPos], the index
    returned is the first one at which the closing brackets counted from
    [startPos + 1] outnumber the opening ones; -1 is returned when there is
    none. *)
Theorem findMatchingBracket_balanced (text : list N) (startPos : nat) :
  text !! startPos = Some 91%N ->
  Forall (fun u => u <> 34%N) (drop (S startPos) text) ->
  let inside k := substring text (S startPos) k in
  match findMatchingBracket text startPos with
  | Some i =>
      countUnit 93 (inside (S i)) = S (countUnit 91 (inside (S i)))
      /\ forall k, startPos < k <= i ->
           countUnit 93 (inside k) <= countUnit 91 (inside k)
  | None =>
      forall k, startPos < k -> countUnit 93 (inside k) <= countUnit 91 (inside k)
  end.
Proof.
  intros Hopen Hq inside.
  assert (Hlen : startPos < length text) by (by apply lookup_lt_Some in Hopen).
  unfold findMatchingBracket.
  rewrite bool_decide_eq_false_2 by (intros ->; simpl in Hlen; lia).
  assert (Hle : (length text <=? startPos) = false) by (apply Nat.leb_gt; lia).
  rewrite Hle, bool_decide_eq_true_2 by done. cbn [orb negb].
  pose proof (findMatchingBracket_loop_balance _ (S startPos) 1 Hq ltac:(lia)) as H.
  assert (Hin : forall k, startPos < k ->
            inside k = take (k - S startPos) (drop (S startPos) text)).
  { intros k Hk. apply substring_from; lia. }
  destruct (findMatchingBracket_loop (drop (S startPos) text) (S startPos) 1 false false)
    as [i|].
  - destruct H as (m & -> & Hm & Hbal & Hlt). split.
    + rewrite Hin by lia. replace (S (S startPos + m) - S startPos) with (S m) by lia.
      rewrite Hbal. lia.
    + intros k Hk. rewrite Hin by lia.
      specialize (Hlt (k - S startPos) ltac:(lia)). lia.
  - intros k Hk. rewrite Hin by lia. specialize (H (k - S startPos)). lia.
Qed.

(** A string literal without escapes is passed over, whatever brackets it
    holds. *)
Lemma findMatchingBracket_loop_literal (s rest : list N) (i c : nat) :
  Forall (fun u => u <> 34%N /\ u <> 92%N) s ->
  findMatchingBracket_loop (s ++ 34%N :: rest) i c true false
  = findMatchingBracket_loop rest (i + length s + 1) c false false.
Proof.
  intros Hs. revert i. induction Hs as [|u s [H34 H92] Hs IH]; intros i.
  - simpl. f_equal. lia.
  - cbn [app findMatchingBracket_loop].
    apply N.eqb_neq in H34, H92. rewrite H34, H92. cbn [andb negb].
    rewrite IH. f_equal. simpl. lia.
Qed.

Lemma findMatchingBracket_loop_shift (rest : list N) (i d c : nat) (inS esc : bool) :
  findMatchingBracket_loop rest (i + d) c inS esc
  = (fun j => j + d) <$> findMatchingBracket_loop rest i c inS esc.
Proof.
  revert i c inS esc. induction rest as [|char rest IH]; intros i c inS esc; [done|].
  cbn [findMatchingBracket_loop].
  change (S (i + d)) with (S i + d).
  repeat (match goal with |- context [if ?b then _ else _] => destruct b end;
          try apply IH).
  done.
Qed.

(** X3: a string literal without a backslash that follows the opening
    bracket is passed over, whatever brackets it holds: the result is that of
    the text without the literal, moved by the length of the literal. *)
Theorem findMatchingBracket_string_literal (s rest : list N) :
  Forall (fun u => u <> 34%N /\ u <> 92%N) s ->
  findMatchingBracket ([91%N; 34%N] ++ s ++ [34%N] ++ rest) 0
  = (fun j => j + length s + 2) <$> findMatchingBracket (91%N :: rest) 0.
Proof.
  intros Hs. unfold findMatchingBracket.
  rewrite !bool_decide_eq_false_2 by done.
  rewrite !bool_decide_eq_true_2 by done.
  change (drop 1 ([91%N; 34%N] ++ s ++ [34%N] ++ rest)) with (34%N :: s ++ 34%N :: rest).
  change (drop 1 (91%N :: rest)) with rest.
  cbn [orb negb length Nat.leb app].
  cbn [findMatchingBracket_loop]. cbn [N.eqb andb negb Pos.eqb].
  rewrite findMatchingBracket_loop_literal by done.
  replace (2 + length s + 1) with (1 + (length s + 2)) by lia.
  rewrite findMatchingBracket_loop_shift.
  destruct (findMatchingBracket_loop rest 1 1 false false); simpl; [f_equal; lia|done].
Qed.

End Brackets.

Section BracketExamples.

(** X1, on a text with a nested pair. *)
Lemma findMatchingBracket_closes_witness :
  js "[a[b]c] d" !! 0 = Some 91%N
  /\ 0 < 6 < length (js "[a[b]c] d")
  /\ js "[a[b]c] d" !! 6 = Some 93%N.
Proof.
  exact (findMatchingBracket_closes (js "[a[b]c] d") 0 6 ltac:(vm_compute; reflexivity)).
Defined.

(** X2, on the same text: the bracket at index 6 closes the one at 0. *)
Lemma findMatchingBracket_balanced_witness :
  countUnit 93 (substring (js "[a[b]c] d") 1 7)
  = S (countUnit 91 (substring (js "[a[b]c] d") 1 7)).
Proof.
  exact (proj1 (findMatchingBracket_balanced (js "[a[b]c] d") 0
                  ltac:(reflexivity)
                  ltac:(apply (bool_decide_unpack _); vm_compute; exact I))).
Defined.

(** X3, on a literal holding a closing bracket. *)
Lemma findMatchingBracket_string_literal_witness :
  findMatchingBracket ([91%N; 34%N] ++ js "a]b" ++ [34%N] ++ js ", 1] tail") 0
  = (fun j => j + length (js "a]b") + 2) <$> findMatchingBracket (91%N :: js ", 1] tail") 0.
Proof.
  exact (findMatchingBracket_string_literal (js "a]b") (js ", 1] tail")
           ltac:(apply (bool_decide_unpack _); vm_compute; exact I)).
Defined.

End BracketExamples.

(** ** Deduplication, further *)

Section Dedup.

Lemma dedup_foldl (seen : gset (list N)) (acc tcs : list toolCall) :
  (foldl (fun (st : gset (list N) * list toolCall) tc =>
            let '(seen, uniqueToolCalls) := st in
            let key := dedupKey tc in
            if bool_decide (key ∈ seen) then st
            else ({[ key ]} ∪ seen, uniqueToolCalls ++ [tc]))
         (seen, acc) tcs).2
  = acc ++ keepUnseen seen tcs.
Proof.
  revert seen acc. induction tcs as [|tc tcs IH]; intros seen acc.
  - simpl. by rewrite app_nil_r.
  - cbn [foldl keepUnseen]. case_bool_decide.
    + apply IH.
    + rewrite IH. by rewrite <- app_assoc.
Qed.

Lemma deduplicateToolCalls_keepUnseen (tcs : list toolCall) :
  deduplicateToolCalls tcs = keepUnseen ∅ tcs.
Proof. unfold deduplicateToolCalls. by rewrite dedup_foldl. Qed.

Lemma keepUnseen_sublist (seen : gset (list N)) (tcs : list toolCall) :
  keepUnseen seen tcs `sublist_of` tcs.
Proof.
  revert seen. induction tcs as [|tc tcs IH]; intros seen; [done|].
  simpl. case_bool_decide.
  - by apply sublist_cons.
  - by apply sublist_skip.
Qed.

Lemma keepUnseen_keys (seen : gset (list N)) (tcs : list toolCall) (k : list N) :
  k ∈ map dedupKey (keepUnseen seen tcs)
  <-> k ∈ map dedupKey tcs /\ k ∉ seen.
Proof.
  revert seen. induction tcs as [|tc tcs IH]; intros seen.
  - simpl. split; [by intros ?%elem_of_nil|by intros [?%elem_of_nil _]].
  - cbn [keepUnseen map]. case_bool_decide as Hseen; cbn [map].
    + rewrite IH, elem_of_cons. split; [tauto|].
      intros [[->|Hin] Hk]; [done|tauto].
    + rewrite !elem_of_cons, IH. split.
      * intros [->|[Hin Hk]]; [tauto|]. split; [tauto|]. set_solver.
      * intros [[->|Hin] Hk]; [tauto|].
        destruct (decide (k = dedupKey tc)) as [->|Hne]; [tauto|].
        right. split; [done|]. set_solver.
Qed.

Lemma keepUnseen_NoDup (seen : gset (list N)) (tcs : list toolCall) :
  NoDup (map dedupKey (keepUnseen seen tcs)).
Proof.
  revert seen. induction tcs as [|tc tcs IH]; intros seen; cbn [keepUnseen map];
    [constructor|].
  case_bool_decide as Hseen; [apply IH|].
  cbn [map]. constructor; [|apply IH].
  rewrite keepUnseen_keys. set_solver.
Qed.

Lemma keepUnseen_fixed (seen : gset (list N)) (tcs : list toolCall) :
  NoDup (map dedupKey tcs) ->
  (forall k, k ∈ map dedupKey tcs -> k ∉ seen) ->
  keepUnseen seen tcs = tcs.
Proof.
  revert seen. induction tcs as [|tc tcs IH]; intros seen Hnd Hseen; [done|].
  cbn [keepUnseen map] in *. apply NoDup_cons in Hnd as [Hnotin Hnd].
  rewrite bool_decide_eq_false_2 by (apply Hseen; left).
  f_equal. apply IH; [done|].
  intros k Hk. specialize (Hseen k ltac:(by right)).
  assert (k <> dedupKey tc) by (intros ->; done). set_solver.
Qed.

(** X6: the calls kept are calls of the input in their order, no two of
    them have the same key, every key of the input is the key of a call
    kept, and the first call is always kept. *)
Theorem deduplicateToolCalls_first_of_each_key (tcs : list toolCall) :
  deduplicateToolCalls tcs `sublist_of` tcs
  /\ NoDup (map dedupKey (deduplicateToolCalls tcs))
  /\ (forall k, k ∈ map dedupKey (deduplicateToolCalls tcs) <-> k ∈ map dedupKey tcs)
  /\ head (deduplicateToolCalls tcs) = head tcs.
Proof.
  rewrite deduplicateToolCalls_keepUnseen. split; [apply keepUnseen_sublist|].
  split; [apply keepUnseen_NoDup|]. split.
  - intros k. rewrite keepUnseen_keys. set_solver.
  - destruct tcs as [|tc tcs]; [done|]. simpl.
    by rewrite bool_decide_eq_false_2 by set_solver.
Qed.

(** X7: deduplicating twice is deduplicating once. *)
Theorem deduplicateToolCalls_idempotent (tcs : list toolCall) :
  deduplicateToolCalls (deduplicateToolCalls tcs) = deduplicateToolCalls tcs.
Proof.
  rewrite !deduplicateToolCalls_keepUnseen.
  apply keepUnseen_fixed; [apply keepUnseen_NoDup|set_solver].
Qed.

Lemma keepUnseen_app (seen : gset (list N)) (l r : list toolCall) :
  keepUnseen seen (l ++ r)
  = keepUnseen seen l
    ++ keepUnseen (list_to_set (map dedupKey l) ∪ seen) r.
Proof.
  revert seen. induction l as [|tc l IH]; intros seen.
  - cbn [app keepUnseen map list_to_set].
    by replace (∅ ∪ seen) with seen by set_solver.
  - cbn [app keepUnseen map list_to_set]. case_bool_decide as Hseen.
    + rewrite IH. do 2 f_equal. set_solver.
    + cbn [app]. rewrite IH. do 3 f_equal. set_solver.
Qed.

Lemma NoDup_deduplicateToolCalls (tcs : list toolCall) :
  NoDup (map dedupKey (deduplicateToolCalls tcs)).
Proof. rewrite deduplicateToolCalls_keepUnseen. apply keepUnseen_NoDup. Qed.

Lemma deduplicateToolCalls_app (l r : list toolCall) :
  NoDup (map dedupKey l) ->
  exists rest, deduplicateToolCalls (l ++ r) = l ++ rest /\ rest `sublist_of` r.
Proof.
  intros Hl. rewrite deduplicateToolCalls_keepUnseen, keepUnseen_app.
  rewrite (keepUnseen_fixed ∅ l Hl) by set_solver.
  eexists. split; [reflexivity|]. apply keepUnseen_sublist.
Qed.

End Dedup.

(** ** The matcher on the patterns of the source *)

Section RegexFacts.

(** A pattern without groups hands the captures it was given to its
    continuation. *)
Lemma mtch_noGroup (r : regex) :
  noGroup r = true ->
  forall (k : mcont) (pre post : list N) (cs : caps) (x : mstate),
    mtch r k pre post cs = Some x ->
    exists pre' post', k pre' post' cs = Some x.
Proof.
  induction r as [p| |r1 IH1 r2 IH2|r1 IH1 r2 IH2|g r' IH|n r' IH|r' IH|p|];
    intros Hng k pre post cs x; cbn [mtch].
  - destruct post as [|c post]; [done|]. destruct (p c); [|done]. by eauto.
  - by eauto.
  - cbn [noGroup] in Hng. apply andb_true_iff in Hng as [H1 H2].
    intros H. apply (IH1 H1) in H as (pre1 & post1 & H). by apply (IH2 H2) in H.
  - cbn [noGroup] in Hng. apply andb_true_iff in Hng as [H1 H2].
    destruct (mtch r1 k pre post cs) eqn:E1.
    + intros [= <-]. by apply (IH1 H1) in E1.
    + by apply (IH2 H2).
  - cbn [noGroup] in Hng. specialize (IH Hng).
    generalize (length post). intros fuel. revert pre post cs.
    induction fuel as [|fuel IHf]; intros pre post cs; [by eauto|].
    assert (Hagain :
      mtch r' (fun pre' post' cs' =>
                 if length post' <? length post
                 then (fix loop (fuel : nat) (pre post : list N) (cs : caps) {struct fuel}
                         : option mstate :=
                         match fuel with
                         | 0 => k pre post cs
                         | S f =>
                             let again (_ : unit) :=
                               mtch r' (fun pre' post' cs' =>
                                          if length post' <? length post
                                          then loop f pre' post' cs' else None)
                                    pre post cs in
                             if g then
                               match again () with
                               | Some x => Some x
                               | None => k pre post cs
                               end
                             else
                               match k pre post cs with
                               | Some x => Some x
                               | None => again ()
                               end
                         end) fuel pre' post' cs'
                 else None) pre post cs = Some x ->
      exists pre' post', k pre' post' cs = Some x).
    { intros H. apply IH in H as (pre1 & post1 & H).
      destruct (length post1 <? length post); [|done]. by apply IHf in H. }
    cbv zeta. destruct g.
    + match goal with |- context [match ?t with Some _ => _ | None => _ end] =>
        destruct t eqn:E end.
      * intros [= <-]. by apply Hagain.
      * by eauto.
    + destruct (k pre post cs) eqn:E.
      * intros [= <-]. by eauto.
      * apply Hagain.
  - done.
  - cbn [noGroup] in Hng. specialize (IH Hng).
    destruct (mtch r' (fun a b c => Some (a, b, c)) pre post cs) as [[[a b] cs']|] eqn:E;
      [|done].
    apply IH in E as (pre1 & post1 & [= _ _ <-]). by eauto.
  - destruct pre as [|c pre]; [by eauto|]. destruct (p c); [done|by eauto].
  - destruct post; [by eauto|done].
Qed.

(** A starred class: what it passes over is made of units of the class. *)
Lemma mtch_star_class (g : bool) (p : N -> bool) (k : mcont) (pre post : list N)
    (cs : caps) (x : mstate) :
  mtch (RStar g (RChar p)) k pre post cs = Some x ->
  exists w post', post = w ++ post' /\ Forall (fun c => p c = true) w
                  /\ k (rev w ++ pre) post' cs = Some x.
Proof.
  cbn [mtch]. generalize (length post). intros fuel. revert pre post.
  induction fuel as [|fuel IH]; intros pre post.
  - intros H. exists [], post. by repeat split.
  - cbv zeta.
    assert (Hstop : k pre post cs = Some x ->
      exists w post', post = w ++ post' /\ Forall (fun c => p c = true) w
                      /\ k (rev w ++ pre) post' cs = Some x).
    { intros H. exists [], post. by repeat split. }
    assert (Hagain : forall K,
      (forall pre1 post1, K pre1 post1 cs = Some x ->
         exists w post', post1 = w ++ post' /\ Forall (fun c => p c = true) w
                         /\ k (rev w ++ pre1) post' cs = Some x) ->
      match post with
      | c :: post' => if p c then
                        (if length post' <? length post then K (c :: pre) post' cs else None)
                      else None
      | [] => None
      end = Some x ->
      exists w post', post = w ++ post' /\ Forall (fun c => p c = true) w
                      /\ k (rev w ++ pre) post' cs = Some x).
    { intros K HK. destruct post as [|c post0]; [done|].
      destruct (p c) eqn:Hc; [|done]. destruct (_ <? _); [|done].
      intros H. apply HK in H as (w & post' & -> & Hw & H).
      exists (c :: w), post'. split; [done|]. split; [by constructor|].
      simpl. by rewrite <- app_assoc. }
    destruct g.
    + match goal with |- context [match ?t with Some _ => _ | None => _ end] =>
        destruct t eqn:E end.
      * intros [= <-]. revert E. apply Hagain. apply IH.
      * apply Hstop.
    + destruct (k pre post cs) eqn:E.
      * intros [= <-]. by apply Hstop.
      * apply Hagain. apply IH.
Qed.

(** A group around one or more units of a class captures a non-empty string
    of units of the class. *)
Lemma mtch_group_plus_class (n : nat) (p : N -> bool) (k : mcont)
    (pre post : list N) (cs : caps) (x : mstate) :
  mtch (RGroup n (plus (RChar p))) k pre post cs = Some x ->
  exists w pre' post', w <> [] /\ Forall (fun c => p c = true) w
                       /\ k pre' post' ((n, w) :: cs) = Some x.
Proof.
  unfold plus. cbn [mtch].
  destruct post as [|c post]; [done|]. destruct (p c) eqn:Hc; [|done].
  intros H. apply (mtch_star_class true p) in H as (w & post' & -> & Hw & H).
  exists (c :: w), (rev w ++ c :: pre), post'. split; [done|].
  split; [by constructor|].
  replace (rev (take (length (rev w ++ c :: pre) - length pre) (rev w ++ c :: pre)))
    with (c :: w) in H; [done|].
  rewrite length_app, length_rev. simpl.
  replace (length w + S (length pre) - length pre) with (length (rev w ++ [c]))
    by (rewrite length_app, length_rev; simpl; lia).
  replace (rev w ++ c :: pre) with ((rev w ++ [c]) ++ pre) by (by rewrite <- app_assoc).
  rewrite take_app_length, rev_app_distr, rev_involutive. done.
Qed.

Lemma search_Some (r : regex) (pre post : list N) (pre0 : list N) (st : mstate) :
  search r pre post = Some (pre0, st) ->
  exists post0, matchAt r pre0 post0 = Some st.
Proof.
  revert pre. induction post as [|c post IH]; intros pre; cbn [search].
  - destruct (matchAt r pre []) eqn:E; [|done]. intros [= <- <-]. by eauto.
  - destruct (matchAt r pre (c :: post)) eqn:E.
    + intros [= <- <-]. by eauto.
    + apply IH.
Qed.

Lemma isWord_not_space (c : N) : isWord c = true -> isSpace c = false.
Proof.
  intros H.
  assert (Hb : (48 <= c <= 122)%N).
  { unfold isWord in H.
    repeat match type of H with
           | context [(?a <=? ?b)%N] => destruct (N.leb_spec a b)
           | context [(?a =? ?b)%N] => destruct (N.eqb_spec a b)
           end; simpl in H; try done; lia. }
  unfold isSpace.
  rewrite (proj2 (N.leb_gt c 13)) by lia.
  rewrite !(proj2 (N.eqb_neq c _)) by lia.
  rewrite (proj2 (N.leb_gt 8192 c)) by lia.
  by rewrite andb_false_r.
Qed.

Lemma trim_fixed (w : list N) :
  Forall (fun c => isSpace c = false) w -> trim w = w.
Proof.
  intros Hw. unfold trim, trimStart, trimEnd.
  assert (H1 : forall s, Forall (fun c => isSpace c = false) s -> dropWhile isSpace s = s).
  { intros s Hs. destruct Hs as [|c s Hc _]; [done|]. simpl. by rewrite Hc. }
  rewrite (H1 w Hw), H1, rev_involutive; [done|]. by apply Forall_rev.
Qed.

(** The name read by [namePattern]. *)
Lemma namePattern_capture (pre post : list N) (pre' post' : list N) (cs : caps) :
  matchAt namePattern pre post = Some (pre', post', cs) ->
  capture 1 cs <> [] /\ Forall (fun c => isWord c = true) (capture 1 cs).
Proof.
  unfold matchAt, namePattern. cbn [seqs mtch].
  intros H.
  apply (mtch_noGroup (lit_i (js "[Called")) ltac:(reflexivity)) in H as (p1 & q1 & H).
  apply (mtch_noGroup (plus space) ltac:(reflexivity)) in H as (p2 & q2 & H).
  apply mtch_group_plus_class in H as (w & p3 & q3 & Hne & Hw & H).
  apply (mtch_noGroup (plus space) ltac:(reflexivity)) in H as (p4 & q4 & H).
  apply (mtch_noGroup (lit_i (js "with")) ltac:(reflexivity)) in H as (p5 & q5 & H).
  apply (mtch_noGroup (plus space) ltac:(reflexivity)) in H as (p6 & q6 & H).
  apply (mtch_noGroup (lit_i (js "args:")) ltac:(reflexivity)) in H as (p7 & q7 & H).
  injection H as _ _ <-. simpl. done.
Qed.

End RegexFacts.

(** ** The bracket parser *)

Section BracketParser.
Variable JSON_parse : list N -> option json.
Variable JSON_stringify : json -> list N.
Variable uuidv4 : nat -> list N.

Lemma length_substring_0 (s : list N) (b : nat) : length (substring s 0 b) <= b.
Proof. unfold substring. rewrite length_take. lia. Qed.

Lemma parseSingleToolCall_shape (n : nat) (text : list N) (tc : toolCall) :
  parseSingleToolCall JSON_parse JSON_stringify uuidv4 n text = Some tc ->
  bracketCallShape JSON_stringify tc.
Proof.
  unfold parseSingleToolCall.
  destruct (search namePattern [] text) as [[? [[? ?] cs]]|]; [|done].
  destruct (indexOf _ _ 0) as [argsStartPos|]; [|done].
  destruct (lastIndexOf text _) as [argsEnd|]; [|done].
  destruct (argsEnd <=? _); [done|].
  destruct (JSON_parse _) as [v|]; [|done].
  destruct (isObject v) eqn:Hobj; [|done]. simpl.
  intros [= <-]. unfold bracketCallShape. simpl.
  split; [done|]. split; [|split].
  - eexists. split; [reflexivity|].
    apply length_substring_0.
  - by eexists.
  - by exists v.
Qed.

Lemma parseBracketToolCalls_loop_shape (text : list N) (positions : list nat)
    (n : nat) (acc : list toolCall) :
  Forall (bracketCallShape JSON_stringify) acc ->
  let res := parseBracketToolCalls_loop JSON_parse JSON_stringify uuidv4
               text positions n acc in
  Forall (bracketCallShape JSON_stringify) res.1
  /\ res.2 + length acc = n + length res.1.
Proof.
  revert n acc. induction positions as [|p later IH]; intros n acc Hacc.
  - simpl. split; [done|lia].
  - cbn [parseBracketToolCalls_loop]. cbv zeta.
    match goal with |- context [match ?t with Some _ => _ | None => _ end] =>
      destruct t as [callText|] end; [|by apply IH].
    destruct (parseSingleToolCall _ _ _ n callText) as [tc|] eqn:Htc; [|by apply IH].
    apply parseSingleToolCall_shape in Htc.
    destruct (IH (S n) (acc ++ [tc])) as [H1 H2].
    { apply Forall_app. split; [done|]. by constructor. }
    split; [exact H1|]. rewrite length_app in H2. simpl in H2. lia.
Qed.

(** X4: [parseBracketToolCalls] returns no empty list; a call it returns
    has the type [function], an id made of [call_] and at most 8 units of a
    UUID, a string for a name, and for arguments the serialization of an
    object or an array; one UUID is drawn per call. *)
Theorem parseBracketToolCalls_shape (n : nat) (responseText : list N) :
  let res := parseBracketToolCalls JSON_parse JSON_stringify uuidv4 n responseText in
  res.1 <> Some []
  /\ Forall (bracketCallShape JSON_stringify) (default [] res.1)
  /\ res.2 = n + length (default [] res.1).
Proof.
  unfold parseBracketToolCalls.
  destruct (bool_decide (responseText = []) || negb (includes responseText (js "[Called"))).
  - simpl. split; [done|]. split; [done|lia].
  - pose proof (parseBracketToolCalls_loop_shape responseText
                  (occurrences (js "[Called") responseText 0) n [] ltac:(done)) as H.
    cbv zeta in H.
    destruct (parseBracketToolCalls_loop _ _ _ _ _ _ _) as [found n'].
    simpl in H. destruct H as [H1 H2].
    destruct found as [|tc found]; simpl in *.
    + split; [done|]. split; [done|lia].
    + split; [done|]. split; [done|lia].
Qed.

Lemma parseSingleToolCall_name (n : nat) (text : list N) (tc : toolCall) :
  parseSingleToolCall JSON_parse JSON_stringify uuidv4 n text = Some tc ->
  wordName tc.
Proof.
  unfold parseSingleToolCall.
  destruct (search namePattern [] text) as [[pre0 [[pre' post'] cs]]|] eqn:Hsearch; [|done].
  apply search_Some in Hsearch as [post0 Hmatch].
  apply namePattern_capture in Hmatch as [Hne Hw].
  destruct (indexOf _ _ 0) as [argsStartPos|]; [|done].
  destruct (lastIndexOf text _) as [argsEnd|]; [|done].
  destruct (argsEnd <=? _); [done|].
  destruct (JSON_parse _) as [v|]; [|done].
  destruct (negb (isObject v)); [done|].
  intros [= <-]. unfold wordName. simpl. eexists. split; [reflexivity|].
  rewrite trim_fixed; [done|].
  eapply Forall_impl; [exact Hw|]. intros c Hc. by apply isWord_not_space.
Qed.

Lemma parseBracketToolCalls_loop_names (text : list N) (positions : list nat)
    (n : nat) (acc : list toolCall) :
  Forall wordName acc ->
  Forall wordName
    (parseBracketToolCalls_loop JSON_parse JSON_stringify uuidv4 text positions n acc).1.
Proof.
  revert n acc. induction positions as [|p later IH]; intros n acc Hacc; [done|].
  cbn [parseBracketToolCalls_loop]. cbv zeta.
  match goal with |- context [match ?t with Some _ => _ | None => _ end] =>
    destruct t as [callText|] end; [|by apply IH].
  destruct (parseSingleToolCall _ _ _ n callText) as [tc|] eqn:Htc; [|by apply IH].
  apply parseSingleToolCall_name in Htc.
  apply IH. apply Forall_app. split; [done|]. by constructor.
Qed.

(** X5: the name of a call found by [parseBracketToolCalls] is a non-empty
    string of the units [A-Za-z0-9_]. *)
Theorem parseBracketToolCalls_names (n : nat) (responseText : list N) :
  Forall wordName
    (default [] (parseBracketToolCalls JSON_parse JSON_stringify uuidv4 n responseText).1).
Proof.
  unfold parseBracketToolCalls.
  destruct (bool_decide (responseText = []) || negb (includes responseText (js "[Called")));
    [done|].
  pose proof (parseBracketToolCalls_loop_names responseText
                (occurrences (js "[Called") responseText 0) n [] ltac:(done)) as H.
  destruct (parseBracketToolCalls_loop _ _ _ _ _ _ _) as [found n'].
  simpl in *. by destruct found.
Qed.

End BracketParser.

(** ** The parsed response *)

Section ParsedResponse.
Variable JSON_parse : list N -> option json.
Variable JSON_stringify : json -> list N.
Variable uuidv4 : nat -> list N.

Lemma star_space_total (pre post : list N) (cs : caps) :
  exists pre' post',
    mtch (RStar true space) (fun a b c => Some (a, b, c)) pre post cs
    = Some (pre', post', cs)
    /\ length pre <= length pre'.
Proof.
  unfold space. cbn [mtch]. generalize (length post). intros fuel. revert pre post.
  induction fuel as [|fuel IH]; intros pre post.
  - exists pre, post. by split.
  - cbv zeta. destruct post as [|c post]; [exists pre, []; by split|].
    destruct (isSpace c) eqn:Hc; [|exists pre, (c :: post); by split].
    destruct (length post <? length (c :: post)); [|exists pre, (c :: post); by split].
    destruct (IH (c :: pre) post) as (pre' & post' & H & Hlen).
    rewrite H. exists pre', post'. split; [done|]. simpl in Hlen. lia.
Qed.

Lemma matchAt_plus_space (pre post : list N) :
  match matchAt (plus space) pre post with
  | Some (pre', _, _) =>
      length pre < length pre' /\ exists c post', post = c :: post' /\ isSpace c = true
  | None => match post with c :: _ => isSpace c = false | [] => True end
  end.
Proof.
  unfold matchAt, plus.
  destruct post as [|c post]; [done|].
  change (mtch (RSeq space (RStar true space)) (fun a b c => Some (a, b, c))
               pre (c :: post) [])
    with (if isSpace c
          then mtch (RStar true space) (fun a b c => Some (a, b, c)) (c :: pre) post []
          else None).
  destruct (isSpace c) eqn:Hc; [|done].
  destruct (star_space_total (c :: pre) post []) as (pre' & post' & H & Hlen).
  rewrite H. simpl in Hlen. split; [lia|]. by eauto.
Qed.

Lemma replace_loop_spaces (skip : nat) (pre post : list N) :
  Forall (fun c => isSpace c = true -> c = 32%N)
         (replace_loop (plus space) (fun _ _ => js " ") skip pre post).
Proof.
  revert skip pre. induction post as [|c post IH]; intros skip pre.
  - destruct skip; cbn [replace_loop]; [|constructor].
    pose proof (matchAt_plus_space pre []) as H.
    destruct (matchAt (plus space) pre []) as [[[pre' ?] ?]|]; [|constructor].
    by destruct H as (_ & ? & ? & ? & _).
  - destruct skip as [|n]; cbn [replace_loop]; [|apply IH].
    pose proof (matchAt_plus_space pre (c :: post)) as H.
    destruct (matchAt (plus space) pre (c :: post)) as [[[pre' ?] ?]|].
    + destruct H as [Hlen _].
      assert (Hm : (length pre' - length pre =? 0) = false)
        by (apply Nat.eqb_neq; lia).
      rewrite Hm. cbn [app]. apply Forall_app. split; [|apply IH].
      repeat constructor.
    + constructor; [|apply IH]. intros Hc. by rewrite H in Hc.
Qed.

Lemma Forall_dropWhile {P : N -> Prop} (p : N -> bool) (s : list N) :
  Forall P s -> Forall P (dropWhile p s).
Proof.
  induction 1 as [|c s Hc Hs IH]; simpl; [constructor|].
  destruct (p c); [done|by constructor].
Qed.

Lemma collapseWhitespace_spaces (text : list N) :
  Forall (fun c => isSpace c = true -> c = 32%N) (collapseWhitespace text)
  /\ trim (collapseWhitespace text) = collapseWhitespace text.
Proof.
  unfold collapseWhitespace. split; [|apply trim_idem].
  unfold trim, trimEnd, trimStart. apply Forall_rev, Forall_dropWhile, Forall_rev,
    Forall_dropWhile. apply replace_loop_spaces.
Qed.

(** X19: when a tool call is returned, the white space of the response
    text is collapsed: every white-space unit left is a U+0020, and none is
    at either end. *)
Theorem processApiResponse_collapses_white_space (n : nat) (raw : list N)
    (p : parsedResponse) (n' : nat) :
  _processApiResponse JSON_parse JSON_stringify uuidv4 n raw = Some (p, n') ->
  resp_toolCalls p <> [] ->
  Forall (fun c => isSpace c = true -> c = 32%N) (responseText p)
  /\ trim (responseText p) = responseText p.
Proof.
  unfold _processApiResponse.
  destruct (parseEventStreamChunk _ _ _ n raw) as [[chunk n1]|]; [|done]. simpl.
  destruct (parseBracketToolCalls _ _ _ n1 raw) as [rawCalls n2].
  set (unique := deduplicateToolCalls _).
  destruct (0 <? length unique) eqn:Hlen.
  - destruct (removeToolCallText _ unique) as [cleaned|]; [|done]. simpl.
    intros [= <- <-] _. simpl. apply collapseWhitespace_spaces.
  - intros [= <- <-]. simpl. apply Nat.ltb_ge in Hlen.
    intros Hne. destruct unique; [done|simpl in Hlen; lia].
Qed.

Lemma parseEventStreamChunk_NoDup (n : nat) (raw : list N) (chunk : parsedChunk) (n' : nat) :
  parseEventStreamChunk JSON_parse JSON_stringify uuidv4 n raw = Some (chunk, n') ->
  NoDup (map dedupKey (toolCalls chunk)).
Proof.
  unfold parseEventStreamChunk. cbv zeta.
  destruct (parseBracketToolCalls _ _ _ n _) as [[bracket|] n1].
  - destruct (removeToolCallText _ bracket); [|done]. simpl.
    intros [= <- <-]. simpl. apply NoDup_deduplicateToolCalls.
  - intros [= <- <-]. simpl. apply NoDup_deduplicateToolCalls.
Qed.

(** X17: no two calls returned by [parseEventStreamChunk] or by
    [_processApiResponse] have the same key. *)
Theorem returned_calls_have_distinct_keys (n : nat) (raw : list N) :
  (forall chunk n',
     parseEventStreamChunk JSON_parse JSON_stringify uuidv4 n raw = Some (chunk, n') ->
     NoDup (map dedupKey (toolCalls chunk)))
  /\ (forall p n',
        _processApiResponse JSON_parse JSON_stringify uuidv4 n raw = Some (p, n') ->
        NoDup (map dedupKey (resp_toolCalls p))).
Proof.
  split.
  - intros chunk n'. apply parseEventStreamChunk_NoDup.
  - intros p n'. unfold _processApiResponse.
    destruct (parseEventStreamChunk _ _ _ n raw) as [[chunk n1]|]; [|done]. simpl.
    destruct (parseBracketToolCalls _ _ _ n1 raw) as [rawCalls n2].
    destruct (0 <? length _).
    + destruct (removeToolCallText _ _); [|done]. simpl.
      intros [= <- <-]. simpl. apply NoDup_deduplicateToolCalls.
    + intros [= <- <-]. simpl. apply NoDup_deduplicateToolCalls.
Qed.

(** X18: [_processApiResponse] returns the calls of
    [parseEventStreamChunk], in their order, followed by bracket calls found
    in the raw buffer. *)
Theorem processApiResponse_keeps_chunk_calls (n : nat) (raw : list N)
    (p : parsedResponse) (n' : nat) :
  _processApiResponse JSON_parse JSON_stringify uuidv4 n raw = Some (p, n') ->
  exists chunk n1 rest,
    parseEventStreamChunk JSON_parse JSON_stringify uuidv4 n raw = Some (chunk, n1)
    /\ resp_toolCalls p = toolCalls chunk ++ rest
    /\ rest `sublist_of`
         default [] (parseBracketToolCalls JSON_parse JSON_stringify uuidv4 n1 raw).1.
Proof.
  unfold _processApiResponse.
  destruct (parseEventStreamChunk _ _ _ n raw) as [[chunk n1]|] eqn:Hchunk; [|done].
  pose proof (parseEventStreamChunk_NoDup _ _ _ _ Hchunk) as Hnd. simpl.
  destruct (parseBracketToolCalls _ _ _ n1 raw) as [rawCalls n2] eqn:Hraw. simpl.
  assert (Hun : exists rest,
            deduplicateToolCalls
              match rawCalls with
              | Some raw0 => toolCalls chunk ++ raw0
              | None => toolCalls chunk
              end = toolCalls chunk ++ rest
            /\ rest `sublist_of` default [] rawCalls).
  { destruct rawCalls as [raw0|]; simpl.
    - by apply deduplicateToolCalls_app.
    - exists []. rewrite app_nil_r. split; [|done].
      rewrite deduplicateToolCalls_keepUnseen. apply keepUnseen_fixed; [done|set_solver]. }
  destruct Hun as (rest & Hun & Hsub).
  destruct (0 <? length _).
  - destruct (removeToolCallText _ _); [|done]. simpl.
    intros [= <- <-]. simpl. exists chunk, n1, rest. by rewrite Hraw.
  - intros [= <- <-]. simpl. exists chunk, n1, rest. by rewrite Hraw.
Qed.

(** *** Text events *)

Lemma handleEvent_content (text : list N) (st : chunkState) :
  text <> [] ->
  handleEvent JSON_parse JSON_stringify (contentEvent text) st
  = Some {| fullContent := fullContent st ++ decodeNewlines text;
            st_toolCalls := st_toolCalls st;
            currentToolCallDict := currentToolCallDict st |}.
Proof.
  intros Hne. unfold handleEvent, contentEvent, member.
  cbn [prop lookupMember app].
  rewrite !(bool_decide_eq_false_2 (js "content" = _)) by done.
  rewrite (bool_decide_eq_true_2 (js "content" = js "content")) by done.
  cbn [truthy_opt truthy andb negb].
  rewrite (bool_decide_eq_false_2 (text = [])) by done. reflexivity.
Qed.

Lemma matchAt_escapedNewline_None (pre post : list N) :
  head post <> Some 92%N -> matchAt escapedNewline pre post = None.
Proof.
  intros Hh. unfold matchAt, escapedNewline, chr. cbn [seqs mtch].
  destruct post as [|c post].
  - by destruct pre as [|d pre]; [|destruct (92 =? d)%N].
  - destruct (N.eqb_spec 92 c) as [<-|Hne]; [by destruct Hh|].
    by destruct pre as [|d pre]; [|destruct (92 =? d)%N].
Qed.

Lemma search_escapedNewline_None (pre text : list N) :
  Forall (fun c => c <> 92%N) text -> search escapedNewline pre text = None.
Proof.
  intros Ht. revert pre. induction Ht as [|c text Hc Ht IH]; intros pre; cbn [search].
  - by rewrite matchAt_escapedNewline_None.
  - rewrite matchAt_escapedNewline_None; [apply IH|]. simpl. congruence.
Qed.

(** X16: text events add their text to the content, in order, each with
    its escaped line feeds decoded; a text without a backslash is added as it
    is.  The tool calls and the open builder are left alone. *)
Theorem text_events_accumulate (texts : list (list N)) (st : chunkState) :
  Forall (fun t => t <> []) texts ->
  handleEvents JSON_parse JSON_stringify (map contentEvent texts) st
  = Some {| fullContent := fullContent st ++ concat (map decodeNewlines texts);
            st_toolCalls := st_toolCalls st;
            currentToolCallDict := currentToolCallDict st |}
  /\ (Forall (Forall (fun c => c <> 92%N)) texts ->
      concat (map decodeNewlines texts) = concat texts).
Proof.
  intros Hne. split.
  - revert st. induction Hne as [|t texts Ht Hne IH]; intros st.
    + simpl. rewrite app_nil_r. by destruct st.
    + cbn [map handleEvents]. rewrite handleEvent_content by done.
      rewrite IH. simpl. by rewrite <- app_assoc.
  - intros Hb. f_equal. clear Hne. induction Hb as [|t texts Ht Hb IH]; [done|].
    simpl. rewrite IH. f_equal. unfold decodeNewlines.
    apply replaceAll_no_match. by apply search_escapedNewline_None.
Qed.

End ParsedResponse.

(** ** Sanitizing and truncation *)

Section Sanitize.

Lemma length_replace_loop_delete (r : regex) (skip : nat) (pre post : list N) :
  length (replace_loop r (fun _ _ => []) skip pre post) <= length post.
Proof.
  revert skip pre. induction post as [|c post IH]; intros skip pre.
  - destruct skip; simpl; [|lia]. destruct (matchAt r pre []) as [[[? ?] ?]|]; simpl; lia.
  - destruct skip as [|n]; cbn [replace_loop].
    + destruct (matchAt r pre (c :: post)) as [[[pre' ?] cs]|].
      * cbn [app]. rewrite length_app. specialize (IH (length pre' - length pre - 1) (c :: pre)).
        destruct (_ =? 0); simpl; lia.
      * simpl. specialize (IH 0 (c :: pre)). lia.
    + specialize (IH n (c :: pre)). simpl. lia.
Qed.

Lemma length_dropWhile (p : N -> bool) (s : list N) :
  length (dropWhile p s) <= length s.
Proof. induction s as [|c s IH]; simpl; [lia|]. destruct (p c); simpl; lia. Qed.

Lemma length_trim (s : list N) : length (trim s) <= length s.
Proof.
  unfold trim, trimEnd, trimStart. rewrite length_rev.
  etransitivity; [apply length_dropWhile|]. rewrite length_rev. apply length_dropWhile.
Qed.

(** X8: the sanitized text is never longer than the text, and has no
    white space at either end. *)
Theorem cleanSystemTags_shorter_and_trimmed (text : list N) :
  length (cleanSystemTags text) <= length text
  /\ trim (cleanSystemTags text) = cleanSystemTags text.
Proof.
  unfold cleanSystemTags. case_bool_decide as Hnil; [by subst|].
  split; [|apply trim_idem].
  etransitivity; [apply length_trim|]. unfold replaceAll.
  etransitivity; [apply length_replace_loop_delete|]. apply length_replace_loop_delete.
Qed.

Lemma length_truncateText (cleaned : list N) (maxLen : nat) (marker : list N) :
  length (truncateText cleaned maxLen marker) <= maxLen + length marker.
Proof.
  unfold truncateText. destruct (maxLen <? length cleaned) eqn:H.
  - rewrite length_app. unfold substring. rewrite length_take. lia.
  - apply Nat.ltb_ge in H. lia.
Qed.

(** X9: every text of a truncated content has at most [maxLen] units and
    the 11 of the marker; the text of a tool result at most [maxLen] and the
    13 of its marker. *)
Theorem truncation_bounds (maxLen : nat) :
  (forall c, Forall (fun t => length t <= maxLen + 11)
                    (textsOf (truncateContent c maxLen)))
  /\ (forall tool_use_id c,
        Forall (fun t => length t <= maxLen + 13)
               (tr_content (makeToolResult maxLen tool_use_id c))).
Proof.
  split.
  - intros [|s|parts]; simpl.
    + constructor.
    + case_bool_decide as Hs.
      * subst. simpl. repeat constructor. simpl. lia.
      * simpl. repeat constructor.
        apply (length_truncateText _ maxLen contentTruncated).
    + induction parts as [|p parts IH]; [constructor|].
      cbn [map]. 
      destruct p as [t| | | |]; try exact IH.
      case_bool_decide as Ht.
      * subst. constructor; [simpl; lia|exact IH].
      * constructor; [|exact IH]. apply (length_truncateText _ maxLen contentTruncated).
  - intros i c. unfold makeToolResult. simpl. repeat constructor.
    apply (length_truncateText _ maxLen toolResultTruncated).
Qed.

End Sanitize.

(** ** The tools of a request *)

Section Tools.

(** X10: the tools sent are at least one and at most [KIRO_MAX_TOOLS],
    tools of the request in their order, each with a description of at most
    300 units; none is sent when tools are disabled, and otherwise only when
    every tool of the request is outside the core list with a description of
    more than 1000 units. *)
Theorem toolsContextOf_bounds (cfg : config) (tools : list tool) :
  match toolsContextOf cfg tools with
  | Some specs =>
      KIRO_DISABLE_TOOLS cfg = false
      /\ 0 < length specs <= maxToolsOf cfg
      /\ map ts_name specs `sublist_of` map tool_name tools
      /\ Forall (fun ts => length (ts_description ts) <= 300) specs
  | None =>
      KIRO_DISABLE_TOOLS cfg = true
      \/ Forall (fun t => tool_name t ∉ coreTools
                          /\ 1000 < length (default [] (tool_description t))) tools
  end.
Proof.
  unfold toolsContextOf. cbv zeta.
  destruct (KIRO_DISABLE_TOOLS cfg) eqn:Hdis; cbn [negb andb]; cbv iota; [by left|].
  destruct (0 <? length tools) eqn:Hlen.
  2:{ right. apply Nat.ltb_ge in Hlen. destruct tools; [constructor|simpl in Hlen; lia]. }
  match goal with |- context [take _ ?l] => set (kept := l) end.
  assert (Hpos : 0 < maxToolsOf cfg) by (apply orDefault_pos; lia).
  destruct (0 <? length (take (maxToolsOf cfg) kept)) eqn:Hkept.
  - apply Nat.ltb_lt in Hkept. split; [done|]. rewrite length_map.
    split; [split; [done|rewrite length_take; lia]|]. split.
    + rewrite map_map. simpl.
      change (map (fun t => tool_name t) (take (maxToolsOf cfg) kept))
        with (tool_name <$> take (maxToolsOf cfg) kept).
      change (map tool_name tools) with (tool_name <$> tools).
      apply fmap_sublist. etransitivity; [apply sublist_take|]. apply sublist_filter.
    + apply Forall_map. apply Forall_forall. intros t _. simpl.
      apply length_substring_0.
  - right. apply Nat.ltb_ge in Hkept. rewrite length_take in Hkept.
    assert (Hnil : kept = []) by (destruct kept; [done|simpl in Hkept; lia]).
    apply Forall_forall. intros t Ht.
    assert (Hnot : ~ (bool_decide (tool_name t ∈ coreTools)
                      || negb (1000 <? length (default [] (tool_description t))))).
    { intros Hk. assert (Hin : t ∈ kept) by (by apply list_elem_of_filter).
      rewrite Hnil in Hin. by apply elem_of_nil in Hin. }
    apply Is_true_false in Hnot.
    apply orb_false_iff in Hnot as [Hcore Hdesc].
    apply bool_decide_eq_false in Hcore. apply negb_false_iff, Nat.ltb_lt in Hdesc.
    done.
Qed.

End Tools.

(** ** The request, further *)

Section RequestFacts.
Variable JSON_stringify : json -> list N.
Variable uuidv4 : nat -> list N.
Variable KIRO_MODELS : list (list N).


(** *** Size enforcement, its result *)

Lemma hasTools_withHistory (r : request) (h : list historyEntry) :
  hasTools (withHistory r h) = hasTools r.
Proof. done. Qed.

Lemma hasTools_nullTools (r : request) : hasTools (nullTools r) = false.
Proof.
  unfold hasTools, nullTools. simpl.
  destruct (currentMessage _) as [m|]; [|done]. simpl.
  by destruct (userInputMessageContext m).
Qed.

(** X15: after the size check the request is within the budget, or it is
    left with at most 3 history entries and no tools. *)
Theorem enforceRequestSize_outcome (cfg : config) (r : request) :
  let r' := enforceRequestSize JSON_stringify cfg r in
  requestSize JSON_stringify r' <= maxRequestSizeOf cfg
  \/ (length (historyOf r') <= 3 /\ hasTools r' = false).
Proof.
  unfold enforceRequestSize.
  generalize (maxRequestSizeOf cfg). intros maxRequestSize. cbv zeta.
  destruct (maxRequestSize <? requestSize JSON_stringify r) eqn:H0;
    [|left; by apply Nat.ltb_ge].
  set (r1 := withHistory r (shiftHistory JSON_stringify maxRequestSize r (historyOf r))).
  clearbody r1.
  set (r2 := if maxRequestSize <? requestSize JSON_stringify r1
             then withHistory r1 (map shortenEntry (historyOf r1)) else r1).
  clearbody r2.
  destruct (maxRequestSize <? requestSize JSON_stringify r2) eqn:H2.
  - cbn [andb].
    set (r3 := if hasTools r2 then nullTools r2 else r2).
    assert (Hno : hasTools r3 = false).
    { subst r3. destruct (hasTools r2) eqn:Ht; [apply hasTools_nullTools|done]. }
    clearbody r3.
    destruct (maxRequestSize <? requestSize JSON_stringify r3) eqn:H3;
      [|left; by apply Nat.ltb_ge].
    cbn [andb]. right.
    destruct (3 <? length (historyOf r3)) eqn:Hlen.
    + rewrite hasTools_withHistory. split; [|done].
      rewrite historyOf_withHistory. unfold sliceLast. rewrite length_drop. lia.
    + apply Nat.ltb_ge in Hlen. by split.
  - cbn [andb]. rewrite H2. cbn [andb]. left. by apply Nat.ltb_ge.
Qed.

Lemma nullTools_withHistory (r : request) (h : list historyEntry) :
  withHistory (nullTools r) h = nullTools (withHistory r h).
Proof. done. Qed.

Lemma withHistory_withHistory (r : request) (h h' : list historyEntry) :
  withHistory (withHistory r h) h' = withHistory r h'.
Proof. done. Qed.

Lemma map_drop_comm {A B} (f : A -> B) (k : nat) (l : list A) :
  map f (drop k l) = drop k (map f l).
Proof. revert k. induction l as [|x l IH]; intros [|k]; simpl; auto. Qed.

Lemma enforceRequestSize_drops_and_cuts (cfg : config) (r : request) :
  exists (k : nat) (cut nulled : bool),
    enforceRequestSize JSON_stringify cfg r
    = (if nulled then nullTools else id)
        (withHistory r
           (drop k (map (if cut then shortenEntry else id) (historyOf r)))).
Proof.
  unfold enforceRequestSize.
  generalize (maxRequestSizeOf cfg). intros maxRequestSize. cbv zeta.
  assert (Hid : forall k, withHistory r (drop k (map id (historyOf r)))
                          = withHistory r (drop k (historyOf r))).
  { intros k. by rewrite map_id. }
  destruct (maxRequestSize <? requestSize JSON_stringify r).
  2:{ exists 0, false, false. rewrite Hid. simpl. by rewrite withHistory_same. }
  destruct (shiftHistory_least JSON_stringify maxRequestSize r (historyOf r))
    as (k1 & _ & -> & _).
  set (r1 := withHistory r (drop k1 (historyOf r))).
  set (r2 := if maxRequestSize <? requestSize JSON_stringify r1
             then withHistory r1 (map shortenEntry (historyOf r1)) else r1).
  assert (H2 : exists cut : bool,
            r2 = withHistory r (drop k1 (map (if cut then shortenEntry else id)
                                             (historyOf r)))).
  { subst r2. destruct (maxRequestSize <? requestSize JSON_stringify r1).
    - exists true. subst r1. rewrite withHistory_withHistory, historyOf_withHistory.
      by rewrite map_drop_comm.
    - exists false. by rewrite Hid. }
  clearbody r2. destruct H2 as [cut ->].
  set (h2 := drop k1 (map (if cut then shortenEntry else id) (historyOf r))).
  set (r3 := if (maxRequestSize <? requestSize JSON_stringify (withHistory r h2))
                && hasTools (withHistory r h2)
             then nullTools (withHistory r h2) else withHistory r h2).
  assert (H3 : exists nulled : bool,
            r3 = (if nulled then nullTools else id) (withHistory r h2)).
  { subst r3. destruct (_ && _); [by exists true|by exists false]. }
  clearbody r3. destruct H3 as [nulled ->].
  assert (Hh : historyOf ((if nulled then nullTools else id) (withHistory r h2)) = h2).
  { by destruct nulled. }
  destruct (_ && _).
  - exists (k1 + (length h2 - 3)), cut, nulled. rewrite Hh. unfold sliceLast.
    subst h2. rewrite drop_drop.
    destruct nulled; simpl; by rewrite ?nullTools_withHistory, ?withHistory_withHistory.
  - by exists k1, cut, nulled.
Qed.

(** X14: what the size check may do: drop the oldest history entries, cut
    the contents of the entries, set the tools of the current message to
    null; nothing else of the request changes, and a request within the
    budget is returned as it is. *)
Theorem enforceRequestSize_shape (cfg : config) (r : request) :
  (requestSize JSON_stringify r <= maxRequestSizeOf cfg ->
   enforceRequestSize JSON_stringify cfg r = r)
  /\ exists (k : nat) (cut nulled : bool),
       enforceRequestSize JSON_stringify cfg r
       = (if nulled then nullTools else id)
           (withHistory r
              (drop k (map (if cut then shortenEntry else id) (historyOf r)))).
Proof.
  split; [|apply enforceRequestSize_drops_and_cuts].
  unfold enforceRequestSize.
  generalize (maxRequestSizeOf cfg). intros maxRequestSize. cbv zeta.
  intros Hle. apply Nat.ltb_ge in Hle. by rewrite Hle.
Qed.

(** X12: with a system prompt and one user message whose content is a
    string, the text of the message is sent twice: after the prompt in the
    one history entry, and as the current message. *)
Theorem single_user_message_after_system_prompt (svc : service) (n : nat)
    (s : list N) (model : list N) (tools : list tool) (inSystemPrompt : msgContent) :
  let systemPrompt := getContentText_of inSystemPrompt in
  let maxLen := maxMessageLengthOf (svc_config svc) in
  let text := truncateText (cleanSystemTags s) maxLen contentTruncated in
  systemPrompt <> [] -> text <> [] ->
  exists r,
    shapeRequest uuidv4 KIRO_MODELS svc n
      [{| role := js "user"; msg_content := CString s |}] model tools inSystemPrompt
    = Some r
    /\ (uim_content <$> cur r) = Some text
    /\ historyOf r
       = [HUser {| uim_content := systemPrompt ++ [10; 10]%N ++ text;
                   modelId := codewhispererModelOf KIRO_MODELS svc model;
                   origin := ORIGIN_AI_EDITOR;
                   userInputMessageContext := None;
                   images := None |}].
Proof.
  intros systemPrompt maxLen text Hsys Htext.
  assert (Hs : s <> []).
  { intros ->. apply Htext. reflexivity. }
  unfold shapeRequest. change (length [_] =? 0) with false. cbv iota zeta.
  fold systemPrompt. fold maxLen.
  assert (Hret : retainedMessages (svc_config svc)
                   [{| role := js "user"; msg_content := CString s |}]
                 = [{| role := js "user"; msg_content := CString s |}]).
  { unfold retainedMessages.
    assert (Hpos : 0 < maxHistoryOf (svc_config svc)) by (apply orDefault_pos; lia).
    destruct (maxHistoryOf (svc_config svc) <? length [_]) eqn:E; [|done].
    apply Nat.ltb_lt in E. simpl in E. lia. }
  rewrite Hret. cbn [map]. unfold truncateMessage at 1 2 3. cbn [role msg_content].
  unfold truncateContent. rewrite (bool_decide_eq_false_2 (s = [])) by done.
  fold text.
  unfold systemPromptEntries. rewrite (bool_decide_eq_false_2 (systemPrompt = [])) by done.
  cbn [role]. rewrite bool_decide_eq_true_2 by done.
  cbn [last length Nat.sub take drop omap app role].
  rewrite bool_decide_eq_true_2 by done.
  eexists. split; [reflexivity|]. unfold cur, historyOf. cbn.
  split; [|done]. unfold currentContentOf. cbn.
  by rewrite (bool_decide_eq_false_2 (text = [])) by done.
Qed.







End RequestFacts.

(** ** The response builder, further *)

Section StreamFacts.
Variable JSON_stringify : json -> list N.

Lemma indexes_toolUseEvents (calls : list toolCall) (b : nat) :
  let events := concat (imap (fun i => toolUseEvents (b + i)) calls) in
  startIndexes events = seq b (length calls)
  /\ deltaIndexes events = seq b (length calls)
  /\ stopIndexes events = seq b (length calls)
  /\ stopsOf events = [].
Proof.
  revert b. induction calls as [|tc calls IH]; intros b; [done|].
  cbv zeta. rewrite imap_cons, concat_cons.
  rewrite (imap_ext _ (fun i => toolUseEvents (S b + i)))
    by (intros j x _; simpl; f_equal; lia).
  destruct (IH (S b)) as (H1 & H2 & H3 & H4).
  unfold startIndexes, deltaIndexes, stopIndexes, stopsOf in *.
  rewrite !omap_app, H1, H2, H3, H4, Nat.add_0_r. done.
Qed.

(** X22: the blocks of the pseudo-stream: each has its start, one delta
    and its stop, in the same order, and their indexes are the numbers from
    0 to the number of blocks less one, each once. *)
Theorem stream_block_indexes (messageId content role model : list N)
    (toolCalls : option (list toolCall)) :
  let stream :=
    eventsOf (buildClaudeResponse JSON_stringify messageId content true role
                                  model toolCalls) in
  let blocks :=
    length (default [] toolCalls) + (if bool_decide (content = []) then 0 else 1) in
  startIndexes stream ≡ₚ seq 0 blocks
  /\ deltaIndexes stream = startIndexes stream
  /\ stopIndexes stream = startIndexes stream.
Proof.
  cbv zeta. rewrite buildClaudeResponse_stream. cbn [eventsOf].
  generalize (default [] toolCalls). intros calls.
  unfold streamInOrder.
  change (imap toolUseEvents calls) with (imap (fun j => toolUseEvents (0 + j)) calls).
  destruct (indexes_toolUseEvents calls 0) as (H1 & H2 & H3 & _).
  unfold startIndexes, deltaIndexes, stopIndexes in *.
  rewrite !omap_app, H1, H2, H3. unfold textEvents.
  case_bool_decide as Hc; cbn [omap app].
  - rewrite !app_nil_r, Nat.add_0_r. done.
  - split; [|done]. rewrite !app_nil_r.
    replace (length calls + 1) with (S (length calls)) by lia.
    rewrite seq_S. simpl. rewrite Permutation_app_comm. done.
Qed.

(** X23: the two forms of a response carry the same stop reason,
    [tool_use] when there is a tool call and [end_turn] otherwise, with a
    null stop sequence; without tool calls they count the same output
    tokens, those of the text. *)
Theorem stop_reason_agrees (messageId content role model : list N)
    (toolCalls : option (list toolCall)) :
  let reason :=
    if 0 <? length (default [] toolCalls) then js "tool_use" else js "end_turn" in
  exists (tokens : nat) (m : claudeMessage),
    stopsOf (eventsOf (buildClaudeResponse JSON_stringify messageId content true
                                           role model toolCalls))
    = [(reason, None, tokens)]
    /\ buildClaudeResponse JSON_stringify messageId content false role model toolCalls
       = Message m
    /\ cm_stop_reason m = reason
    /\ cm_stop_sequence m = None
    /\ (default [] toolCalls = [] ->
        tokens = estimateTokens content /\ cm_output_tokens m = estimateTokens content).
Proof.
  cbv zeta. rewrite buildClaudeResponse_stream. cbn [eventsOf].
  unfold buildClaudeResponse.
  assert (Hne : match toolCalls with Some l => 0 <? length l | None => false end
                = (0 <? length (default [] toolCalls))) by (by destruct toolCalls).
  rewrite Hne. clear Hne. generalize (default [] toolCalls). intros calls.
  unfold streamInOrder.
  change (imap toolUseEvents calls) with (imap (fun j => toolUseEvents (0 + j)) calls).
  destruct (indexes_toolUseEvents calls 0) as (_ & _ & _ & H4).
  unfold stopsOf in *. rewrite !omap_app, H4.
  assert (Htext : omap (fun e => match e with
                 | message_delta reason sequence tokens => Some (reason, sequence, tokens)
                 | _ => None
                 end) (textEvents (length calls) content) = []).
  { unfold textEvents. by case_bool_decide. }
  rewrite Htext. cbn [omap app].
  destruct calls as [|tc calls].
  - cbn [length Nat.ltb Nat.leb]. cbv iota zeta.
    case_bool_decide as Hc; cbn [negb]; cbv iota.
    + eexists _, _. split; [reflexivity|].
      split; [reflexivity|]. cbn [cm_stop_reason cm_stop_sequence cm_output_tokens].
      split; [done|]. split; [done|]. intros _.
      unfold streamTokens. rewrite bool_decide_eq_true_2 by done. by subst.
    + eexists _, _. split; [reflexivity|].
      split; [reflexivity|]. cbn [cm_stop_reason cm_stop_sequence cm_output_tokens].
      split; [done|]. split; [done|]. intros _.
      unfold streamTokens. rewrite bool_decide_eq_false_2 by done.
      cbn [map sum_list]. split; [lia|done].
  - change (0 <? length (tc :: calls)) with true. cbv iota zeta.
    destruct (pushToolUses (tc :: calls) [] 0) as [contentArray outputTokens].
    eexists _, _. split; [reflexivity|]. split; [reflexivity|]. cbn. done.
Qed.

End StreamFacts.

(** ** Transport and retry, further *)

Section RetryFacts.
Context {response : Type}.
Variable post : nat -> outcome response.
Variable refresh : nat -> option apiError.
Variable cfg : config.

Lemma callApi_fuel_bounds (fuel : nat) (isRetry : bool) (retryCount : nat)
    (w w' : world) (out : outcome response) :
  callApi_fuel post refresh fuel cfg isRetry retryCount w = Some (w', out) ->
  posts w < posts w'
  /\ posts w' <= posts w + (maxRetriesOf cfg - retryCount) + (if isRetry then 1 else 2)
  /\ refreshes w <= refreshes w'
  /\ refreshes w' <= refreshes w + (if isRetry then 0 else 1)
  /\ exists t, trace w' = trace w ++ t.
Proof.
  revert isRetry retryCount w. induction fuel as [|fuel IH]; intros isRetry retryCount w;
    [done|].
  cbn [callApi_fuel]. cbv zeta.
  assert (Hdone : forall o,
    Some ({| posts := S (posts w); refreshes := refreshes w;
             trace := trace w ++ [EPost isRetry retryCount] |}, o) = Some (w', out) ->
    posts w < posts w'
    /\ posts w' <= posts w + (maxRetriesOf cfg - retryCount) + (if isRetry then 1 else 2)
    /\ refreshes w <= refreshes w'
    /\ refreshes w' <= refreshes w + (if isRetry then 0 else 1)
    /\ exists t, trace w' = trace w ++ t).
  { intros o [= <- <-]. simpl. repeat split; try (destruct isRetry; lia). by eexists. }
  destruct (post (posts w)) as [r|error]; [apply Hdone|].
  cbn [posts refreshes trace].
  assert (Hback : (retryCount <? maxRetriesOf cfg) = true ->
    callApi_fuel post refresh fuel cfg isRetry (retryCount + 1)
      {| posts := S (posts w); refreshes := refreshes w;
         trace := (trace w ++ [EPost isRetry retryCount])
                  ++ [ESleep (baseDelayOf cfg * 2 ^ retryCount)] |}
    = Some (w', out) ->
    posts w < posts w'
    /\ posts w' <= posts w + (maxRetriesOf cfg - retryCount) + (if isRetry then 1 else 2)
    /\ refreshes w <= refreshes w'
    /\ refreshes w' <= refreshes w + (if isRetry then 0 else 1)
    /\ exists t, trace w' = trace w ++ t).
  { intros Hlt H. apply Nat.ltb_lt in Hlt. apply IH in H as (H1 & H2 & H3 & H4 & t & H5).
    simpl in *. repeat split; try lia. rewrite H5, <- !app_assoc. by eexists. }
  destruct (bool_decide (err_status error = Some 403) && negb isRetry) eqn:H403.
  - apply andb_true_iff in H403 as [_ Hretry]. destruct isRetry; [done|].
    destruct (refresh (refreshes w)).
    + intros [= <- <-]. simpl. repeat split; try lia. rewrite <- app_assoc. by eexists.
    + intros H. apply IH in H as (H1 & H2 & H3 & H4 & t & H5). simpl in *.
      repeat split; try lia. rewrite H5, <- !app_assoc. by eexists.
  - destruct (retryCount <? maxRetriesOf cfg) eqn:Hlt.
    + rewrite !andb_true_r.
      destruct (bool_decide (err_status error = Some 429)); [by apply Hback|].
      destruct (match err_status error with
                | Some st => (500 <=? st) && (st <? 600)
                | None => false
                end); [by apply Hback|].
      destruct (isNetworkError error); [by apply Hback|]. apply Hdone.
    + rewrite !andb_false_r. apply Hdone.
Qed.


Lemma callApi_fuel_backoff (d : nat) (fuel : nat) (isRetry : bool) (retryCount : nat)
    (w : world) (e : apiError) :
  maxRetriesOf cfg - retryCount = d -> retryCount <= maxRetriesOf cfg -> d < fuel ->
  (forall k, posts w <= k <= posts w + d -> post k = Rejected e) ->
  retryable e = true ->
  (err_status e <> Some 403 \/ isRetry = true) ->
  callApi_fuel post refresh fuel cfg isRetry retryCount w
  = Some ({| posts := posts w + d + 1; refreshes := refreshes w;
             trace := trace w ++ backoffSchedule cfg isRetry retryCount |},
          Rejected e).
Proof.
  revert fuel retryCount w.
  induction d as [|d IH]; intros fuel retryCount w Hd Hle Hfuel Hpost Hretry H403;
    (destruct fuel as [|fuel]; [lia|]); cbn [callApi_fuel]; cbv zeta;
    rewrite (Hpost (posts w)) by lia; cbn [posts refreshes trace].
  - assert (Hlt : (retryCount <? maxRetriesOf cfg) = false) by (apply Nat.ltb_ge; lia).
    rewrite Hlt, !andb_false_r.
    assert (H1 : (bool_decide (err_status e = Some 403) && negb isRetry) = false).
    { destruct H403 as [H | ->]; [by rewrite bool_decide_eq_false_2|apply andb_false_r]. }
    rewrite H1. unfold backoffSchedule. rewrite Hd. simpl.
    do 3 f_equal; [lia|]. do 3 f_equal. lia.
  - assert (Hlt : (retryCount <? maxRetriesOf cfg) = true) by (apply Nat.ltb_lt; lia).
    rewrite Hlt, !andb_true_r.
    assert (H1 : (bool_decide (err_status e = Some 403) && negb isRetry) = false).
    { destruct H403 as [H | ->]; [by rewrite bool_decide_eq_false_2|apply andb_false_r]. }
    rewrite H1.
    assert (Hgo : callApi_fuel post refresh fuel cfg isRetry (retryCount + 1)
      {| posts := S (posts w); refreshes := refreshes w;
         trace := (trace w ++ [EPost isRetry retryCount])
                  ++ [ESleep (baseDelayOf cfg * 2 ^ retryCount)] |}
      = Some ({| posts := posts w + S d + 1; refreshes := refreshes w;
                 trace := trace w ++ backoffSchedule cfg isRetry retryCount |},
              Rejected e)).
    { rewrite (IH fuel (retryCount + 1)); try lia; try done.
      - cbn [posts refreshes trace]. do 3 f_equal; [lia|].
        unfold backoffSchedule. rewrite Hd.
        replace (maxRetriesOf cfg - (retryCount + 1)) with d by lia.
        cbn [seq map concat]. rewrite <- !app_assoc. simpl.
        by replace (retryCount + 1) with (S retryCount) by lia.
      - intros k Hk. cbn [posts] in Hk. apply Hpost. lia. }
    unfold retryable in Hretry.
    destruct (bool_decide (err_status e = Some 429)); [exact Hgo|].
    destruct (match err_status e with Some st => (500 <=? st) && (st <? 600) | None => false end);
      [exact Hgo|].
    simpl in Hretry. rewrite Hretry. exact Hgo.
Qed.

(** X21: an upstream that keeps answering with one retryable error (429,
    a 5xx status or a network error; not 403): the request is posted
    [maxRetries + 1] times, with a pause of [baseDelay * 2 ^ k] after the
    attempt number [k], and the error is thrown after the last attempt. *)
Theorem callApi_backoff_schedule (w : world) (e : apiError) :
  (forall k, posts w <= k <= posts w + maxRetriesOf cfg -> post k = Rejected e) ->
  retryable e = true ->
  err_status e <> Some 403 ->
  callApi post refresh cfg w
  = Some ({| posts := posts w + maxRetriesOf cfg + 1; refreshes := refreshes w;
             trace := trace w ++ backoffSchedule cfg false 0 |},
          Rejected e).
Proof.
  intros Hpost Hretry H403. unfold callApi.
  apply callApi_fuel_backoff; try lia; try done. by left.
Qed.

End RetryFacts.

(** ** Generation *)

Section GenerationFacts.
Variable JSON_parse : list N -> option json.
Variable JSON_stringify : json -> list N.
Variable uuidv4 : nat -> list N.
Variable KIRO_MODELS : list (list N).
Variable post : nat -> outcome (list N).
Variable refresh : nat -> option apiError.
Variable typeError : apiError.

Local Abbreviation generate :=
  (generateContent JSON_parse JSON_stringify uuidv4 KIRO_MODELS post refresh typeError).
Local Abbreviation generateStream :=
  (generateContentStream JSON_parse JSON_stringify uuidv4 KIRO_MODELS post refresh
                         typeError).
Local Abbreviation callOf :=
  (callApiOf JSON_stringify uuidv4 KIRO_MODELS post refresh).

Lemma callApiOf_total (svc : service) (n : nat) (model : list N) (body : requestBody)
    (w : world) :
  is_Some (callOf svc n model body w).
Proof.
  unfold callApiOf. destruct (buildCodewhispererRequest _ _ _ _ _ _ _ _ _); [|by eexists].
  apply callApi_total.
Qed.

(** X24: the two entry points make the same upstream calls and end together.
    When they return, they render the same text and tool calls under the
    same message id, with the model name of the caller.  An error of the
    refresh that precedes the request, or of the processing of the response,
    is the same in both; an error of [callApi] is thrown as it is by
    [generateContent] and wrapped in a new [Error] by
    [generateContentStream]. *)
Theorem generateContentStream_follows_generateContent (svc : service) (c : clock)
    (n : nat) (model : list N) (body : requestBody) (w : world) :
  exists (w' : world) (plain stream : outcome claudeResponse),
    generate svc c n model body w = Some (w', plain)
    /\ generateStream svc c n model body w = Some (w', stream)
    /\ match plain, stream with
       | Resolved message, Resolved events =>
           exists (id text : list N) (calls : list toolCall),
             message = buildClaudeResponse JSON_stringify id text false
                         (js "assistant") model (Some calls)
             /\ events = buildClaudeResponse JSON_stringify id text true
                           (js "assistant") model (Some calls)
       | Rejected error, Rejected wrapped =>
           (wrapped = error
            /\ (refresh (refreshes w) = Some error \/ error = processingError typeError))
           \/ (wrapped = processingError error
               /\ exists w1, callOf svc n (finalModelOf KIRO_MODELS svc model) body w1
                             = Some (w', Rejected error))
       | _, _ => False
       end.
Proof.
  unfold generateContent, generateContentStream, streamApi, refreshIfNear.
  destruct (isExpiryDateNear c).
  - destruct (refresh (refreshes w)) as [refreshError|] eqn:Hrefresh.
    + eexists _, _, _. split; [reflexivity|]. split; [reflexivity|]. left. auto.
    + cbv zeta.
      match goal with |- context [callApiOf _ _ _ _ _ ?s ?m ?f ?b ?w1] =>
        destruct (callApiOf_total s m f b w1) as [[w2 [response|error]] Hcall];
        rewrite Hcall end.
      * unfold renderResponse. destruct (_processApiResponse _ _ _ _ _) as [[parsed n']|].
        -- eexists _, _, _. split; [reflexivity|]. split; [reflexivity|]. by eexists _, _, _.
        -- eexists _, _, _. split; [reflexivity|]. split; [reflexivity|]. left. auto.
      * eexists _, _, _. split; [reflexivity|]. split; [reflexivity|]. right.
        split; [done|]. by eexists.
  - cbv zeta.
    match goal with |- context [callApiOf _ _ _ _ _ ?s ?m ?f ?b ?w1] =>
      destruct (callApiOf_total s m f b w1) as [[w2 [response|error]] Hcall];
      rewrite Hcall end.
    + unfold renderResponse. destruct (_processApiResponse _ _ _ _ _) as [[parsed n']|].
      * eexists _, _, _. split; [reflexivity|]. split; [reflexivity|]. by eexists _, _, _.
      * eexists _, _, _. split; [reflexivity|]. split; [reflexivity|]. left. auto.
    + eexists _, _, _. split; [reflexivity|]. split; [reflexivity|]. right.
      split; [done|]. by eexists.
Qed.


(** X26: [generateContent] ends after at most [maxRetries + 2] POSTs and two
    refreshes.  When the token is near its expiry the refresh comes first,
    and if it fails nothing is posted; when the expiry date is not a valid
    date the token is not taken as near its expiry.  A body without
    messages is refused before any POST. *)
Theorem generateContent_bounded (svc : service) (c : clock) (n : nat)
    (model : list N) (body : requestBody) (w : world) :
  exists (w' : world) (out : outcome claudeResponse),
    generate svc c n model body w = Some (w', out)
    /\ posts w <= posts w' <= posts w + maxRetriesOf (svc_config svc) + 2
    /\ refreshes w <= refreshes w' <= refreshes w + 2
    /\ (expirationTime c = None -> refreshes w' <= refreshes w + 1)
    /\ (isExpiryDateNear c = true ->
        (exists t, trace w' = trace w ++ ERefresh :: t)
        /\ forall refreshError, refresh (refreshes w) = Some refreshError ->
             out = Rejected refreshError /\ posts w' = posts w)
    /\ (body_messages body = [] -> posts w' = posts w).
Proof.
  unfold generateContent, refreshIfNear.
  assert (Hnan : expirationTime c = None -> isExpiryDateNear c = false).
  { intros H. unfold isExpiryDateNear. by rewrite H. }
  assert (Hcall : forall w1 : world,
    exists w2 o, callOf svc n (finalModelOf KIRO_MODELS svc model) body w1 = Some (w2, o)
      /\ posts w1 <= posts w2 <= posts w1 + maxRetriesOf (svc_config svc) + 2
      /\ refreshes w1 <= refreshes w2 <= refreshes w1 + 1
      /\ (exists t, trace w2 = trace w1 ++ t)
      /\ (body_messages body = [] -> posts w2 = posts w1)).
  { intros w1. unfold callApiOf.
    destruct (buildCodewhispererRequest _ _ _ _ _ _ _ _ _) as [r|] eqn:Hbuild.
    - destruct (callApi_total post refresh (svc_config svc) w1) as [[w2 o] H].
      pose proof H as Hb. apply callApi_fuel_bounds in Hb as (H1 & H2 & H3 & H4 & H5).
      exists w2, o. split; [done|]. split; [lia|]. split; [lia|]. split; [done|].
      intros Hnil. rewrite Hnil in Hbuild.
      by unfold buildCodewhispererRequest, shapeRequest in Hbuild.
    - exists w1, (Rejected noUserMessages). split; [done|]. split; [lia|]. split; [lia|].
      split; [by exists []; rewrite app_nil_r|]. done. }
  destruct (isExpiryDateNear c) eqn:Hnear.
  - destruct (refresh (refreshes w)) as [refreshError|] eqn:Hrefresh.
    + eexists _, _. split; [reflexivity|]. simpl.
      split; [lia|]. split; [lia|]. split; [intros Hx; by apply Hnan in Hx|].
      split; [|done]. intros _. split; [by exists []|]. by intros ? [= <-].
    + cbv zeta.
      destruct (Hcall {| posts := posts w; refreshes := S (refreshes w);
                         trace := trace w ++ [ERefresh] |})
        as (w2 & o & -> & H1 & H2 & (t & H3) & H4). simpl in *.
      assert (Hgoal : forall out : outcome claudeResponse,
        posts w <= posts w2 <= posts w + maxRetriesOf (svc_config svc) + 2
        /\ refreshes w <= refreshes w2 <= refreshes w + 2
        /\ (expirationTime c = None -> refreshes w2 <= refreshes w + 1)
        /\ (true = true ->
            (exists t0, trace w2 = trace w ++ ERefresh :: t0)
            /\ forall refreshError, None = Some refreshError ->
                 out = Rejected refreshError /\ posts w2 = posts w)
        /\ (body_messages body = [] -> posts w2 = posts w)).
      { intros out. split; [lia|]. split; [lia|]. split.
        - intros H. apply Hnan in H. done.
        - split; [|done]. intros _. split; [|done].
          exists t. by rewrite H3, <- app_assoc. }
      destruct o as [response|error]; eexists _, _; (split; [reflexivity|]); apply Hgoal.
  - cbv zeta.
    destruct (Hcall w) as (w2 & o & -> & H1 & H2 & (t & H3) & H4).
    assert (Hgoal : forall out : outcome claudeResponse,
      posts w <= posts w2 <= posts w + maxRetriesOf (svc_config svc) + 2
      /\ refreshes w <= refreshes w2 <= refreshes w + 2
      /\ (expirationTime c = None -> refreshes w2 <= refreshes w + 1)
      /\ (false = true ->
          (exists t0, trace w2 = trace w ++ ERefresh :: t0)
          /\ forall refreshError, refresh (refreshes w) = Some refreshError ->
               out = Rejected refreshError /\ posts w2 = posts w)
      /\ (body_messages body = [] -> posts w2 = posts w)).
    { intros out. split; [lia|]. split; [lia|]. split; [intros _; lia|]. by split. }
    destruct o as [response|error]; eexists _, _; (split; [reflexivity|]); apply Hgoal.
Qed.


End GenerationFacts.

(** ** The further properties on concrete inputs *)

Section FurtherExamples.
Import JS Regex JSON Samples.

(** X12, on the message [hi] after the prompt [Be brief.]. *)
Lemma single_user_message_after_system_prompt_witness :
  exists r,
    shapeRequest uuid models kiro 0
      [{| role := js "user"; msg_content := CString (js "hi") |}]
      (js "claude-sonnet-4-5") [] (CString (js "Be brief.")) = Some r
    /\ (uim_content <$> cur r) = Some (js "hi")
    /\ (match historyOf r with
        | [HUser m] => uim_content m
        | _ => []
        end) = js "Be brief." ++ [10; 10]%N ++ js "hi".
Proof.
  destruct (single_user_message_after_system_prompt uuid models kiro 0 (js "hi")
              (js "claude-sonnet-4-5") [] (CString (js "Be brief."))
              ltac:(discriminate) ltac:(vm_compute; discriminate))
    as (r & H1 & H2 & H3).
  exists r. split; [exact H1|]. split; [exact H2|]. rewrite H3. reflexivity.
Defined.


(** X16, on two text events. *)
Lemma text_events_accumulate_witness :
  handleEvents JsonText.parse JsonText.stringify
    (map contentEvent [js "Hello, "; js "world"]) emptyState
  = Some {| fullContent := js "Hello, world"; st_toolCalls := [];
            currentToolCallDict := None |}.
Proof.
  exact (proj1 (text_events_accumulate JsonText.parse JsonText.stringify
                  [js "Hello, "; js "world"] emptyState
                  ltac:(apply (bool_decide_unpack _); vm_compute; exact I))).
Defined.

(** X18, on a buffer with a bracket call outside the event frames. *)
Lemma processApiResponse_keeps_chunk_calls_witness :
  exists p n',
    _processApiResponse JsonText.parse JsonText.stringify uuid 0 bracketCallBuffer
    = Some (p, n')
    /\ exists chunk n1 rest,
         parseEventStreamChunk JsonText.parse JsonText.stringify uuid 0
           bracketCallBuffer = Some (chunk, n1)
         /\ resp_toolCalls p = toolCalls chunk ++ rest
         /\ rest `sublist_of`
              default [] (parseBracketToolCalls JsonText.parse JsonText.stringify
                            uuid n1 bracketCallBuffer).1.
Proof.
  eexists _, _. split; [vm_compute; reflexivity|].
  exact (processApiResponse_keeps_chunk_calls JsonText.parse JsonText.stringify uuid
           0 bracketCallBuffer _ _ ltac:(vm_compute; reflexivity)).
Defined.

(** X19, on the same buffer. *)
Lemma processApiResponse_collapses_white_space_witness :
  exists p n',
    _processApiResponse JsonText.parse JsonText.stringify uuid 0 bracketCallBuffer
    = Some (p, n')
    /\ Forall (fun c => isSpace c = true -> c = 32%N) (responseText p)
    /\ trim (responseText p) = responseText p.
Proof.
  eexists _, _. split; [vm_compute; reflexivity|].
  exact (processApiResponse_collapses_white_space JsonText.parse JsonText.stringify
           uuid 0 bracketCallBuffer _ _ ltac:(vm_compute; reflexivity)
           ltac:(discriminate)).
Defined.

(** X21, on an upstream that answers 429 to every POST, with the default
    three retries and base delay of one second. *)
Lemma callApi_backoff_schedule_witness :
  callApi alwaysTooMany refreshOk defaults freshWorld
  = Some ({| posts := 4; refreshes := 0;
             trace := [EPost false 0; ESleep 1000; EPost false 1; ESleep 2000;
                       EPost false 2; ESleep 4000; EPost false 3] |},
          Rejected tooManyRequests).
Proof.
  exact (callApi_backoff_schedule alwaysTooMany refreshOk defaults freshWorld
           tooManyRequests ltac:(intros; reflexivity) ltac:(reflexivity)
           ltac:(discriminate)).
Defined.


End FurtherExamples.
(** ** Credentials *)

Section CredentialFacts.
Variable path_join : list N -> list N -> list N.
Variable path_dirname : list N -> list N.
Variable path_basename : list N -> list N.
Variable loadCredentialsFromFile : list N -> option credentials.
Variable readdir : list N -> option (list (list N)).
Variable refreshPost : option (list N) -> json -> outcome json.
Variable toISOString : option json -> option (list N).
Variable nullPostMessage : list N.
Variable invalidTimeMessage : list N.

Local Abbreviation load :=
  (loadCredentials path_join path_dirname path_basename loadCredentialsFromFile readdir).
Local Abbreviation merged :=
  (mergeCredentials path_join path_dirname path_basename loadCredentialsFromFile readdir).
Local Abbreviation auth :=
  (initializeAuth path_join path_dirname path_basename loadCredentialsFromFile readdir
                  refreshPost toISOString nullPostMessage invalidTimeMessage).
Local Abbreviation init :=
  (initialize path_join path_dirname path_basename loadCredentialsFromFile readdir
              refreshPost toISOString nullPostMessage invalidTimeMessage).
Local Abbreviation refreshToken :=
  (refreshAccessToken path_join refreshPost toISOString nullPostMessage invalidTimeMessage).

Lemma loadOtherFiles_facts (dirPath targetFileName : list N) (files : list (list N))
    (m : credentials) :
  let res := loadOtherFiles path_join loadCredentialsFromFile dirPath targetFileName
               files m in
  cred_expiresAt res.1 = cred_expiresAt m
  /\ Forall (fun e => isPost e = false /\ isSave e = false) res.2.
Proof.
  revert m. induction files as [|file files IH]; intros m; [by split|].
  cbn [loadOtherFiles]. destruct (_ && _); [|apply IH]. cbv zeta.
  set (m' := match loadCredentialsFromFile (path_join dirPath file) with
             | Some credentials => assign m (withExpiresAt credentials (cred_expiresAt m))
             | None => m
             end).
  assert (Hm : cred_expiresAt m' = cred_expiresAt m).
  { subst m'. destruct (loadCredentialsFromFile _); [|done].
    simpl. by destruct (cred_expiresAt m). }
  specialize (IH m').
  destruct (loadOtherFiles _ _ _ _ files m') as [m'' t]. simpl in *.
  destruct IH as [IH1 IH2]. split; [congruence|]. by constructor.
Qed.

Lemma mergeCredentials_reads (st : authState) :
  Forall (fun e => isPost e = false /\ isSave e = false) (merged st).2.
Proof.
  unfold mergeCredentials. cbv zeta.
  destruct (readdir _) as [files|]; [|by repeat constructor].
  match goal with |- context [loadOtherFiles ?a ?b ?c ?d ?e ?f] =>
    pose proof (loadOtherFiles_facts c d e f) as [_ H];
    destruct (loadOtherFiles a b c d e f) as [m t] end.
  simpl in *. by repeat constructor.
Qed.

Lemma load_reads (st : authState) :
  Forall (fun e => isPost e = false /\ isSave e = false) (load st).2.
Proof.
  unfold loadCredentials. pose proof (mergeCredentials_reads st) as Hreads.
  by destruct (merged st) as [m t].
Qed.

(** X30: the expiry date of the merged credentials is that of the token
    file, or that of the Base64 credentials when the file has none: the
    other files of the directory never give it.  After the credentials are
    loaded the region is set: without a region of the service or of the
    credentials it is [us-east-1], and the four URLs are those of
    [us-east-1]; loading posts nothing and saves nothing. *)
Theorem expiresAt_not_taken_from_directory (st : authState) :
  let fromBase64 :=
    match base64Creds st with Some c => cred_expiresAt c | None => None end in
  cred_expiresAt (merged st).1
  = match loadCredentialsFromFile (tokenFilePathOf path_join st) with
    | Some target =>
        match cred_expiresAt target with Some v => Some v | None => fromBase64 end
    | None => fromBase64
    end
  /\ truthy_opt (this_region (load st).1) = true
  /\ (truthy_opt (this_region st) = false ->
      truthy_opt (cred_region (merged st).1) = false ->
      this_region (load st).1 = Some (JStr (js "us-east-1"))
      /\ refreshUrl (load st).1
         = Some (js "https://prod.us-east-1.auth.desktop.kiro.dev/refreshToken")
      /\ refreshIDCUrl (load st).1
         = Some (js "https://oidc.us-east-1.amazonaws.com/token")
      /\ baseUrl (load st).1
         = Some (js "https://codewhisperer.us-east-1.amazonaws.com/generateAssistantResponse")
      /\ amazonQUrl (load st).1
         = Some (js "https://codewhisperer.us-east-1.amazonaws.com/SendMessageStreaming"))
  /\ Forall (fun e => isPost e = false /\ isSave e = false) (load st).2.
Proof.
  cbv zeta. split.
  - unfold mergeCredentials. cbv zeta.
    set (m0 := match base64Creds st with
               | Some c => assign noCredentials c
               | None => noCredentials
               end).
    assert (H0 : cred_expiresAt m0
                 = match base64Creds st with Some c => cred_expiresAt c | None => None end).
    { subst m0. destruct (base64Creds st) as [c|]; [|done]. simpl.
      by destruct (cred_expiresAt c). }
    set (m1 := match loadCredentialsFromFile (tokenFilePathOf path_join st) with
               | Some targetCredentials => assign m0 targetCredentials
               | None => m0
               end).
    assert (H1 : cred_expiresAt m1
                 = match loadCredentialsFromFile (tokenFilePathOf path_join st) with
                   | Some target =>
                       match cred_expiresAt target with
                       | Some v => Some v
                       | None => cred_expiresAt m0
                       end
                   | None => cred_expiresAt m0
                   end).
    { subst m1. by destruct (loadCredentialsFromFile _). }
    rewrite <- H0, <- H1.
    destruct (readdir _) as [files|]; [|done].
    match goal with |- context [loadOtherFiles ?a ?b ?c ?d ?e ?f] =>
      pose proof (loadOtherFiles_facts c d e f) as [H _];
      destruct (loadOtherFiles a b c d e f) as [m t] end.
    exact H.
  - split; [|split; [|apply load_reads]]; unfold loadCredentials;
      destruct (merged st) as [m t]; simpl.
    + by destruct (truthy_opt (orElse (this_region st) (cred_region m))) eqn:E.
    + intros H1 H2. unfold orElse. rewrite H1. cbv iota. rewrite H2.
      vm_compute. done.
Qed.

Lemma load_preserves (st : authState) :
  axiosInstance (load st).1 = axiosInstance st
  /\ isInitialized (load st).1 = isInitialized st
  /\ (truthy_opt (this_accessToken st) = true ->
      this_accessToken (load st).1 = this_accessToken st).
Proof.
  unfold loadCredentials. destruct (merged st) as [m t]. simpl.
  split; [done|]. split; [done|]. intros H. unfold orElse. by rewrite H.
Qed.

Lemma refreshAccessToken_outcomes (st : authState) :
  let '(st', t, thrown) := refreshToken st in
  match thrown with
  | None => truthy_opt (this_accessToken st') = true
  | Some message => exists reason, message = refreshFailed reason
  end
  /\ (axiosInstance st = false -> t = [] /\ thrown = Some (refreshFailed nullPostMessage)
                                /\ st' = st)
  /\ axiosInstance st' = axiosInstance st /\ isInitialized st' = isInitialized st.
Proof.
  unfold refreshAccessToken. cbv zeta.
  destruct (axiosInstance st) eqn:Hax; cbn [negb].
  2:{ split; [by eexists|]. by repeat split. }
  destruct (refreshPost _ _) as [data|error].
  - destruct (truthy data && truthy_opt (prop data (js "accessToken"))) eqn:Hok.
    + apply andb_true_iff in Hok as [_ Hok].
      destruct (toISOString _); simpl; (split; [by eauto|]); by split.
    + split; [by eexists|]. by split.
  - split; [by eexists|]. by split.
Qed.

(** X28: [initializeAuth] returns without doing anything when an access
    token is held and no refresh is forced.  When it returns normally the
    service holds an access token; when it throws, the message is one of
    [No refresh token available...], [No access token available...] or
    [Token refresh failed: ...]. *)
Theorem initializeAuth_outcomes (forceRefresh : bool) (st : authState) :
  let '(st', t, thrown) := auth forceRefresh st in
  match thrown with
  | None => truthy_opt (this_accessToken st') = true
  | Some message => authError message
  end
  /\ (truthy_opt (this_accessToken st) = true -> forceRefresh = false ->
      st' = st /\ t = [] /\ thrown = None).
Proof.
  unfold initializeAuth.
  destruct (truthy_opt (this_accessToken st) && negb forceRefresh) eqn:Hearly.
  { apply andb_true_iff in Hearly as [Htok _]. by split. }
  assert (Hnot : truthy_opt (this_accessToken st) = true -> forceRefresh = false -> False).
  { intros H1 H2. by rewrite H1, H2 in Hearly. }
  destruct (load st) as [st1 t1].
  destruct (forceRefresh
            || negb (truthy_opt (this_accessToken st1))
               && truthy_opt (this_refreshToken st1)) eqn:Hrefresh.
  - destruct (truthy_opt (this_refreshToken st1)) eqn:Hrt; cbn [negb].
    + pose proof (refreshAccessToken_outcomes st1) as H.
      destruct (refreshToken st1) as [[st2 t2] [message|]].
      * destruct H as [[reason ->] _]. split; [|by intros ? ?; exfalso; auto].
        right. right. by eexists.
      * destruct H as [H _]. rewrite H. cbn [negb]. split; [done|].
        by intros ? ?; exfalso; auto.
    + split; [by left|]. by intros ? ?; exfalso; auto.
  - destruct (truthy_opt (this_accessToken st1)) eqn:Htok; cbn [negb].
    + split; [done|]. by intros ? ?; exfalso; auto.
    + split; [by right; left|]. by intros ? ?; exfalso; auto.
Qed.

(** X29: on a service that is not initialized yet (the HTTP client does
    not exist), [initialize] never posts a refresh and never saves a token:
    it succeeds exactly when the service or the credentials loaded hold an
    access token; with a refresh token only, it throws
    [Token refresh failed: ...] with the message of the TypeError. *)
Theorem initialize_cannot_refresh (st : authState) :
  isInitialized st = false -> axiosInstance st = false ->
  let '(st', t, thrown) := init st in
  let loaded := (load st).1 in
  Forall (fun e => isPost e = false /\ isSave e = false) t
  /\ (thrown = None <-> truthy_opt (this_accessToken loaded) = true)
  /\ (thrown = None -> isInitialized st' = true /\ axiosInstance st' = true
                       /\ truthy_opt (this_accessToken st') = true)
  /\ (truthy_opt (this_accessToken loaded) = false ->
      thrown
      = Some (if truthy_opt (this_refreshToken loaded)
              then refreshFailed nullPostMessage
              else js "No access token available after initialization and refresh attempts.")).
Proof.
  intros Hinit Hax. unfold initialize. rewrite Hinit. unfold initializeAuth.
  destruct (truthy_opt (this_accessToken st)) eqn:Htok; cbn [andb negb].
  - destruct (load_preserves st) as (_ & _ & H). rewrite (H Htok), Htok.
    cbv zeta. split; [constructor|]. split; [done|]. split; [by simpl|]. done.
  - pose proof (load_reads st) as Hreads.
    destruct (load_preserves st) as (Hax1 & _ & _).
    destruct (load st) as [st1 t1]. simpl in Hreads, Hax1. cbn [fst]. cbv zeta.
    rewrite Hax in Hax1.
    destruct (truthy_opt (this_accessToken st1)) eqn:Htok1; cbn [negb andb orb].
    + rewrite Htok1. cbn [negb]. rewrite app_nil_r.
      split; [done|]. split; [done|]. split; [by simpl|]. done.
    + destruct (truthy_opt (this_refreshToken st1)) eqn:Hrt; cbn [negb].
      * pose proof (refreshAccessToken_outcomes st1) as H.
        destruct (refreshToken st1) as [[st2 t2] thrown].
        destruct H as (_ & H & _). destruct (H Hax1) as (-> & -> & ->).
        rewrite app_nil_r. split; [done|]. split; [done|]. split; [done|]. done.
      * rewrite Htok1. cbn [negb]. rewrite app_nil_r.
        split; [done|]. split; [done|]. split; [done|]. done.
Qed.

End CredentialFacts.

Section CredentialExamples.
Import JS Regex JSON Samples.

(** X29, on a directory whose token file holds a refresh token only. *)
Lemma initialize_cannot_refresh_witness :
  (initialize joinPath dirnameOf basenameOf tokenFileOnly listing unreachable isoOf
              nullPost invalidTime freshService).2
  = Some (js "Token refresh failed: Cannot read properties of null (reading 'post')").
Proof.
  pose proof (initialize_cannot_refresh joinPath dirnameOf basenameOf tokenFileOnly
                listing unreachable isoOf nullPost invalidTime freshService
                eq_refl eq_refl) as H.
  destruct (initialize joinPath dirnameOf basenameOf tokenFileOnly listing unreachable
              isoOf nullPost invalidTime freshService) as [[st' t] thrown].
  destruct H as (_ & _ & _ & H). exact (H ltac:(vm_compute; reflexivity)).
Defined.

End CredentialExamples.
